(** * jackal.nodejs: the encrypted envelope codec, the key-wrap format and
      the folder model, embedded from the TypeScript sources.

    Sources embedded here:
    - [src/unnamed/part_000] (the AES helpers: [exportJackalKey],
      [importJackalKey], [aesCrypt], [aesToString], [stringToAes],
      [convertToEncryptedFile], [convertFromEncryptedFile],
      [cryptString]);
    - [src/src/classes/folderHandler.ts] (class [FolderHandler]);
    - [src/src/classes/walletHandler.ts] (class [WalletHandler]: the
      initialisation flags, [voidFullWallet], [getJackalAddress],
      [getPubkey], [asymmetricEncrypt], [asymmetricDecrypt]);
    - [src/unnamed/part_004] ([sanitizeRns]).

    Conventions.
    - A [Buffer] is a list of bytes; a JavaScript string is a [string] of
      bytes, its UTF-8 encoding, where a lone surrogate, which has none,
      takes the three bytes that the scheme of UTF-8 gives its code point.
      [Buffer.from(s)] gives the UTF-8 encoding, and [buf.toString()]
      decodes the bytes of a buffer, which need not be UTF-8, into such a
      string.
    - Lengths and offsets are integers in [Z]; a JavaScript number is a
      [JSNumber]: an integer, another value of binary64, or [NaN].
    - An [await]ed computation is a value of [Promise A]: the list of
      observable events it performed (calls of the WebCrypto cipher, console
      lines) paired with its [Outcome].
    - A method of [FolderHandler] is a function from the folder record before
      the call to the folder record after it, paired with the [Outcome].
      Module [Shared] gives the same methods on a store of objects, where
      a reference can be held by more than one party. *)

From Stdlib Require Import ZArith Lia List.
From Stdlib Require Import Strings.Ascii Strings.String Strings.Byte.
From Stdlib Require Import Floats.SpecFloat.
From stdpp Require Import base list strings gmap.
Import ListNotations.

Local Open Scope string_scope.
Local Open Scope list_scope.
Local Open Scope Z_scope.

(* [simpl] may unfold the append of strings. *)
#[local] Arguments String.append !_ _ / : simpl nomatch.

(** ** JavaScript values *)

Definition Buffer : Type := list byte.

Definition byte_code (b : byte) : Z := Z.of_N (Byte.to_N b).

(** U+FFFD in UTF-8. *)
Definition replacement : list byte := [xef; xbf; xbd].

(** The three bytes of a surrogate, U+D800 to U+DFFF. *)
Definition is_surrogate (b0 b1 b2 : byte) : bool :=
  (byte_code b0 =? 237)
  && (160 <=? byte_code b1) && (byte_code b1 <=? 191)
  && (128 <=? byte_code b2) && (byte_code b2 <=? 191).

Fixpoint replace_surrogates (bs : list byte) : list byte :=
  match bs with
  | [] => []
  | b0 :: tl =>
      match tl with
      | b1 :: b2 :: rest =>
          if is_surrogate b0 b1 b2
          then replacement ++ replace_surrogates rest
          else b0 :: replace_surrogates tl
      | _ => b0 :: replace_surrogates tl
      end
  end.

(** [Buffer.from(s)]: the UTF-8 encoding of the text, where a lone
    surrogate is replaced by U+FFFD. *)
Definition Buffer_from (s : string) : Buffer :=
  replace_surrogates (list_byte_of_string s).

(** The UTF-8 decoder between two bytes: the bytes of the sequence under
    way, how many more it needs, and the bounds of the next one. *)
Record Utf8State : Type := {
  utf8_seen : list byte;
  utf8_needed : nat;
  utf8_lower : Z;
  utf8_upper : Z
}.

Definition utf8_start : Utf8State :=
  {| utf8_seen := []; utf8_needed := 0; utf8_lower := 128; utf8_upper := 191 |}.

(** A byte met between two sequences: an ASCII byte is a sequence of its
    own, a lead byte opens a sequence of two, three or four bytes, and any
    other byte is replaced. *)
Definition utf8_lead (b : byte) : list byte * Utf8State :=
  let n := byte_code b in
  if n <=? 127 then ([b], utf8_start)
  else if (194 <=? n) && (n <=? 223) then
    ([], {| utf8_seen := [b]; utf8_needed := 1;
            utf8_lower := 128; utf8_upper := 191 |})
  else if (224 <=? n) && (n <=? 239) then
    ([], {| utf8_seen := [b]; utf8_needed := 2;
            utf8_lower := if n =? 224 then 160 else 128;
            utf8_upper := if n =? 237 then 159 else 191 |})
  else if (240 <=? n) && (n <=? 244) then
    ([], {| utf8_seen := [b]; utf8_needed := 3;
            utf8_lower := if n =? 240 then 144 else 128;
            utf8_upper := if n =? 244 then 143 else 191 |})
  else (replacement, utf8_start).

(** One byte more: it continues the sequence under way, or the bytes read
    of that sequence are replaced by one U+FFFD and the byte is met anew. *)
Definition utf8_step (st : Utf8State) (b : byte) : list byte * Utf8State :=
  match utf8_needed st with
  | O => utf8_lead b
  | S k =>
      if (utf8_lower st <=? byte_code b) && (byte_code b <=? utf8_upper st)
      then
        match k with
        | O => (utf8_seen st ++ [b], utf8_start)
        | S _ =>
            ([], {| utf8_seen := utf8_seen st ++ [b]; utf8_needed := k;
                    utf8_lower := 128; utf8_upper := 191 |})
        end
      else (replacement ++ fst (utf8_lead b), snd (utf8_lead b))
  end.

Fixpoint utf8_decode (st : Utf8State) (bs : list byte) : list byte :=
  match bs with
  | [] =>
      match utf8_needed st with
      | O => []
      | S _ => replacement
      end
  | b :: bs' => fst (utf8_step st b) ++ utf8_decode (snd (utf8_step st b)) bs'
  end.

(** The byte goes on without a replacement: between two sequences it is
    an ASCII byte or a lead byte, and within a sequence it lies in the
    bounds. *)
Definition utf8_continues (st : Utf8State) (b : byte) : bool :=
  match utf8_needed st with
  | O => (byte_code b <=? 127) || ((194 <=? byte_code b) && (byte_code b <=? 244))
  | S _ => (utf8_lower st <=? byte_code b) && (byte_code b <=? utf8_upper st)
  end.

(** Bytes that are UTF-8 from the state [st] on: every byte goes on
    without a replacement, and the last one ends a sequence. *)
Fixpoint utf8_valid (st : Utf8State) (bs : list byte) : bool :=
  match bs with
  | [] =>
      match utf8_needed st with
      | O => true
      | S _ => false
      end
  | b :: bs' => utf8_continues st b && utf8_valid (snd (utf8_step st b)) bs'
  end.

(** [s.isWellFormed()]: the text has no lone surrogate, so that its bytes
    are UTF-8. *)
Definition isWellFormed (s : string) : bool :=
  utf8_valid utf8_start (list_byte_of_string s).

(** [buf.toString()], which is [buf.toString('utf-8')]: the text of the
    bytes, where every maximal part that is not UTF-8 is one U+FFFD.
    Nothing is thrown, and a byte order mark is kept. *)
Definition Buffer_toString (b : Buffer) : string :=
  string_of_list_byte (utf8_decode utf8_start b).

Definition byteLength (b : Buffer) : Z := Z.of_nat (List.length b).

(** A JavaScript number. [Num z] is the integer [z]; [Dbl x] is any other
    value of binary64: one that is not an integer, or lies beyond [2^53],
    or is an infinity. Zero has no sign here: nothing in the code embedded
    tells [-0] from [0]. *)
Inductive JSNumber : Type :=
| NaN
| Num (z : Z)
| Dbl (x : spec_float).

(** The binary64 nearest to an integer, and the number that a binary64
    is. *)
Definition binary64_of_Z (z : Z) : spec_float := binary_normalize 53 1024 z 0 false.

(** The integer part of a finite binary64, and whether it is all of it. *)
Definition binary64_trunc (s : bool) (m : positive) (e : Z) : Z :=
  let z := if 0 <=? e then Zpos m * 2 ^ e else Zpos m / 2 ^ (- e) in
  if s then - z else z.

Definition binary64_is_whole (m : positive) (e : Z) : bool :=
  (0 <=? e) || (Zpos m mod 2 ^ (- e) =? 0).

Definition js_of_binary64 (x : spec_float) : JSNumber :=
  match x with
  | S754_nan => NaN
  | S754_zero _ => Num 0
  | S754_infinity _ => Dbl x
  | S754_finite s m e =>
      if binary64_is_whole m e && (Z.abs (binary64_trunc s m e) <=? 2 ^ 53)
      then Num (binary64_trunc s m e) else Dbl x
  end.

Definition binary64_of_js (a : JSNumber) : spec_float :=
  match a with
  | NaN => S754_nan
  | Num z => binary64_of_Z z
  | Dbl x => x
  end.

(** The Number value of an integer. *)
Definition js_of_Z (z : Z) : JSNumber :=
  if Z.abs z <=? 2 ^ 53 then Num z else js_of_binary64 (binary64_of_Z z).

(** [a + b]: exact on integers, as binary64 is up to [2^53], which no
    position within a buffer reaches; the sum of binary64 otherwise.
    [NaN] is absorbing. *)
Definition js_add (a b : JSNumber) : JSNumber :=
  match a, b with
  | Num x, Num y => Num (x + y)
  | NaN, _ | _, NaN => NaN
  | _, _ => js_of_binary64 (SFadd 53 1024 (binary64_of_js a) (binary64_of_js b))
  end.

(** [a < n] with [n] an integer; any comparison with [NaN] is false. *)
Definition js_lt (a : JSNumber) (n : Z) : bool :=
  match a with
  | Num x => x <? n
  | NaN => false
  | Dbl x => SFltb x (binary64_of_Z n)
  end.

(** [a === 0]. *)
Definition js_is_zero (a : JSNumber) : bool :=
  match a with
  | Num x => x =? 0
  | _ => false
  end.

(** Errors, tagged by where they come from. The first group is thrown by
    the code of this repository; the second group wraps what a collaborator
    threw or rejected with (its [${err}] rendering). *)
Inductive JSError : Type :=
| InvalidSourceString                     (* Error('stringToAes() : Invalid source string') *)
| SignerNotEnabled (cls fn : string)      (* Error(signerNotEnabled(cls, fn)) *)
| UndefinedPart                           (* a part of a split that is not there *)
| SubtleRejected (err : string)           (* a WebCrypto promise rejected *)
| WalletThrew (err : string)              (* the wallet collaborator threw *)
| JSONThrew (err : string)                (* JSON.parse threw *)
| FiletreeRejected (err : string).        (* saveFileTreeEntry rejected *)

(** How a call ends. [OutOfFuel] is a verdict of the model, not of the
    program: a loop that was given too few iterations. *)
Inductive Outcome (A : Type) : Type :=
| Returned (a : A)
| Thrown (e : JSError)
| OutOfFuel.
Arguments Returned {A} a.
Arguments Thrown {A} e.
Arguments OutOfFuel {A}.

Definition obind {A B} (o : Outcome A) (k : A -> Outcome B) : Outcome B :=
  match o with
  | Returned a => k a
  | Thrown e => Thrown e
  | OutOfFuel => OutOfFuel
  end.

(** ** Text and numbers *)

Definition char_code (c : ascii) : Z := Z.of_N (N_of_ascii c).

Definition is_digit (c : ascii) : bool :=
  (48 <=? char_code c) && (char_code c <=? 57).

Definition digit_char (d : Z) : ascii := ascii_of_N (Z.to_N (48 + d)).

(** A character within ASCII. *)
Definition is_ascii (c : ascii) : bool := char_code c <=? 127.

Fixpoint string_forallb (p : ascii -> bool) (s : string) : bool :=
  match s with
  | EmptyString => true
  | String c s' => p c && string_forallb p s'
  end.

Fixpoint string_existsb (p : ascii -> bool) (s : string) : bool :=
  match s with
  | EmptyString => false
  | String c s' => p c || string_existsb p s'
  end.

Definition strlen (s : string) : nat := String.length s.

(** [n.toString()] for an integer [n]: its decimal digits, most significant
    first, with a minus sign when negative. The recursion consumes one
    digit a round; [fuel] bounds the number of digits, and a number has no
    more decimal digits than binary ones. *)
Fixpoint toString_go (fuel : nat) (n : Z) (acc : string) : string :=
  match fuel with
  | O => acc
  | S fuel' =>
      let acc' := String (digit_char (n mod 10)) acc in
      if n / 10 =? 0 then acc' else toString_go fuel' (n / 10) acc'
  end.

Definition Number_toString (n : Z) : string :=
  if n <? 0
  then String "-" (toString_go (S (Z.to_nat (Z.log2 (- n)))) (- n) "")
  else toString_go (S (Z.to_nat (Z.log2 n))) n "".

(** [s.padStart(targetLength, c)] for a one-character filler [c]. *)
Fixpoint string_repeat (c : ascii) (n : nat) : string :=
  match n with
  | O => ""
  | S n' => String c (string_repeat c n')
  end.

Definition padStart (targetLength : nat) (c : ascii) (s : string) : string :=
  (string_repeat c (targetLength - strlen s) ++ s)%string.

(** The value of a string of decimal digits, read left to right. *)
Fixpoint digits_value_go (acc : Z) (s : string) : Z :=
  match s with
  | EmptyString => acc
  | String c s' => digits_value_go (10 * acc + (char_code c - 48)) s'
  end.

Definition digits_value (s : string) : Z := digits_value_go 0 s.

(** One white-space character of [StrWhiteSpaceChar] at the head of a text
    in UTF-8, and the text after it. *)
Definition space_prefix (s : string) : option string :=
  match s with
  | String c s1 =>
      let n := char_code c in
      if ((9 <=? n) && (n <=? 13)) || (n =? 32) then Some s1
      else
        match s1 with
        | String c1 s2 =>
            let n1 := char_code c1 in
            if (n =? 194) && (n1 =? 160) then Some s2
            else
              match s2 with
              | String c2 s3 =>
                  let n2 := char_code c2 in
                  if ((n =? 225) && (n1 =? 154) && (n2 =? 128))
                     || ((n =? 226) && (n1 =? 128)
                         && (((128 <=? n2) && (n2 <=? 138))
                             || (n2 =? 168) || (n2 =? 169) || (n2 =? 175)))
                     || ((n =? 226) && (n1 =? 129) && (n2 =? 159))
                     || ((n =? 227) && (n1 =? 128) && (n2 =? 128))
                     || ((n =? 239) && (n1 =? 187) && (n2 =? 191))
                  then Some s3 else None
              | EmptyString => None
              end
        | EmptyString => None
        end
  | EmptyString => None
  end.

Fixpoint trimStart_go (fuel : nat) (s : string) : string :=
  match fuel with
  | O => s
  | S fuel' =>
      match space_prefix s with
      | Some rest => trimStart_go fuel' rest
      | None => s
      end
  end.

Definition trimStart (s : string) : string := trimStart_go (strlen s) s.

(** A text of white space only. *)
Definition all_space (s : string) : bool :=
  match trimStart s with
  | EmptyString => true
  | _ => false
  end.

(** The longest prefix of characters that satisfy [p], and the rest. *)
Fixpoint span (p : ascii -> bool) (s : string) : string * string :=
  match s with
  | String c s' =>
      if p c then (String c (fst (span p s')), snd (span p s'))
      else (EmptyString, s)
  | EmptyString => (EmptyString, EmptyString)
  end.

Definition is_hex_digit (c : ascii) : bool :=
  let n := char_code c in
  is_digit c || ((65 <=? n) && (n <=? 70)) || ((97 <=? n) && (n <=? 102)).
Definition is_octal_digit (c : ascii) : bool :=
  (48 <=? char_code c) && (char_code c <=? 55).
Definition is_binary_digit (c : ascii) : bool :=
  (48 <=? char_code c) && (char_code c <=? 49).

Definition digit_value (c : ascii) : Z :=
  let n := char_code c in
  if n <=? 57 then n - 48 else if n <=? 70 then n - 55 else n - 87.

Fixpoint radix_value_go (radix acc : Z) (s : string) : Z :=
  match s with
  | EmptyString => acc
  | String c s' => radix_value_go radix (radix * acc + digit_value c) s'
  end.

(** [m * 10^e10] with [0 <= m], negated when [negative], as the Number
    value nearest to it (ties to even). A magnitude of [10^400] and more
    is an infinity and one below [2^-1075] is zero, before any power of ten
    is computed. *)
Definition js_of_decimal (negative : bool) (m e10 : Z) : JSNumber :=
  if m =? 0 then Num 0
  else if 400 <? e10 then Dbl (S754_infinity negative)
  else if Z.log2 m + 1 + 3 * e10 <? -1075 then Num 0
  else if 0 <=? e10 then js_of_Z ((if negative then - m else m) * 10 ^ e10)
  else
    let d := 10 ^ (- e10) in
    if m mod d =? 0 then js_of_Z ((if negative then - m else m) / d)
    else js_of_binary64
           (SFdiv 53 1024 (S754_finite negative (Z.to_pos m) 0)
              (S754_finite false (Z.to_pos d) 0)).

(** [ExponentPart], when the text begins with one: its value and what
    follows it. *)
Definition exponent_part (s : string) : Z * string :=
  match s with
  | String c s1 =>
      if (char_code c =? 101) || (char_code c =? 69) then
        let negative := match s1 with String "-" _ => true | _ => false end in
        let s2 := match s1 with
                  | String "-" r => r
                  | String "+" r => r
                  | _ => s1
                  end in
        match span is_digit s2 with
        | (EmptyString, _) => (0, s)
        | (ds, rest) =>
            (if negative then - digits_value ds else digits_value ds, rest)
        end
      else (0, s)
  | EmptyString => (0, s)
  end.

(** [StrUnsignedDecimalLiteral] other than [Infinity], at the head of a
    text: the digits as an integer, the power of ten that scales it, and
    what follows the literal. *)
Definition unsigned_decimal (s : string) : option (Z * Z * string) :=
  let (whole, s1) := span is_digit s in
  let (fraction, s2) :=
    match s1 with
    | String "." r =>
        match whole, span is_digit r with
        | EmptyString, (EmptyString, _) => (EmptyString, s1)
        | _, fr => fr
        end
    | _ => (EmptyString, s1)
    end in
  match (whole ++ fraction)%string with
  | EmptyString => None
  | ds =>
      let (e, rest) := exponent_part s2 in
      Some (digits_value ds, e - Z.of_nat (strlen fraction), rest)
  end.

Fixpoint strip_prefix (p s : string) : option string :=
  match p, s with
  | EmptyString, _ => Some s
  | String a p', String b s' => if Ascii.eqb a b then strip_prefix p' s' else None
  | String _ _, EmptyString => None
  end.

Definition signed_decimal (negative : bool) (s : string)
    : option (JSNumber * string) :=
  match strip_prefix "Infinity" s with
  | Some rest => Some (Dbl (S754_infinity negative), rest)
  | None =>
      match unsigned_decimal s with
      | Some (m, e10, rest) => Some (js_of_decimal negative m e10, rest)
      | None => None
      end
  end.

(** [NonDecimalIntegerLiteral] at the head of a text. *)
Definition non_decimal (s : string) : option (JSNumber * string) :=
  match s with
  | String "0" (String c s') =>
      let n := char_code c in
      let radix :=
        if (n =? 120) || (n =? 88) then 16
        else if (n =? 111) || (n =? 79) then 8
        else if (n =? 98) || (n =? 66) then 2
        else 0 in
      let p :=
        if radix =? 16 then is_hex_digit
        else if radix =? 8 then is_octal_digit
        else is_binary_digit in
      if radix =? 0 then None
      else
        match span p s' with
        | (EmptyString, _) => None
        | (ds, rest) => Some (js_of_Z (radix_value_go radix 0 ds), rest)
        end
  | _ => None
  end.

(** [StrNumericLiteral] at the head of a text. *)
Definition numeric_literal (s : string) : option (JSNumber * string) :=
  match non_decimal s with
  | Some r => Some r
  | None =>
      match s with
      | String "+" r => signed_decimal false r
      | String "-" r => signed_decimal true r
      | _ => signed_decimal false s
      end
  end.

(** [Number(s)], the StringToNumber of ECMAScript on a text in UTF-8:
    white space around the literal is dropped, a text of white space only
    is 0, and a text that is not a numeric literal is [NaN]. *)
Definition Number (s : string) : JSNumber :=
  match trimStart s with
  | EmptyString => Num 0
  | t =>
      match numeric_literal t with
      | Some (v, rest) => if all_space rest then v else NaN
      | None => NaN
      end
  end.

(** [s.toLowerCase()]: the letters A to Z are mapped, every other byte is
    kept. (No character outside ASCII lower-cases to a letter of
    ["encrypt"], the only string the result is compared with.) *)
Definition ascii_toLowerCase (c : ascii) : ascii :=
  let n := char_code c in
  if (65 <=? n) && (n <=? 90) then ascii_of_N (Z.to_N (n + 32)) else c.

Fixpoint toLowerCase (s : string) : string :=
  match s with
  | EmptyString => EmptyString
  | String c s' => String (ascii_toLowerCase c) (toLowerCase s')
  end.

(** [s.indexOf(c) < 0]. *)
Definition lacks (c : ascii) (s : string) : bool :=
  negb (string_existsb (Ascii.eqb c) s).

(** [s.split(c)]: the pieces between the occurrences of [c], all of them;
    a string without [c] is its own single piece. *)
Fixpoint split (c : ascii) (s : string) : list string :=
  match s with
  | EmptyString => [EmptyString]
  | String a s' =>
      if Ascii.eqb a c then EmptyString :: split c s'
      else match split c s' with
           | piece :: pieces => String a piece :: pieces
           | [] => [String a EmptyString]
           end
  end.

(** ** Buffers *)

(** Node's [Buffer.prototype.slice(start, end)]: each bound is truncated
    by [Math.trunc] to an index of the buffer ([NaN] is 0, a negative
    bound counts from the end, a bound past the end is the end), and an
    empty range is an empty buffer. Nothing is thrown. *)
Definition adjustOffset (offset : JSNumber) (length : Z) : Z :=
  match offset with
  | NaN => 0
  | Num o =>
      if o <? 0 then Z.max (o + length) 0
      else if o <? length then o
      else length
  | Dbl (S754_finite s m e) =>
      let o := binary64_trunc s m e in
      if o <? 0 then Z.max (o + length) 0
      else if o <? length then o
      else length
  | Dbl (S754_infinity false) => length
  | Dbl _ => 0
  end.

Definition Buffer_slice (b : Buffer) (start end_ : JSNumber) : Buffer :=
  let srcLength := byteLength b in
  let s := adjustOffset start srcLength in
  let e := adjustOffset end_ srcLength in
  let newLength := if s <? e then e - s else 0 in
  firstn (Z.to_nat newLength) (skipn (Z.to_nat s) b).

(** [Blob.prototype.slice(start, end)] with bounds that are integers and
    not negative, as [convertToEncryptedFile] calls it. *)
Definition Blob_slice (content : Buffer) (start end_ : Z) : Buffer :=
  Buffer_slice content (Num start) (Num end_).

(** ** Collaborators *)

(** The WebCrypto provider ([webcrypto.subtle]) with AES-GCM. A rejected
    promise is [inl] of the rendering of its reason. The arguments follow
    the source: [algo.iv], [key], [data]. *)
Class SubtleCrypto : Type := {
  CryptoKey : Type;
  subtle_encrypt : Buffer -> CryptoKey -> Buffer -> string + Buffer;
  subtle_decrypt : Buffer -> CryptoKey -> Buffer -> string + Buffer;
  subtle_importKey : Buffer -> string + CryptoKey;
  subtle_exportKey : CryptoKey -> string + Buffer
}.

(** What is assumed of AES-GCM where a statement needs it: the ciphertext
    is the plaintext's length plus the 16-byte authentication tag (WebCrypto's
    default [tagLength] of 128 bits, which [algo] does not override), and
    decryption under the same key and iv undoes encryption. *)
Class AesGcm (S : SubtleCrypto) : Prop := {
  encrypt_length : forall iv key data c,
    subtle_encrypt iv key data = inr c ->
    List.length c = (List.length data + 16)%nat;
  decrypt_encrypt : forall iv key data c,
    subtle_encrypt iv key data = inr c ->
    subtle_decrypt iv key c = inr data
}.

(** The metadata record of a file, and [JSON.stringify] / [JSON.parse] on
    it. [JSON_parse] stands for parsing followed by the reads of [name],
    [type] and [lastModified] that [new File(parts, details.name, details)]
    performs; [inl] is a parse that throws. *)
Record FileDetails : Type := {
  details_name : string;
  details_lastModified : Z;
  details_type : string;
  details_size : Z
}.

Class JSON : Type := {
  JSON_stringify : FileDetails -> string;
  JSON_parse : string -> string + FileDetails
}.

(** [hashAndHex] of [@/utils/hash], which names the encrypted file. *)
Class Hashing : Type := {
  hashAndHex : string -> string
}.

(** The part of [IWalletHandler] that the embedded code calls. [traits] is
    the truthiness of [walletRef.traits]; each of the three methods returns
    or throws, as the [Outcome] says. *)
Record IWalletHandler : Type := {
  traits : bool;
  getJackalAddress : Outcome string;
  asymmetricEncrypt : Buffer -> string -> Outcome string;
  asymmetricDecrypt : string -> Outcome Buffer
}.

(** A [File]: name, the two properties of its property bag, and its bytes. *)
Record File : Type := {
  file_name : string;
  file_lastModified : Z;
  file_type : string;
  file_content : Buffer
}.

Definition file_size (f : File) : Z := byteLength (file_content f).

(** ** The AES helpers ([src/unnamed/part_000]) *)

Section Aes.
Context `{SC : SubtleCrypto} `{JS : JSON} `{HH : Hashing}.

Inductive Direction : Type := Encrypt | Decrypt.

(** What a computation does that an observer can see. *)
Inductive Event : Type :=
| SubtleCall (d : Direction) (iv : Buffer) (key : CryptoKey) (data : Buffer)
| ConsoleError (line : string)
| ConsoleLog (line : string).

Definition Promise (A : Type) : Type := list Event * Outcome A.

Definition ret {A} (a : A) : Promise A := ([], Returned a).

Definition throw {A} (e : JSError) : Promise A := ([], Thrown e).

Definition emit (ev : Event) : Promise unit := ([ev], Returned tt).

Definition bind {A B} (m : Promise A) (k : A -> Promise B) : Promise B :=
  match m with
  | (t, Returned a) => let (t', o) := k a in (t ++ t', o)
  | (t, Thrown e) => (t, Thrown e)
  | (t, OutOfFuel) => (t, OutOfFuel)
  end.

Notation "'await' x := m 'in' k" := (bind m (fun x => k))
  (at level 10, x name, m at level 100, k at level 200).
Notation "'run' m 'in' k" := (bind m (fun _ => k))
  (at level 10, m at level 100, k at level 200).

(** [mode?.toLowerCase() === 'encrypt']; [None] is an absent mode. *)
Definition mode_is_encrypt (mode : option string) : bool :=
  match mode with
  | Some m => String.eqb (toLowerCase m) "encrypt"
  | None => false
  end.

(** part_000:56-89 *)
Definition aesCrypt (data : Buffer) (key : CryptoKey) (iv : Buffer)
    (mode : option string) : Promise Buffer :=
  if byteLength data <? 1 then ret []
  else if mode_is_encrypt mode then
    run emit (SubtleCall Encrypt iv key data) in
    match subtle_encrypt iv key data with
    | inr res => ret res
    | inl err =>
        run emit (ConsoleError ("aesCrypt(encrypt) - " ++ err)%string) in
        throw (SubtleRejected err)
    end
  else
    run emit (SubtleCall Decrypt iv key data) in
    match subtle_decrypt iv key data with
    | inr res => ret res
    | inl err =>
        run emit (ConsoleError ("aesCrypt(decrypt) - " ++ err)%string) in
        throw (SubtleRejected err)
    end.

(** part_000:15-17 and 24-29 *)
Definition exportJackalKey (key : CryptoKey) : Promise Buffer :=
  match subtle_exportKey key with
  | inr raw => ret raw
  | inl err => throw (SubtleRejected err)
  end.

Definition importJackalKey (rawExport : Buffer) : Promise CryptoKey :=
  match subtle_importKey rawExport with
  | inr key => ret key
  | inl err => throw (SubtleRejected err)
  end.

(** The iv and key of [IAesBundle]. *)
Record IAesBundle : Type := {
  aes_iv : Buffer;
  aes_key : CryptoKey
}.

(** A call that is not awaited, inside an [async] function: it adds no
    event, and what it throws rejects the promise. *)
Definition call {A} (outcome : Outcome A) : Promise A := ([], outcome).

(** part_000:98-107 *)
Definition aesToString (wallet : IWalletHandler) (pubKey : string)
    (aes : IAesBundle) : Promise string :=
  await theIv := call (asymmetricEncrypt wallet (aes_iv aes) pubKey) in
  await key := exportJackalKey (aes_key aes) in
  await theKey := call (asymmetricEncrypt wallet key pubKey) in
  ret (theIv ++ "|" ++ theKey)%string.

Definition callDecrypt (wallet : IWalletHandler) (part : option string)
    : Promise Buffer :=
  match part with
  | None => throw UndefinedPart
  | Some toDecrypt => call (asymmetricDecrypt wallet toDecrypt)
  end.

(** part_000:115-127 *)
Definition stringToAes (wallet : IWalletHandler) (source : string)
    : Promise IAesBundle :=
  if lacks "|" source then throw InvalidSourceString
  else
    let parts := split "|" source in
    await iv := callDecrypt wallet (nth_error parts 0) in
    await raw := callDecrypt wallet (nth_error parts 1) in
    await key := importJackalKey raw in
    ret {| aes_iv := iv; aes_key := key |}.

(** *** The envelope codec *)

(** part_000:142 *)
Definition chunkSize : Z := 32 * Z.pow 1024 2.

(** The length header written before a ciphertext, from the length of
    the buffer that was encrypted:
    [Buffer.from((buf.length + 8).toString().padStart(8, '0'))]. *)
Definition lengthHeader (buf : Buffer) : Buffer :=
  Buffer_from (padStart 8 "0" (Number_toString (byteLength buf + 8))).

(** part_000:154-160, the loop over the content; [i] is the loop
    variable and [encryptedArray] the array being pushed to. *)
Fixpoint encryptChunks (fuel : nat) (content : Buffer) (key : CryptoKey)
    (iv : Buffer) (i : Z) (encryptedArray : list Buffer)
    : Promise (list Buffer) :=
  match fuel with
  | O => ([], OutOfFuel)
  | S fuel' =>
      if i <? byteLength content then
        let bufChunk := Blob_slice content i (i + chunkSize) in
        await c := aesCrypt bufChunk key iv (Some "encrypt") in
        encryptChunks fuel' content key iv (i + chunkSize)
          (encryptedArray ++ [lengthHeader bufChunk; c])
      else ret encryptedArray
  end.

Definition detailsOf (workingFile : File) : FileDetails :=
  {| details_name := file_name workingFile;
     details_lastModified := file_lastModified workingFile;
     details_type := file_type workingFile;
     details_size := file_size workingFile |}.

(** part_000:142-160: [encryptedArray] when the loop is left. *)
Definition encryptedArrayOf (fuel : nat) (workingFile : File)
    (key : CryptoKey) (iv : Buffer) : Promise (list Buffer) :=
  let detailsBuf := Buffer_from (JSON_stringify (detailsOf workingFile)) in
  await c := aesCrypt detailsBuf key iv (Some "encrypt") in
  encryptChunks fuel (file_content workingFile) key iv 0
    [lengthHeader detailsBuf; c].

(** part_000:136-168. [now] is the value of [Date.now()]. *)
Definition convertToEncryptedFile (fuel : nat) (now : Z)
    (workingFile : File) (key : CryptoKey) (iv : Buffer) : Promise File :=
  let detailsBuf := Buffer_from (JSON_stringify (detailsOf workingFile)) in
  await encryptedArray := encryptedArrayOf fuel workingFile key iv in
  run emit (ConsoleLog ("convertToEncryptedFile() - detailsBuf: "
                        ++ Buffer_toString detailsBuf)%string) in
  run emit (ConsoleLog ("convertToEncryptedFile() - encryptedArray: "
                        ++ Number_toString
                             (Z.of_nat (List.length encryptedArray)))%string) in
  let finalName :=
    (hashAndHex (file_name workingFile ++ Number_toString now) ++ ".jkl")%string in
  ret {| file_name := finalName;
         file_lastModified := now;
         file_type := "text/plain";
         file_content := List.concat encryptedArray |}.

(** part_000:185-198, the loop over the envelope; [i] is the loop
    variable, [detailsBuf] and [bufParts] the two variables it assigns. *)
Fixpoint decodeSegments (fuel : nat) (source : Buffer) (key : CryptoKey)
    (iv : Buffer) (i : JSNumber) (detailsBuf : Buffer)
    (bufParts : list Buffer) : Promise (Buffer * list Buffer) :=
  match fuel with
  | O => ([], OutOfFuel)
  | S fuel' =>
      if js_lt i (byteLength source) then
        let offset := js_add i (Num 8) in
        let segSize :=
          Number (Buffer_toString (Buffer_slice source i offset)) in
        let last := js_add offset segSize in
        let segment := Buffer_slice source offset last in
        await _decrypted := aesCrypt segment key iv (Some "decrypt") in
        if js_is_zero i
        then decodeSegments fuel' source key iv last segment bufParts
        else decodeSegments fuel' source key iv last detailsBuf
               (bufParts ++ [segment])
      else ret (detailsBuf, bufParts)
  end.

(** part_000:177-204 *)
Definition convertFromEncryptedFile (fuel : nat) (source : Buffer)
    (key : CryptoKey) (iv : Buffer) : Promise File :=
  await walked := decodeSegments fuel source key iv (Num 0) [] [] in
  let detailsBuf := fst walked in
  let bufParts := snd walked in
  run emit (ConsoleLog ("convertFromEncryptedFile() - detailsBuf: "
                        ++ Buffer_toString detailsBuf)%string) in
  run emit (ConsoleLog ("convertFromEncryptedFile() - bufParts: "
                        ++ Number_toString
                             (Z.of_nat (List.length bufParts)))%string) in
  match JSON_parse (Buffer_toString detailsBuf) with
  | inl err => throw (JSONThrew err)
  | inr details =>
      ret {| file_name := details_name details;
             file_lastModified := details_lastModified details;
             file_type := details_type details;
             file_content := List.concat bufParts |}
  end.

End Aes.

Arguments Event {SC}.
Arguments Promise {SC} A.

Notation "'await' x := m 'in' k" := (bind m (fun x => k))
  (at level 10, x name, m at level 100, k at level 200).
Notation "'run' m 'in' k" := (bind m (fun _ => k))
  (at level 10, m at level 100, k at level 200).

(** ** The folder model ([src/src/classes/folderHandler.ts]) *)

(** [IFolderFileFrame]: the record a [FolderHandler] keeps in
    [folderDetails]. [fileChildren] is the object used as a map from file
    name to file metadata. *)
Record IFolderFileFrame (IFileMeta : Type) : Type := {
  whoAmI : string;
  whereAmI : string;
  whoOwnsMe : string;
  dirChildren : list string;
  fileChildren : gmap string IFileMeta
}.
Arguments whoAmI {IFileMeta} _.
Arguments whereAmI {IFileMeta} _.
Arguments whoOwnsMe {IFileMeta} _.
Arguments dirChildren {IFileMeta} _.
Arguments fileChildren {IFileMeta} _.

Record IChildDirInfo : Type := {
  myName : string;
  myParent : string;
  myOwner : string
}.

(** What the folder model imports and this development does not embed:
    the type of file metadata, the type of a change record, [stripper] of
    [@/utils/misc] and [saveFileTreeEntry] of [@/utils/compression] (a
    rejection is [inl]). *)
Class Filetree : Type := {
  IFileMeta : Type;
  EncodeObject : Type;
  stripper : string -> string;
  saveFileTreeEntry :
    string -> string -> string -> IFolderFileFrame IFileMeta ->
    IWalletHandler -> string + EncodeObject
}.

Section Folder.
Context `{FT : Filetree}.

(** The state of a [FolderHandler] is its [folderDetails]. *)
Definition FolderHandler : Type := IFolderFileFrame IFileMeta.

(** [names.includes(name)] *)
Definition includes (name : string) (names : list string) : bool :=
  existsb (String.eqb name) names.

(** [[...new Set(names)]]: the names in order of first occurrence. *)
Fixpoint setSpread_go (seen : list string) (names : list string)
    : list string :=
  match names with
  | [] => seen
  | name :: rest =>
      if includes name seen then setSpread_go seen rest
      else setSpread_go (seen ++ [name]) rest
  end.

Definition setSpread (names : list string) : list string :=
  setSpread_go [] names.

(** [Promise.all(xs.map(f))]: every result in order, or the first
    failure. *)
Fixpoint promiseAll {A B} (f : A -> Outcome B) (xs : list A)
    : Outcome (list B) :=
  match xs with
  | [] => Returned []
  | x :: rest =>
      obind (f x) (fun y =>
      obind (promiseAll f rest) (fun ys => Returned (y :: ys)))
  end.

(** folderHandler.ts:24-36 *)
Definition trackFolder (dirInfo : IFolderFileFrame IFileMeta)
    : FolderHandler := dirInfo.

Definition trackNewFolder (dirInfo : IChildDirInfo) : FolderHandler :=
  {| whoAmI := stripper (myName dirInfo);
     whereAmI := myParent dirInfo;
     whoOwnsMe := myOwner dirInfo;
     dirChildren := [];
     fileChildren := ∅ |}.

(** folderHandler.ts:38-61 *)
Definition getWhoAmI (this : FolderHandler) : string := whoAmI this.
Definition getWhereAmI (this : FolderHandler) : string := whereAmI this.
Definition getWhoOwnsMe (this : FolderHandler) : string := whoOwnsMe this.
Definition getMyPath (this : FolderHandler) : string :=
  (getWhereAmI this ++ "/" ++ getWhoAmI this)%string.
Definition getMyChildPath (this : FolderHandler) (child : string) : string :=
  (getMyPath this ++ "/" ++ child)%string.
Definition getChildDirs (this : FolderHandler) : list string :=
  dirChildren this.

(** folderHandler.ts:62-72 *)
Definition getForFiletree (walletRef : IWalletHandler) (this : FolderHandler)
    : Outcome EncodeObject :=
  if negb (traits walletRef)
  then Thrown (SignerNotEnabled "FolderHandler" "getForFiletree")
  else
    obind (getJackalAddress walletRef) (fun address =>
      match saveFileTreeEntry address (getWhereAmI this) (getWhoAmI this)
              this walletRef with
      | inr encoded => Returned encoded
      | inl err => Thrown (FiletreeRejected err)
      end).

(** folderHandler.ts:151-156 *)
Definition makeChildDirInfo (this : FolderHandler) (childName : string)
    : IChildDirInfo :=
  {| myName := stripper childName;
     myParent := (whereAmI this ++ "/" ++ whoAmI this)%string;
     myOwner := whoOwnsMe this |}.

Definition set_dirChildren (names : list string) (this : FolderHandler)
    : FolderHandler :=
  {| whoAmI := whoAmI this;
     whereAmI := whereAmI this;
     whoOwnsMe := whoOwnsMe this;
     dirChildren := names;
     fileChildren := fileChildren this |}.

Definition set_fileChildren (files : gmap string IFileMeta)
    (this : FolderHandler) : FolderHandler :=
  {| whoAmI := whoAmI this;
     whereAmI := whereAmI this;
     whoOwnsMe := whoOwnsMe this;
     dirChildren := dirChildren this;
     fileChildren := files |}.

(** folderHandler.ts:83-94: the constants [existing], [more] and
    [handlers] of [addChildDirs]. *)
Definition addChildDirs_existing (childNames : list string)
    (this : FolderHandler) : list string :=
  List.filter (fun name => includes name (dirChildren this)) childNames.

Definition addChildDirs_more (childNames : list string)
    (this : FolderHandler) : list string :=
  List.filter (fun name => negb (includes name (dirChildren this)))
    childNames.

Definition addChildDirs_handlers (childNames : list string)
    (this : FolderHandler) : list FolderHandler :=
  List.map (fun name => trackNewFolder (makeChildDirInfo this name))
    (addChildDirs_more childNames this).

(** The result of [addChildDirs]: [{ encoded, existing }]. *)
Record AddChildDirsResult : Type := {
  encoded : list EncodeObject;
  existing : list string
}.

(** folderHandler.ts:79-108 *)
Definition addChildDirs (childNames : list string)
    (walletRef : IWalletHandler) (this : FolderHandler)
    : FolderHandler * Outcome AddChildDirsResult :=
  let existing := addChildDirs_existing childNames this in
  let more := addChildDirs_more childNames this in
  let handlers := addChildDirs_handlers childNames this in
  match promiseAll (getForFiletree walletRef) handlers with
  | Returned encoded =>
      if (0 <? List.length more)%nat then
        let this' :=
          set_dirChildren (setSpread (dirChildren this ++ more)) this in
        (this',
         obind (getForFiletree walletRef this') (fun own =>
         Returned {| encoded := encoded ++ [own]; existing := existing |}))
      else (this, Returned {| encoded := encoded; existing := existing |})
  | Thrown e => (this, Thrown e)
  | OutOfFuel => (this, OutOfFuel)
  end.

(** folderHandler.ts:109-118; [{...a, ...b}] keeps the entry of [b] where
    both have one. *)
Definition addChildFileReferences (newFiles : gmap string IFileMeta)
    (walletRef : IWalletHandler) (this : FolderHandler)
    : FolderHandler * Outcome EncodeObject :=
  let this' := set_fileChildren (newFiles ∪ fileChildren this) this in
  (this', getForFiletree walletRef this').

(** folderHandler.ts:119-127 *)
Definition removeChildDirReferences (toRemove : list string)
    (walletRef : IWalletHandler) (this : FolderHandler)
    : FolderHandler * Outcome EncodeObject :=
  let this' :=
    set_dirChildren
      (List.filter (fun saved => negb (includes saved toRemove))
         (dirChildren this)) this in
  (this', getForFiletree walletRef this').

(** [for (i ...) delete files[names[i]]] *)
Definition deleteAll (names : list string) (files : gmap string IFileMeta)
    : gmap string IFileMeta :=
  fold_left (fun acc name => delete name acc) names files.

(** folderHandler.ts:128-136 *)
Definition removeChildFileReferences (toRemove : list string)
    (walletRef : IWalletHandler) (this : FolderHandler)
    : FolderHandler * Outcome EncodeObject :=
  let this' := set_fileChildren (deleteAll toRemove (fileChildren this)) this in
  (this', getForFiletree walletRef this').

(** folderHandler.ts:137-149 *)
Definition removeChildDirAndFileReferences (dirs files : list string)
    (walletRef : IWalletHandler) (this : FolderHandler)
    : FolderHandler * Outcome EncodeObject :=
  let this1 :=
    set_dirChildren
      (List.filter (fun saved => negb (includes saved dirs))
         (dirChildren this)) this in
  let this2 := set_fileChildren (deleteAll files (fileChildren this1)) this1 in
  (this2, getForFiletree walletRef this2).

End Folder.

(** ** The folder's objects in a store

    [folderDetails], its [dirChildren] array and its [fileChildren] object
    are objects: who holds a reference to one of them sees what is done to
    it afterwards. The definitions above keep the value of [folderDetails];
    these keep the three kinds of object in a store, so that a method can
    be seen to assign a new object or to change the one that is there.
    [saveFileTreeEntry] is taken to read the record it is given, as
    above. *)
Module Shared.

Definition Ref : Type := positive.

(** A [folderDetails] object: the three strings, and the references its
    [dirChildren] and [fileChildren] properties hold. *)
Record FrameObject : Type := {
  obj_whoAmI : string;
  obj_whereAmI : string;
  obj_whoOwnsMe : string;
  obj_dirChildren : Ref;
  obj_fileChildren : Ref
}.

Section Store.
Context `{FT : Filetree}.

Record Store : Type := {
  frameObjects : gmap Ref FrameObject;
  arrays : gmap Ref (list string);
  maps : gmap Ref (gmap string IFileMeta)
}.

(** A new array, a new object used as a map and a new [folderDetails]
    object: each is kept under a reference that the store does not
    have. *)
Definition newArray (names : list string) (st : Store) : Ref * Store :=
  let r := fresh (dom (arrays st)) in
  (r, {| frameObjects := frameObjects st;
         arrays := <[r := names]> (arrays st);
         maps := maps st |}).

Definition newMap (files : gmap string IFileMeta) (st : Store)
    : Ref * Store :=
  let r := fresh (dom (maps st)) in
  (r, {| frameObjects := frameObjects st;
         arrays := arrays st;
         maps := <[r := files]> (maps st) |}).

Definition newFrame (fr : FrameObject) (st : Store) : Ref * Store :=
  let r := fresh (dom (frameObjects st)) in
  (r, {| frameObjects := <[r := fr]> (frameObjects st);
         arrays := arrays st;
         maps := maps st |}).

(** [this.folderDetails.dirChildren = r] and
    [this.folderDetails.fileChildren = r] *)
Definition assign_dirChildren (this r : Ref) (st : Store) : Store :=
  {| frameObjects :=
       alter (fun fr => {| obj_whoAmI := obj_whoAmI fr;
                           obj_whereAmI := obj_whereAmI fr;
                           obj_whoOwnsMe := obj_whoOwnsMe fr;
                           obj_dirChildren := r;
                           obj_fileChildren := obj_fileChildren fr |})
         this (frameObjects st);
     arrays := arrays st;
     maps := maps st |}.

Definition assign_fileChildren (this r : Ref) (st : Store) : Store :=
  {| frameObjects :=
       alter (fun fr => {| obj_whoAmI := obj_whoAmI fr;
                           obj_whereAmI := obj_whereAmI fr;
                           obj_whoOwnsMe := obj_whoOwnsMe fr;
                           obj_dirChildren := obj_dirChildren fr;
                           obj_fileChildren := r |})
         this (frameObjects st);
     arrays := arrays st;
     maps := maps st |}.

(** [delete files[names[i]]] for every [i], on the object at [r] *)
Definition deleteIn (r : Ref) (names : list string) (st : Store) : Store :=
  {| frameObjects := frameObjects st;
     arrays := arrays st;
     maps := alter (deleteAll names) r (maps st) |}.

(** The value that a [folderDetails] object shows, given the array
    and the object its two references lead to. *)
Definition frameOfObjects (fr : FrameObject) (dirs : list string)
    (files : gmap string IFileMeta) : FolderHandler :=
  {| whoAmI := obj_whoAmI fr;
     whereAmI := obj_whereAmI fr;
     whoOwnsMe := obj_whoOwnsMe fr;
     dirChildren := dirs;
     fileChildren := files |}.

(** The value of the [folderDetails] object at [this]: [None] when a
    reference leads nowhere, which no program brings about. *)
Definition readFrame (st : Store) (this : Ref) : option FolderHandler :=
  fr ← frameObjects st !! this;
  dirs ← arrays st !! obj_dirChildren fr;
  files ← maps st !! obj_fileChildren fr;
  Some (frameOfObjects fr dirs files).

(** folderHandler.ts:24-26: the handler keeps the object it is given. *)
Definition trackFolder (dirInfo : Ref) : Ref := dirInfo.

(** folderHandler.ts:27-36 *)
Definition trackNewFolder (dirInfo : IChildDirInfo) (st : Store)
    : Ref * Store :=
  let '(a, st1) := newArray [] st in
  let '(m, st2) := newMap ∅ st1 in
  newFrame {| obj_whoAmI := stripper (myName dirInfo);
              obj_whereAmI := myParent dirInfo;
              obj_whoOwnsMe := myOwner dirInfo;
              obj_dirChildren := a;
              obj_fileChildren := m |} st2.

(** folderHandler.ts:53-61: each returns the object, not a copy. *)
Definition getFolderDetails (this : Ref) : Ref := this.

Definition getChildDirs (st : Store) (this : Ref) : option Ref :=
  obj_dirChildren <$> frameObjects st !! this.

Definition getChildFiles (st : Store) (this : Ref) : option Ref :=
  obj_fileChildren <$> frameObjects st !! this.

(** folderHandler.ts:62-72 *)
Definition getForFiletree (walletRef : IWalletHandler) (st : Store)
    (this : Ref) : option (Outcome EncodeObject) :=
  getForFiletree walletRef <$> readFrame st this.

(** folderHandler.ts:151-156 *)
Definition makeChildDirInfo (st : Store) (this : Ref) (childName : string)
    : option IChildDirInfo :=
  fr ← frameObjects st !! this;
  Some {| myName := stripper childName;
          myParent := (obj_whereAmI fr ++ "/" ++ obj_whoAmI fr)%string;
          myOwner := obj_whoOwnsMe fr |}.

(** folderHandler.ts:89-94: one new folder for each name, in order. *)
Fixpoint newChildren (this : Ref) (names : list string) (st : Store)
    : option (list Ref * Store) :=
  match names with
  | [] => Some ([], st)
  | name :: rest =>
      dirInfo ← makeChildDirInfo st this name;
      let '(handler, st1) := trackNewFolder dirInfo st in
      '(handlers, st2) ← newChildren this rest st1;
      Some (handler :: handlers, st2)
  end.

(** folderHandler.ts:79-108: [dirChildren] is assigned a new array. *)
Definition addChildDirs (childNames : list string)
    (walletRef : IWalletHandler) (st : Store) (this : Ref)
    : option (Store * Outcome AddChildDirsResult) :=
  dirsRef ← getChildDirs st this;
  dirs ← arrays st !! dirsRef;
  let existing := List.filter (fun name => includes name dirs) childNames in
  let more :=
    List.filter (fun name => negb (includes name dirs)) childNames in
  '(handlers, st1) ← newChildren this more st;
  outcomes ← mapM (getForFiletree walletRef st1) handlers;
  match promiseAll (fun outcome => outcome) outcomes with
  | Returned encoded =>
      if (0 <? List.length more)%nat then
        dirsRef ← getChildDirs st1 this;
        dirs ← arrays st1 !! dirsRef;
        let '(r, st2) := newArray (setSpread (dirs ++ more)) st1 in
        let st3 := assign_dirChildren this r st2 in
        own ← getForFiletree walletRef st3 this;
        Some (st3,
              obind own (fun own =>
              Returned {| encoded := encoded ++ [own];
                          existing := existing |}))
      else Some (st1, Returned {| encoded := encoded; existing := existing |})
  | Thrown e => Some (st1, Thrown e)
  | OutOfFuel => Some (st1, OutOfFuel)
  end.

(** folderHandler.ts:109-118: [fileChildren] is assigned a new object. *)
Definition addChildFileReferences (newFiles : gmap string IFileMeta)
    (walletRef : IWalletHandler) (st : Store) (this : Ref)
    : option (Store * Outcome EncodeObject) :=
  filesRef ← getChildFiles st this;
  files ← maps st !! filesRef;
  let '(r, st1) := newMap (newFiles ∪ files) st in
  let st2 := assign_fileChildren this r st1 in
  out ← getForFiletree walletRef st2 this;
  Some (st2, out).

(** folderHandler.ts:119-127: [dirChildren] is assigned a new array. *)
Definition removeChildDirReferences (toRemove : list string)
    (walletRef : IWalletHandler) (st : Store) (this : Ref)
    : option (Store * Outcome EncodeObject) :=
  dirsRef ← getChildDirs st this;
  dirs ← arrays st !! dirsRef;
  let '(r, st1) :=
    newArray (List.filter (fun saved => negb (includes saved toRemove)) dirs)
      st in
  let st2 := assign_dirChildren this r st1 in
  out ← getForFiletree walletRef st2 this;
  Some (st2, out).

(** folderHandler.ts:128-136: the object in [fileChildren] is changed. *)
Definition removeChildFileReferences (toRemove : list string)
    (walletRef : IWalletHandler) (st : Store) (this : Ref)
    : option (Store * Outcome EncodeObject) :=
  filesRef ← getChildFiles st this;
  let st1 := deleteIn filesRef toRemove st in
  out ← getForFiletree walletRef st1 this;
  Some (st1, out).

(** folderHandler.ts:137-149 *)
Definition removeChildDirAndFileReferences (dirs files : list string)
    (walletRef : IWalletHandler) (st : Store) (this : Ref)
    : option (Store * Outcome EncodeObject) :=
  dirsRef ← getChildDirs st this;
  saved ← arrays st !! dirsRef;
  let '(r, st1) :=
    newArray (List.filter (fun saved => negb (includes saved dirs)) saved)
      st in
  let st2 := assign_dirChildren this r st1 in
  filesRef ← getChildFiles st2 this;
  let st3 := deleteIn filesRef files st2 in
  out ← getForFiletree walletRef st3 this;
  Some (st3, out).

(** A store that has every object of another, each as it was. *)
Definition extends (st st' : Store) : Prop :=
  frameObjects st ⊆ frameObjects st'
  /\ arrays st ⊆ arrays st'
  /\ maps st ⊆ maps st'.

End Store.

End Shared.

(** ** Text encodings of buffers *)

(** [buf.toString('base64')] and [Buffer.from(s, 'base64')], which
    [cryptString] uses; the decoder never throws. *)
Class Base64 : Type := {
  base64_encode : Buffer -> string;
  base64_decode : string -> Buffer
}.

(** What is assumed of base64 where a statement needs it. *)
Class Base64Laws (B : Base64) : Prop := {
  base64_decode_encode : forall b, base64_decode (base64_encode b) = b
}.

(** [buf.toString('hex')]: two lower-case hexadecimal digits a byte. *)
Definition hex_char (n : N) : ascii :=
  match String.get (N.to_nat n) "0123456789abcdef" with
  | Some c => c
  | None => "0"%char
  end.

Definition byte_toHex (b : byte) : string :=
  String (hex_char (Byte.to_N b / 16))
    (String (hex_char (Byte.to_N b mod 16)) EmptyString).

Fixpoint Buffer_toHex (b : Buffer) : string :=
  match b with
  | [] => EmptyString
  | x :: rest => (byte_toHex x ++ Buffer_toHex rest)%string
  end.

(** The value of a hexadecimal digit, of either case. *)
Definition unhex (c : ascii) : option N :=
  let n := N_of_ascii c in
  if ((48 <=? n) && (n <=? 57))%N then Some (n - 48)%N
  else if ((97 <=? n) && (n <=? 102))%N then Some (n - 87)%N
  else if ((65 <=? n) && (n <=? 70))%N then Some (n - 55)%N
  else None.

(** [Buffer.from(s, 'hex')]: the bytes of the pairs of hexadecimal digits,
    up to the first pair that is not one; a last digit without a partner is
    dropped. Nothing is thrown. *)
Fixpoint Buffer_fromHex (s : string) : Buffer :=
  match s with
  | String a (String b rest) =>
      match unhex a, unhex b with
      | Some x, Some y =>
          match Byte.of_N (16 * x + y) with
          | Some v => v :: Buffer_fromHex rest
          | None => []
          end
      | _, _ => []
      end
  | _ => []
  end.

(** ** [cryptString] ([src/unnamed/part_000]) *)

Section AesText.
Context `{SC : SubtleCrypto} `{B64 : Base64}.

(** The error [cryptString] throws itself:
    [Error('cryptString() - Invalid Mode!')]. *)
Inductive CryptStringError : Type := InvalidMode.

(** [mode === text] *)
Definition mode_is (mode : option string) (text : string) : bool :=
  match mode with
  | Some m => String.eqb m text
  | None => false
  end.

(** part_000:214-229. [inl InvalidMode] is the last branch: the promise
    is rejected with the function's own error, and no call was made. *)
Definition cryptString (input : string) (key : CryptoKey) (iv : Buffer)
    (mode : option string) : CryptStringError + Promise string :=
  if mode_is mode "encrypt" then
    inr (await result := aesCrypt (Buffer_from input) key iv mode in
         ret (base64_encode result))
  else if mode_is mode "decrypt" then
    inr (await result := aesCrypt (base64_decode input) key iv mode in
         ret (Buffer_toString result))
  else inl InvalidMode.

End AesText.

(** ** The wallet ([src/src/classes/walletHandler.ts]) *)

(** The asymmetric primitive the wallet imports ([encrypt], [decrypt] and
    [PrivateKey] of the ECIES package); a throw is [inl]. *)
Class Ecies : Type := {
  PrivateKey : Type;
  privateKey_toHex : PrivateKey -> string;
  publicKey_toHex : PrivateKey -> string;
  ecies_encrypt : string -> Buffer -> string + Buffer;
  ecies_decrypt : string -> Buffer -> string + Buffer
}.

(** What is assumed of it where a statement needs it: what was encrypted
    for the public key of a key pair is decrypted by the private key. *)
Class EciesLaws (E : Ecies) : Prop := {
  ecies_decrypt_encrypt : forall sk msg c,
    ecies_encrypt (publicKey_toHex sk) msg = inr c ->
    ecies_decrypt (privateKey_toHex sk) c = inr msg
}.

Section Wallet.
Context `{EC : Ecies}.

(** The fields of [IWalletHandlerPrivateProperties] and
    [IWalletHandlerPublicProperties] that the embedded methods read or
    write. *)
Record WalletPrivateProperties : Type := {
  keyPair : PrivateKey;
  rnsInitComplete : bool;
  fileTreeInitComplete : bool;
  jackalAccount_address : string
}.

Record WalletPublicProperties : Type := {
  chainId : string;
  isDirect : bool
}.

(** The state of a [WalletHandler]; [None] is [null]. *)
Record WalletHandler : Type := {
  wallet_properties : option WalletPrivateProperties;
  wallet_traits : option WalletPublicProperties
}.

(** [if (!this.properties) throw new Error(signerNotEnabled('WalletHandler', fn))] *)
Definition withProperties {A} (fn : string) (this : WalletHandler)
    (k : WalletPrivateProperties -> Outcome A) : Outcome A :=
  match wallet_properties this with
  | None => Thrown (SignerNotEnabled "WalletHandler" fn)
  | Some properties => k properties
  end.

(** walletHandler.ts:132-135 *)
Definition voidFullWallet (this : WalletHandler) : WalletHandler :=
  {| wallet_properties := None; wallet_traits := None |}.

(** walletHandler.ts:141-145 *)
Definition getRnsInitStatus (this : WalletHandler) : Outcome bool :=
  withProperties "getRnsInitStatus" this (fun properties =>
    Returned (rnsInitComplete properties)).

(** walletHandler.ts:152-156 *)
Definition setRnsInitStatus (status : bool) (this : WalletHandler)
    : WalletHandler * Outcome unit :=
  match wallet_properties this with
  | None => (this, Thrown (SignerNotEnabled "WalletHandler" "setRnsInitStatus"))
  | Some properties =>
      ({| wallet_properties :=
            Some {| keyPair := keyPair properties;
                    rnsInitComplete := status;
                    fileTreeInitComplete := fileTreeInitComplete properties;
                    jackalAccount_address := jackalAccount_address properties |};
          wallet_traits := wallet_traits this |},
       Returned tt)
  end.

(** walletHandler.ts:162-166 *)
Definition getStorageInitStatus (this : WalletHandler) : Outcome bool :=
  withProperties "getStorageInitStatus" this (fun properties =>
    Returned (fileTreeInitComplete properties)).

(** walletHandler.ts:173-177 *)
Definition setStorageInitStatus (status : bool) (this : WalletHandler)
    : WalletHandler * Outcome unit :=
  match wallet_properties this with
  | None =>
      (this, Thrown (SignerNotEnabled "WalletHandler" "setStorageInitStatus"))
  | Some properties =>
      ({| wallet_properties :=
            Some {| keyPair := keyPair properties;
                    rnsInitComplete := rnsInitComplete properties;
                    fileTreeInitComplete := status;
                    jackalAccount_address := jackalAccount_address properties |};
          wallet_traits := wallet_traits this |},
       Returned tt)
  end.

(** walletHandler.ts:221-225 *)
Definition WalletHandler_getJackalAddress (this : WalletHandler)
    : Outcome string :=
  withProperties "getJackalAddress" this (fun properties =>
    Returned (jackalAccount_address properties)).

(** walletHandler.ts:268-272 *)
Definition getPubkey (this : WalletHandler) : Outcome string :=
  withProperties "getPubkey" this (fun properties =>
    Returned (publicKey_toHex (keyPair properties))).

(** walletHandler.ts:280-282; the wallet's own state is not read. *)
Definition WalletHandler_asymmetricEncrypt (this : WalletHandler)
    (toEncrypt : Buffer) (pubKey : string) : Outcome string :=
  match ecies_encrypt pubKey toEncrypt with
  | inr c => Returned (Buffer_toHex c)
  | inl err => Thrown (WalletThrew err)
  end.

(** walletHandler.ts:289-296 *)
Definition WalletHandler_asymmetricDecrypt (this : WalletHandler)
    (toDecrypt : string) : Outcome Buffer :=
  withProperties "asymmetricDecrypt" this (fun properties =>
    match ecies_decrypt (privateKey_toHex (keyPair properties))
            (Buffer_fromHex toDecrypt) with
    | inr b => Returned b
    | inl err => Thrown (WalletThrew err)
    end).

(** [class WalletHandler implements IWalletHandler] (walletHandler.ts:48):
    the wallet as the AES helpers and the folder methods take it. *)
Definition WalletHandler_interface (this : WalletHandler) : IWalletHandler :=
  {| traits := match wallet_traits this with Some _ => true | None => false end;
     getJackalAddress := WalletHandler_getJackalAddress this;
     asymmetricEncrypt := WalletHandler_asymmetricEncrypt this;
     asymmetricDecrypt := WalletHandler_asymmetricDecrypt this |}.

End Wallet.

(** ** Names of the naming service ([src/unnamed/part_004]) *)

(** [s.endsWith(suffix)] *)
Fixpoint endsWith (s suffix : string) : bool :=
  String.eqb s suffix
  || match s with
     | String _ s' => endsWith s' suffix
     | EmptyString => false
     end.

(** part_004:487-490; [/\.(jkl|ibc)$/] matches a string that ends with
    [.jkl] or with [.ibc]. *)
Definition sanitizeRns (rns : string) : string :=
  if endsWith rns ".jkl" || endsWith rns ".ibc" then rns
  else (rns ++ ".jkl")%string.

(** ** Stand-ins for the collaborators

    The statements below hold for every provider of the collaborators'
    interfaces. To run the embedded code on concrete inputs this module
    gives each interface one small implementation. *)
Module Fixture.

(** Bitwise exclusive or of two bytes. *)
Definition bxor (a b : byte) : byte :=
  match Byte.to_bits a, Byte.to_bits b with
  | (a0, (a1, (a2, (a3, (a4, (a5, (a6, a7))))))),
    (b0, (b1, (b2, (b3, (b4, (b5, (b6, b7))))))) =>
      Byte.of_bits
        (xorb a0 b0, (xorb a1 b1, (xorb a2 b2, (xorb a3 b3,
        (xorb a4 b4, (xorb a5 b5, (xorb a6 b6, xorb a7 b7)))))))
  end.

Fixpoint buffer_eqb (a b : Buffer) : bool :=
  match a, b with
  | [], [] => true
  | x :: a', y :: b' => Byte.eqb x y && buffer_eqb a' b'
  | _, _ => false
  end.

(** A key is its raw bytes; the cipher uses the first of them. *)
Definition keyByte (key : Buffer) : byte := hd x00 key.

(** The 16-byte tag: the iv masked with the key byte, filled up with the
    key byte when the iv is shorter. *)
Definition tagOf (iv : Buffer) (key : Buffer) : Buffer :=
  firstn 16 (List.map (bxor (keyByte key)) iv ++ repeat (keyByte key) 16).

Definition xor_encrypt (iv : Buffer) (key : Buffer) (data : Buffer)
    : string + Buffer :=
  inr (List.map (bxor (keyByte key)) data ++ tagOf iv key).

Definition xor_decrypt (iv : Buffer) (key : Buffer) (data : Buffer)
    : string + Buffer :=
  let n := (List.length data - 16)%nat in
  if (List.length data <? 16)%nat then inl "OperationError"
  else if buffer_eqb (skipn n data) (tagOf iv key)
  then inr (List.map (bxor (keyByte key)) (firstn n data))
  else inl "OperationError".

(** A cipher with the shape of AES-GCM: the ciphertext is the masked
    plaintext followed by a 16-byte tag, and decryption rejects a wrong
    tag. *)
Instance xorGcm : SubtleCrypto := {|
  CryptoKey := Buffer;
  subtle_encrypt := xor_encrypt;
  subtle_decrypt := xor_decrypt;
  subtle_importKey := fun raw =>
    match raw with
    | [] => inl "DataError"
    | _ => inr raw
    end;
  subtle_exportKey := fun key => inr key
|}.

(** The double quote of JSON text. *)
Definition dq : string := String (ascii_of_nat 34) "".

(** [JSON.stringify] of a metadata record whose strings need no
    escaping. *)
Definition stringifyDetails (d : FileDetails) : string :=
  ("{" ++ dq ++ "name" ++ dq ++ ":" ++ dq ++ details_name d ++ dq
   ++ "," ++ dq ++ "lastModified" ++ dq ++ ":"
   ++ Number_toString (details_lastModified d)
   ++ "," ++ dq ++ "type" ++ dq ++ ":" ++ dq ++ details_type d ++ dq
   ++ "," ++ dq ++ "size" ++ dq ++ ":" ++ Number_toString (details_size d)
   ++ "}")%string.

(** The documents the stand-in parser knows. *)
Definition notes : FileDetails :=
  {| details_name := "notes.txt";
     details_lastModified := 1700000000000;
     details_type := "text/plain";
     details_size := 5 |}.

Definition empty_file_details : FileDetails :=
  {| details_name := "empty.bin";
     details_lastModified := 1700000000000;
     details_type := "";
     details_size := 0 |}.

Definition knownDetails : list FileDetails := [notes; empty_file_details].

(** White space of JSON text: TAB, LF, CR and SPACE. *)
Definition is_json_space (c : ascii) : bool :=
  let n := char_code c in
  (n =? 9) || (n =? 10) || (n =? 13) || (n =? 32).

Fixpoint json_trimStart (s : string) : string :=
  match s with
  | String c s' => if is_json_space c then json_trimStart s' else s
  | EmptyString => EmptyString
  end.

Fixpoint json_trimEnd (s : string) : string :=
  match s with
  | String c s' =>
      match json_trimEnd s' with
      | EmptyString =>
          if is_json_space c then EmptyString else String c EmptyString
      | t => String c t
      end
  | EmptyString => EmptyString
  end.

(** [JSON.parse] on the known documents, white space around them
    allowed as JSON allows it; every other text is rejected. *)
Definition parseDetails (s : string) : string + FileDetails :=
  match List.find (fun d => String.eqb (json_trimEnd (json_trimStart s))
                              (stringifyDetails d))
          knownDetails with
  | Some d => inr d
  | None => inl "SyntaxError"
  end.

Instance tableJSON : JSON := {|
  JSON_stringify := stringifyDetails;
  JSON_parse := parseDetails
|}.

Instance tagHashing : Hashing := {|
  hashAndHex := fun s => ("sha256:" ++ s)%string
|}.

(** A signing wallet whose asymmetric primitive is the identity on
    text. *)
Definition plainWallet : IWalletHandler :=
  {| traits := true;
     getJackalAddress := Returned "jkl1alice";
     asymmetricEncrypt := fun toEncrypt _ => Returned (Buffer_toString toEncrypt);
     asymmetricDecrypt := fun toDecrypt => Returned (Buffer_from toDecrypt) |}.

(** [value.replace(/\/+/g, '')] *)
Fixpoint dropSlashes (s : string) : string :=
  match s with
  | EmptyString => EmptyString
  | String c s' =>
      if Ascii.eqb c "/" then dropSlashes s' else String c (dropSlashes s')
  end.

(** A change record that is the list of what [saveFileTreeEntry] was
    given. *)
Record SavedEntry : Type := {
  saved_address : string;
  saved_rawPath : string;
  saved_rawTarget : string;
  saved_contents : IFolderFileFrame unit
}.

Instance recordingFiletree : Filetree := {|
  IFileMeta := unit;
  EncodeObject := SavedEntry;
  stripper := dropSlashes;
  saveFileTreeEntry := fun address rawPath rawTarget contents _ =>
    inr {| saved_address := address;
           saved_rawPath := rawPath;
           saved_rawTarget := rawTarget;
           saved_contents := contents |}
|}.

End Fixture.

(** ** Notions used in the statements *)

(** The frames of an array of buffers pushed two at a time, header then
    ciphertext, and the array of a list of frames. *)
Fixpoint frames (arr : list Buffer) : list (Buffer * Buffer) :=
  match arr with
  | h :: c :: rest => (h, c) :: frames rest
  | _ => []
  end.

Fixpoint unframes (fs : list (Buffer * Buffer)) : list Buffer :=
  match fs with
  | [] => []
  | (h, c) :: rest => h :: c :: unframes rest
  end.

(** [ceil(a / b)] for a positive [b]. *)
Definition ceilDiv (a b : Z) : Z := (a + b - 1) / b.

(** The variables of the reader's loop: the position [i], [detailsBuf]
    and [bufParts]. *)
Record WalkState : Type := {
  walk_i : JSNumber;
  walk_detailsBuf : Buffer;
  walk_bufParts : list Buffer
}.

(** The numeric reading of the eight bytes at position [i], and the
    segment that a reading [segSize] selects after them. *)
Definition headerAt (source : Buffer) (i : JSNumber) : JSNumber :=
  Number (Buffer_toString (Buffer_slice source i (js_add i (Num 8)))).

Definition segmentAt (source : Buffer) (i segSize : JSNumber) : Buffer :=
  Buffer_slice source (js_add i (Num 8)) (js_add (js_add i (Num 8)) segSize).

(** A buffer that is a slice of the envelope. *)
Definition isSlice (source part : Buffer) : Prop :=
  exists s e, part = Buffer_slice source s e.

Section EnvelopeNotions.
Context `{SC : SubtleCrypto} `{JS : JSON}.

(** A header as the envelope format wants it: eight bytes, all decimal
    digits, read by [Number] as [n]. *)
Definition headerReads (h : Buffer) (n : Z) : Prop :=
  List.length h = 8%nat
  /\ string_forallb is_digit (Buffer_toString h) = true
  /\ Number (Buffer_toString h) = Num n.

(** What is known of a frame pushed by the writer: it is the header and
    the ciphertext of one plaintext buffer [p]. *)
Definition frameOf (key : CryptoKey) (iv : Buffer) (p : Buffer)
    (f : Buffer * Buffer) : Prop :=
  fst f = lengthHeader p
  /\ snd (aesCrypt p key iv (Some "encrypt")) = Returned (snd f).

(** The buffers the writer passes to [aesCrypt] for a file: the metadata
    text, and the chunk of index [k] for every [k] whose first byte lies
    within the file. *)
Definition writerPlaintext (workingFile : File) (p : Buffer) : Prop :=
  p = Buffer_from (JSON_stringify (detailsOf workingFile))
  \/ exists k : nat,
       Z.of_nat k * chunkSize < file_size workingFile
       /\ p = Blob_slice (file_content workingFile)
                (Z.of_nat k * chunkSize) (Z.of_nat k * chunkSize + chunkSize).

(** One round of the loop that ends with the next round: the position is
    inside the envelope, the header has a reading, and the cipher accepts
    the segment. *)
Inductive walkStep (source : Buffer) (key : CryptoKey) (iv : Buffer)
    : WalkState -> WalkState -> Prop :=
| walk_frame (i : JSNumber) (detailsBuf : Buffer) (bufParts : list Buffer)
    (segSize : JSNumber) (plain : Buffer) :
    js_lt i (byteLength source) = true ->
    headerAt source i = segSize ->
    snd (aesCrypt (segmentAt source i segSize) key iv (Some "decrypt"))
      = Returned plain ->
    walkStep source key iv
      {| walk_i := i;
         walk_detailsBuf := detailsBuf;
         walk_bufParts := bufParts |}
      {| walk_i := js_add (js_add i (Num 8)) segSize;
         walk_detailsBuf :=
           if js_is_zero i then segmentAt source i segSize else detailsBuf;
         walk_bufParts :=
           if js_is_zero i then bufParts
           else bufParts ++ [segmentAt source i segSize] |}.

Definition decodeFrom (fuel : nat) (source : Buffer) (key : CryptoKey)
    (iv : Buffer) (s : WalkState) : Outcome (Buffer * list Buffer) :=
  snd (decodeSegments fuel source key iv
         (walk_i s) (walk_detailsBuf s) (walk_bufParts s)).

Definition initial : WalkState :=
  {| walk_i := Num 0; walk_detailsBuf := []; walk_bufParts := [] |}.

(** What [convertFromEncryptedFile] does with the two variables when
    the loop is left. *)
Definition fileOfWalk (walked : Buffer * list Buffer) : Outcome File :=
  match JSON_parse (Buffer_toString (fst walked)) with
  | inl err => Thrown (JSONThrew err)
  | inr details =>
      Returned {| file_name := details_name details;
                  file_lastModified := details_lastModified details;
                  file_type := details_type details;
                  file_content := List.concat (snd walked) |}
  end.

(** A segment that the reader accepts in a frame: short enough for an
    eight-digit header, and accepted by the cipher. *)
Definition accepted (key : CryptoKey) (iv : Buffer) (seg : Buffer) : Prop :=
  byteLength seg < 10 ^ 8
  /\ exists plain,
       snd (aesCrypt seg key iv (Some "decrypt")) = Returned plain.

End EnvelopeNotions.

Section WrapNotions.
Context `{SC : SubtleCrypto}.

(** A text cut at its first [c]: what is before it and what is after it;
    [None] when the text has no [c]. *)
Fixpoint splitFirst (c : ascii) (s : string) : option (string * string) :=
  match s with
  | EmptyString => None
  | String a s' =>
      if Ascii.eqb a c then Some (EmptyString, s')
      else match splitFirst c s' with
           | Some (before, after) => Some (String a before, after)
           | None => None
           end
  end.

(** The unwrapping as the specification words it, to be compared with
    [stringToAes]: fail when the text has no delimiter; otherwise split on
    the first delimiter, decrypt each half with the holder's private key,
    and rebuild the key from the decrypted key bytes. *)
Definition unwrapFromSelf (wallet : IWalletHandler) (wrappedString : string)
    : Promise IAesBundle :=
  match splitFirst "|" wrappedString with
  | None => throw InvalidSourceString
  | Some (ivHalf, keyHalf) =>
      await iv := call (asymmetricDecrypt wallet ivHalf) in
      await raw := call (asymmetricDecrypt wallet keyHalf) in
      await key := importJackalKey raw in
      ret {| aes_iv := iv; aes_key := key |}
  end.

End WrapNotions.

(** A segment framed as the reader takes it: eight bytes of zero-padded
    decimal digits that give the byte length of the segment, then the
    segment. *)
Definition exactHeader (seg : Buffer) : Buffer :=
  Buffer_from (padStart 8 "0" (Number_toString (byteLength seg))).

Definition readerFrame (seg : Buffer) : Buffer := exactHeader seg ++ seg.

Section FolderNotions.
Context `{FT : Filetree}.

(** Two folder records with the same identity: name, parent path and
    owner. *)
Definition sameIdentity (a b : FolderHandler) : Prop :=
  whoAmI a = whoAmI b /\ whereAmI a = whereAmI b /\ whoOwnsMe a = whoOwnsMe b.

End FolderNotions.

(** ** Inputs of the worked examples *)

Module EncodeExamples.
Import Fixture.

Definition key : Buffer := Buffer_from "k".
Definition iv : Buffer := Buffer_from "0123456789abcdef".

Definition notesFile : File :=
  {| file_name := "notes.txt";
     file_lastModified := 1700000000000;
     file_type := "text/plain";
     file_content := Buffer_from "hello" |}.

Definition emptyFile : File :=
  {| file_name := "empty.bin";
     file_lastModified := 1700000000000;
     file_type := "";
     file_content := [] |}.

End EncodeExamples.

Module DecodeExamples.
Import Fixture.

(** Under the key byte 0x20 and the iv of sixteen zero bytes the stand-in
    cipher flips the case of letters and its tag is sixteen spaces. *)
Definition key : Buffer := Buffer_from " ".
Definition iv : Buffer := repeat x00 16.
Definition tag : string := "                ".

(** A metadata segment the reader accepts: the cipher accepts it (its last
    sixteen bytes are the tag) and [JSON.parse] accepts it (the tag is
    white space after the document). *)
Definition metaSegment : string :=
  (stringifyDetails notes ++ tag)%string.

(** The ciphertext of ["hello"]. *)
Definition bodySegment : string := ("HELLO" ++ tag)%string.

(** Two frames, each header holding the length of the segment after it,
    as the reader takes it. *)
Definition envelope : Buffer :=
  Buffer_from ("00000094" ++ metaSegment ++ "00000021" ++ bodySegment)%string.

(** The same with a third header that is not a number. *)
Definition envelope_bad_header : Buffer :=
  Buffer_from ("00000094" ++ metaSegment ++ "00000021" ++ bodySegment
               ++ "abcdefgh")%string.

(** The same with the second header declaring 99 bytes where 21 are
    left. *)
Definition envelope_long_span : Buffer :=
  Buffer_from ("00000094" ++ metaSegment ++ "00000099" ++ bodySegment)%string.

(** The same with the last byte of the second frame's tag changed. *)
Definition envelope_tampered : Buffer :=
  Buffer_from ("00000094" ++ metaSegment ++ "00000021"
               ++ "HELLO               !")%string.

(** An envelope that starts with a header that is not a number. *)
Definition envelope_bad_first : Buffer :=
  Buffer_from ("abcdefgh" ++ metaSegment)%string.

Definition decoded (content : string) : File :=
  {| file_name := "notes.txt";
     file_lastModified := 1700000000000;
     file_type := "text/plain";
     file_content := Buffer_from content |}.

End DecodeExamples.

Module FolderExamples.
Import Fixture.

Definition docs : FolderHandler (FT := recordingFiletree) :=
  {| whoAmI := "docs";
     whereAmI := "/home/alice";
     whoOwnsMe := "alice";
     dirChildren := [];
     fileChildren := ∅ |}.

Definition docs_with_reports : FolderHandler (FT := recordingFiletree) :=
  {| whoAmI := "docs";
     whereAmI := "/home/alice";
     whoOwnsMe := "alice";
     dirChildren := ["reports"];
     fileChildren := ∅ |}.

Definition reports : FolderHandler (FT := recordingFiletree) :=
  {| whoAmI := "reports";
     whereAmI := "/home/alice/docs";
     whoOwnsMe := "alice";
     dirChildren := [];
     fileChildren := ∅ |}.

(** The change record of a folder, as the recording stand-in builds it. *)
Definition recordOf (folder : FolderHandler (FT := recordingFiletree))
    : SavedEntry :=
  {| saved_address := "jkl1alice";
     saved_rawPath := whereAmI folder;
     saved_rawTarget := whoAmI folder;
     saved_contents := folder |}.

Definition resultOf (records : list SavedEntry) (names : list string)
    : AddChildDirsResult (FT := recordingFiletree) :=
  Build_AddChildDirsResult (FT := recordingFiletree) records names.

End FolderExamples.

(** A store with the folder [docs]: one child directory and one file. *)
Module SharedExamples.
Import Fixture.

Definition docsObject : Shared.FrameObject :=
  {| Shared.obj_whoAmI := "docs";
     Shared.obj_whereAmI := "/home/alice";
     Shared.obj_whoOwnsMe := "alice";
     Shared.obj_dirChildren := 1%positive;
     Shared.obj_fileChildren := 1%positive |}.

Definition store : Shared.Store (FT := recordingFiletree) :=
  {| Shared.frameObjects := {[ 1%positive := docsObject ]};
     Shared.arrays := {[ 1%positive := ["reports"] ]};
     Shared.maps := {[ 1%positive := {[ "a.txt" := tt ]} ]} |}.

(** The value that the object at reference 1 shows. *)
Definition docsValue : FolderHandler (FT := recordingFiletree) :=
  {| whoAmI := "docs";
     whereAmI := "/home/alice";
     whoOwnsMe := "alice";
     dirChildren := ["reports"];
     fileChildren := {[ "a.txt" := tt ]} |}.

End SharedExamples.

(** Stand-ins for the collaborators of [cryptString] and of the wallet. *)
Module WalletFixture.

(** Hexadecimal text in the place of base64 text. *)
Instance hexText : Base64 := {|
  base64_encode := Buffer_toHex;
  base64_decode := Buffer_fromHex
|}.

(** A key pair whose two halves are the same bytes; a message is masked
    with the first byte of the key, and a key without bytes is refused. *)
Definition mask (keyHex : string) (msg : Buffer) : string + Buffer :=
  match Buffer_fromHex keyHex with
  | [] => inl "invalid key"
  | k :: _ => inr (List.map (Fixture.bxor k) msg)
  end.

Instance maskEcies : Ecies := {|
  PrivateKey := Buffer;
  privateKey_toHex := Buffer_toHex;
  publicKey_toHex := Buffer_toHex;
  ecies_encrypt := mask;
  ecies_decrypt := mask
|}.

Definition alice : WalletHandler (EC := maskEcies) :=
  {| wallet_properties :=
       Some {| keyPair := (Buffer_from "K" : @PrivateKey maskEcies);
               rnsInitComplete := false;
               fileTreeInitComplete := true;
               jackalAccount_address := "jkl1alice" |};
     wallet_traits := Some {| chainId := "jackal-1"; isDirect := true |} |}.

(** A wallet that is not a signing one. *)
Definition queryOnly : IWalletHandler :=
  {| traits := false;
     getJackalAddress :=
       Thrown (SignerNotEnabled "WalletHandler" "getJackalAddress");
     asymmetricEncrypt := fun toEncrypt _ => Returned (Buffer_toHex toEncrypt);
     asymmetricDecrypt := fun _ =>
       Thrown (SignerNotEnabled "WalletHandler" "asymmetricDecrypt") |}.

End WalletFixture.

(** * Facts

    ** Text, numbers and slices on examples *)

Example Number_header : Number "00000025" = Num 25.
Proof. reflexivity. Qed.

Example Number_garbage :
  Number "abcdefgh" = NaN /\ Number "deadbeef" = NaN
  /\ Number "--000001" = NaN /\ Number "0x" = NaN /\ Number "1e" = NaN.
Proof. repeat split. Qed.

Example Number_radix :
  Number "0x000015" = Num 21 /\ Number "0b000101" = Num 5
  /\ Number "0o000017" = Num 15.
Proof. repeat split. Qed.

Example Number_blank : Number "        " = Num 0 /\ Number "" = Num 0.
Proof. split; reflexivity. Qed.

Example Number_decimal :
  Number "     1e3" = Num 1000
  /\ Number "0000.125" = Dbl (S754_finite false 4503599627370496 (-55))
  /\ Number "    1e21" = Dbl (S754_finite false 7629394531250000 17)
  /\ Number "Infinity" = Dbl (S754_infinity false)
  /\ Number "  1e-400" = Num 0.
Proof. vm_compute. repeat split. Qed.

(** [0.1 + 0.2] is [0.30000000000000004], and [8.5 + 0.5] is the integer
    9. *)
Example js_add_binary64 :
  js_add (Number "0.1") (Number "0.2") = Number "0.30000000000000004"
  /\ js_add (Number "0.1") (Number "0.2") <> Number "0.3"
  /\ js_add (Number "8.5") (Number "0.5") = Num 9.
Proof. vm_compute. repeat split. discriminate. Qed.

Example Buffer_toString_replaces :
  Buffer_toString [x68; xff; x69] = Buffer_toString (x68 :: replacement ++ [x69])
  /\ Buffer_toString [xe2; x82] = string_of_list_byte replacement
  /\ Buffer_toString [xe2; x82; xac] = string_of_list_byte [xe2; x82; xac]
  /\ Buffer_toString [xed; xa0; x80]
     = string_of_list_byte (replacement ++ replacement ++ replacement).
Proof. vm_compute. repeat split. Qed.

Example toString_pad : padStart 8 "0" (Number_toString 33554440) = "33554440".
Proof. vm_compute. reflexivity. Qed.

Example split_three : split "|" "a|b|c" = ["a"; "b"; "c"].
Proof. reflexivity. Qed.

Example split_trailing : split "|" "ab|" = ["ab"; ""].
Proof. reflexivity. Qed.

Example trimStart_spaces : trimStart "  12 3  " = "12 3  ".
Proof. reflexivity. Qed.

(** ** The stand-in cipher is a cipher with the shape of AES-GCM *)

Module FixtureFacts.
Import Fixture.

Lemma bxor_involutive k x : bxor k (bxor k x) = x.
Proof.
  pose proof (Byte.of_bits_to_bits x) as Hx.
  unfold bxor.
  destruct (Byte.to_bits k) as (k0 & k1 & k2 & k3 & k4 & k5 & k6 & k7).
  destruct (Byte.to_bits x)
    as (x0 & x1 & x2 & x3 & x4 & x5 & x6 & x7) eqn:Ex.
  rewrite Byte.to_bits_of_bits.
  assert (X : forall a b, xorb a (xorb a b) = b) by (intros [] []; reflexivity).
  rewrite !X. exact Hx.
Qed.

Lemma buffer_eqb_refl b : buffer_eqb b b = true.
Proof.
  induction b as [|x b IH]; simpl; [reflexivity|].
  rewrite IH, (Byte.byte_dec_lb (eq_refl x)). reflexivity.
Qed.

Lemma tagOf_length iv key : List.length (tagOf iv key) = 16%nat.
Proof.
  unfold tagOf. rewrite length_firstn, length_app, repeat_length. lia.
Qed.

Lemma xorGcm_laws : AesGcm xorGcm.
Proof.
  split; simpl; unfold xor_encrypt, xor_decrypt; intros iv key data c E;
    injection E as <-.
  - rewrite length_app, length_map, tagOf_length. reflexivity.
  - rewrite length_app, length_map, tagOf_length.
    replace (List.length data + 16 - 16)%nat with (List.length data) by lia.
    destruct (Nat.ltb_spec (List.length data + 16) 16) as [L|_]; [lia|].
    rewrite <- (length_map (bxor (keyByte key)) data).
    rewrite drop_app_length, take_app_length, buffer_eqb_refl, map_map.
    f_equal. rewrite <- (map_id data) at 2.
    apply map_ext. intros x. apply bxor_involutive.
Qed.

End FixtureFacts.

(** ** [aesCrypt] *)

Section AesCryptFacts.
Context `{SC : SubtleCrypto}.

Lemma byteLength_lt_1 (data : Buffer) :
  (byteLength data <? 1) = true <-> data = [].
Proof.
  unfold byteLength. destruct data as [|x data]; simpl; split;
    intros E; try reflexivity; try discriminate.
  apply Z.ltb_lt in E. lia.
Qed.

Lemma aesCrypt_nonempty_encrypt data key iv :
  data <> [] ->
  aesCrypt data key iv (Some "encrypt") =
    match subtle_encrypt iv key data with
    | inr res => ([SubtleCall Encrypt iv key data], Returned res)
    | inl err =>
        ([SubtleCall Encrypt iv key data;
          ConsoleError ("aesCrypt(encrypt) - " ++ err)%string],
         Thrown (SubtleRejected err))
    end.
Proof.
  intros Hne. unfold aesCrypt.
  destruct (byteLength data <? 1) eqn:L.
  - apply byteLength_lt_1 in L. contradiction.
  - simpl. destruct (subtle_encrypt iv key data); reflexivity.
Qed.

Lemma aesCrypt_nonempty_decrypt data key iv mode :
  data <> [] ->
  mode_is_encrypt mode = false ->
  aesCrypt data key iv mode =
    match subtle_decrypt iv key data with
    | inr res => ([SubtleCall Decrypt iv key data], Returned res)
    | inl err =>
        ([SubtleCall Decrypt iv key data;
          ConsoleError ("aesCrypt(decrypt) - " ++ err)%string],
         Thrown (SubtleRejected err))
    end.
Proof.
  intros Hne Hm. unfold aesCrypt.
  destruct (byteLength data <? 1) eqn:L.
  - apply byteLength_lt_1 in L. contradiction.
  - rewrite Hm. simpl. destruct (subtle_decrypt iv key data); reflexivity.
Qed.

(** [aesCrypt] ends by returning or by throwing what the cipher rejected
    with; it is never short of fuel and never outside the model. *)
Lemma aesCrypt_outcome data key iv mode :
  (exists res, snd (aesCrypt data key iv mode) = Returned res) \/
  (exists err, snd (aesCrypt data key iv mode) = Thrown (SubtleRejected err)).
Proof.
  unfold aesCrypt.
  destruct (byteLength data <? 1); [left; eexists; reflexivity|].
  destruct (mode_is_encrypt mode); simpl.
  - destruct (subtle_encrypt iv key data); [right|left]; eexists; reflexivity.
  - destruct (subtle_decrypt iv key data); [right|left]; eexists; reflexivity.
Qed.

Lemma aesCrypt_nil key iv mode : aesCrypt [] key iv mode = ret [].
Proof. reflexivity. Qed.

(** C8. On a zero-length input buffer [aesCrypt] returns a zero-length
    buffer and performs no event at all, so in particular no call of the
    cipher, whatever the key, the iv and the mode are (encrypt, decrypt,
    or anything else); and the zero-length buffer is the only input on
    which it performs no event. *)
Theorem aesCrypt_empty_input (key : CryptoKey) (iv : Buffer)
    (mode : option string) :
  aesCrypt [] key iv mode = ([], Returned [])
  /\ forall data, fst (aesCrypt data key iv mode) = [] <-> data = [].
Proof.
  split; [reflexivity|].
  intros data. split.
  - destruct data as [|x data]; [reflexivity|].
    unfold aesCrypt.
    replace (byteLength (x :: data) <? 1) with false
      by (symmetry; apply Z.ltb_ge; unfold byteLength; cbn [List.length]; lia).
    destruct (mode_is_encrypt mode); simpl.
    + destruct (subtle_encrypt iv key (x :: data)); discriminate.
    + destruct (subtle_decrypt iv key (x :: data)); discriminate.
  - intros ->. reflexivity.
Qed.

(** C10. On a non-empty buffer, a mode that does not lower-case to
    ["encrypt"] (a misspelling, any other text, or no mode at all) is not
    rejected: [aesCrypt] calls the cipher's decryption on the buffer and
    ends as that call ends. *)
Theorem aesCrypt_other_mode_decrypts (data : Buffer) (key : CryptoKey)
    (iv : Buffer) (mode : option string) :
  data <> [] ->
  (forall m, mode = Some m -> toLowerCase m <> "encrypt") ->
  aesCrypt data key iv mode = aesCrypt data key iv (Some "decrypt")
  /\ (exists rest,
        fst (aesCrypt data key iv mode)
        = SubtleCall Decrypt iv key data :: rest)
  /\ snd (aesCrypt data key iv mode)
     = match subtle_decrypt iv key data with
       | inr res => Returned res
       | inl err => Thrown (SubtleRejected err)
       end.
Proof.
  intros Hne Hmode.
  assert (Hm : mode_is_encrypt mode = false).
  { destruct mode as [m|]; simpl; [|reflexivity].
    apply String.eqb_neq. apply Hmode. reflexivity. }
  rewrite (aesCrypt_nonempty_decrypt data key iv mode Hne Hm).
  rewrite (aesCrypt_nonempty_decrypt data key iv (Some "decrypt") Hne eq_refl).
  split; [reflexivity|].
  destruct (subtle_decrypt iv key data); simpl; split;
    try reflexivity; eexists; reflexivity.
Qed.

(** C4. With AES-GCM as the cipher, and a key and iv under which the
    cipher accepts [b], encrypting [b] returns a buffer that decrypts,
    under the same key and iv, to [b] exactly. *)
Theorem aesCrypt_roundtrip {G : AesGcm SC} (b : Buffer) (key : CryptoKey)
    (iv : Buffer) :
  (forall err, subtle_encrypt iv key b <> inl err) ->
  exists c,
    snd (aesCrypt b key iv (Some "encrypt")) = Returned c
    /\ snd (aesCrypt c key iv (Some "decrypt")) = Returned b.
Proof.
  intros Hacc.
  destruct b as [|x b].
  - exists []. split; reflexivity.
  - destruct (subtle_encrypt iv key (x :: b)) as [err|c] eqn:E.
    + exfalso. exact (Hacc err eq_refl).
    + exists c. split.
      * rewrite aesCrypt_nonempty_encrypt by discriminate. rewrite E.
        reflexivity.
      * assert (Hc : c <> []).
        { intros ->. apply encrypt_length in E. simpl in E. lia. }
        rewrite (aesCrypt_nonempty_decrypt c key iv (Some "decrypt") Hc eq_refl).
        rewrite (decrypt_encrypt _ _ _ _ E). reflexivity.
Qed.

End AesCryptFacts.

(** The misspelt mode ["decrpyt"] on a 5-byte buffer, which the stand-in
    cipher rejects as a ciphertext: the call is the call in mode
    ["decrypt"], with the cipher's decryption as its first event and the
    cipher's rejection as its end. *)
Lemma aesCrypt_other_mode_decrypts_witness :
  let data := Buffer_from "hello" in
  let key : @CryptoKey Fixture.xorGcm := Buffer_from "k" in
  let iv := Buffer_from "0123456789abcdef" in
  aesCrypt (SC := Fixture.xorGcm) data key iv (Some "decrpyt")
  = aesCrypt (SC := Fixture.xorGcm) data key iv (Some "decrypt")
  /\ (exists rest,
        fst (aesCrypt (SC := Fixture.xorGcm) data key iv (Some "decrpyt"))
        = SubtleCall Decrypt iv key data :: rest)
  /\ snd (aesCrypt (SC := Fixture.xorGcm) data key iv (Some "decrpyt"))
     = Thrown (SubtleRejected "OperationError").
Proof.
  intros data key iv.
  refine (aesCrypt_other_mode_decrypts (SC := Fixture.xorGcm)
            data key iv (Some "decrpyt") _ _).
  - discriminate.
  - intros m E. injection E as <-. vm_compute. discriminate.
Defined.

(** The 5-byte buffer ["hello"] under the stand-in cipher. *)
Lemma aesCrypt_roundtrip_witness :
  let b := Buffer_from "hello" in
  let key := Buffer_from "k" in
  let iv := Buffer_from "0123456789abcdef" in
  exists c,
    snd (aesCrypt (SC := Fixture.xorGcm) b key iv (Some "encrypt")) = Returned c
    /\ snd (aesCrypt (SC := Fixture.xorGcm) c key iv (Some "decrypt")) = Returned b.
Proof.
  intros b key iv.
  apply (aesCrypt_roundtrip (SC := Fixture.xorGcm) (G := FixtureFacts.xorGcm_laws)
           b key iv).
  intros err. discriminate.
Defined.

(** ** Decimal text *)

Section DecimalFacts.

Lemma char_code_digit_char d :
  0 <= d < 10 -> char_code (digit_char d) = 48 + d.
Proof.
  intros H.
  assert (C : d = 0 \/ d = 1 \/ d = 2 \/ d = 3 \/ d = 4 \/ d = 5 \/ d = 6
              \/ d = 7 \/ d = 8 \/ d = 9) by lia.
  repeat (destruct C as [-> | C]; [reflexivity|]). subst d. reflexivity.
Qed.

Lemma is_digit_digit_char d : 0 <= d < 10 -> is_digit (digit_char d) = true.
Proof.
  intros H. unfold is_digit. rewrite (char_code_digit_char d H).
  apply andb_true_intro. split; apply Z.leb_le; lia.
Qed.

Lemma strlen_app s t : strlen (s ++ t)%string = (strlen s + strlen t)%nat.
Proof. induction s as [|c s IH]; simpl; [reflexivity|]. unfold strlen in *. simpl. rewrite IH. reflexivity. Qed.

Lemma string_app_assoc s t u : ((s ++ t) ++ u = s ++ (t ++ u))%string.
Proof. induction s as [|c s IH]; simpl; [reflexivity|]. f_equal. exact IH. Qed.

Lemma string_forallb_app p s t :
  string_forallb p (s ++ t)%string = string_forallb p s && string_forallb p t.
Proof.
  induction s as [|c s IH]; simpl; [reflexivity|].
  rewrite IH. apply andb_assoc.
Qed.

Lemma digits_value_go_app v s t :
  digits_value_go v (s ++ t)%string = digits_value_go (digits_value_go v s) t.
Proof. revert v. induction s as [|c s IH]; intros v; simpl; [reflexivity|]. apply IH. Qed.

(** The accumulator of [toString_go] is a suffix of its result. *)
Lemma toString_go_acc fuel : forall n acc,
  toString_go fuel n acc = (toString_go fuel n "" ++ acc)%string.
Proof.
  induction fuel as [|fuel IH]; intros n acc; simpl; [reflexivity|].
  destruct (n / 10 =? 0); [reflexivity|].
  rewrite (IH (n / 10) (String _ acc)), (IH (n / 10) (String _ "")).
  rewrite string_app_assoc. reflexivity.
Qed.

Lemma toString_go_digits fuel : forall n,
  string_forallb is_digit (toString_go fuel n "") = true.
Proof.
  induction fuel as [|fuel IH]; intros n; simpl; [reflexivity|].
  assert (D : is_digit (digit_char (n mod 10)) = true).
  { apply is_digit_digit_char. apply Z.mod_pos_bound. lia. }
  destruct (n / 10 =? 0); simpl.
  - rewrite D. reflexivity.
  - rewrite toString_go_acc, string_forallb_app, IH. simpl. rewrite D.
    reflexivity.
Qed.

Lemma toString_go_value fuel : forall n,
  0 <= n < 2 ^ Z.of_nat fuel ->
  digits_value (toString_go fuel n "") = n.
Proof.
  unfold digits_value.
  induction fuel as [|fuel IH]; intros n Hn.
  - simpl in *. lia.
  - cbn [toString_go].
    assert (M : 0 <= n mod 10 < 10) by (apply Z.mod_pos_bound; lia).
    destruct (n / 10 =? 0) eqn:Q.
    + apply Z.eqb_eq in Q. simpl. rewrite (char_code_digit_char _ M).
      pose proof (Z.div_mod n 10). lia.
    + apply Z.eqb_neq in Q.
      rewrite toString_go_acc, digits_value_go_app, IH.
      * simpl. rewrite (char_code_digit_char _ M).
        pose proof (Z.div_mod n 10). lia.
      * rewrite Nat2Z.inj_succ, Z.pow_succ_r in Hn by lia.
        split; [apply Z.div_pos; lia|].
        apply Z.div_lt_upper_bound; lia.
Qed.

Lemma toString_go_length fuel : forall n k,
  0 <= n < 10 ^ k -> 1 <= k ->
  (Z.of_nat (strlen (toString_go fuel n "")) <= k).
Proof.
  induction fuel as [|fuel IH]; intros n k Hn Hk.
  - simpl. lia.
  - cbn [toString_go].
    destruct (n / 10 =? 0) eqn:Q.
    + simpl. lia.
    + apply Z.eqb_neq in Q.
      rewrite toString_go_acc, strlen_app. simpl.
      assert (K : 2 <= k).
      { destruct (Z.eq_dec k 1) as [->|]; [|lia].
        exfalso. apply Q. apply Z.div_small. lia. }
      assert (IHk := IH (n / 10) (k - 1)).
      replace k with (Z.succ (k - 1)) in Hn by lia.
      rewrite Z.pow_succ_r in Hn by lia.
      assert (0 <= n / 10 < 10 ^ (k - 1)).
      { split; [apply Z.div_pos; lia|].
        apply Z.div_lt_upper_bound; lia. }
      lia.
Qed.

Lemma Number_toString_nonneg n :
  0 <= n ->
  string_forallb is_digit (Number_toString n) = true
  /\ digits_value (Number_toString n) = n
  /\ (forall k, n < 10 ^ k -> 1 <= k ->
      Z.of_nat (strlen (Number_toString n)) <= k).
Proof.
  intros Hn. unfold Number_toString.
  destruct (Z.ltb_spec n 0) as [L|_]; [lia|].
  split; [apply toString_go_digits|]. split.
  - apply toString_go_value. split; [lia|].
    rewrite Nat2Z.inj_succ, Z2Nat.id by apply Z.log2_nonneg.
    destruct (Z.eq_dec n 0) as [->|Hz]; [reflexivity|].
    apply Z.log2_spec. lia.
  - intros k Hk K. apply toString_go_length; lia.
Qed.

Lemma string_repeat_length c n : strlen (string_repeat c n) = n.
Proof. induction n as [|n IH]; simpl; [reflexivity|]. unfold strlen in *. simpl. rewrite IH. reflexivity. Qed.

Lemma string_repeat_digits n : string_forallb is_digit (string_repeat "0" n) = true.
Proof. induction n as [|n IH]; simpl; [reflexivity|]. exact IH. Qed.

Lemma string_repeat_value n : digits_value_go 0 (string_repeat "0" n) = 0.
Proof. induction n as [|n IH]; simpl; [reflexivity|]. exact IH. Qed.

Lemma is_digit_cases c :
  is_digit c = true ->
  In c ["0"; "1"; "2"; "3"; "4"; "5"; "6"; "7"; "8"; "9"]%char.
Proof.
  destruct c as [[] [] [] [] [] [] [] []]; intros H; try discriminate H;
    cbn; tauto.
Qed.

(** What holds of every decimal digit holds of a character that
    [is_digit] accepts. *)
Ltac by_digit c H :=
  let D := fresh "D" in
  pose proof (is_digit_cases c H) as D; cbn [In] in D;
  repeat (destruct D as [<-|D]; [|]); [..|contradiction].

Lemma space_prefix_digit c s : is_digit c = true -> space_prefix (String c s) = None.
Proof.
  intros H. destruct s as [|c1 [|c2 s3]]; by_digit c H; reflexivity.
Qed.

Lemma trimStart_digits s : string_forallb is_digit s = true -> trimStart s = s.
Proof.
  destruct s as [|c s]; [reflexivity|].
  intros H. apply andb_prop in H. destruct H as [D _].
  unfold trimStart. cbn [strlen String.length trimStart_go].
  rewrite (space_prefix_digit c s D). reflexivity.
Qed.

Lemma span_digits s :
  string_forallb is_digit s = true -> span is_digit s = (s, EmptyString).
Proof.
  induction s as [|c s IH]; [reflexivity|].
  cbn [string_forallb span]. intros H. apply andb_prop in H.
  destruct H as [D Hs]. rewrite D, (IH Hs). reflexivity.
Qed.

Lemma string_app_nil s : (s ++ "")%string = s.
Proof. induction s as [|c s IH]; simpl; [reflexivity|]. rewrite IH. reflexivity. Qed.

Lemma non_decimal_digits s :
  string_forallb is_digit s = true -> non_decimal s = None.
Proof.
  destruct s as [|a [|c s]]; [reflexivity| |].
  - cbn [string_forallb]. intros H. apply andb_prop in H. destruct H as [Da _].
    by_digit a Da; reflexivity.
  - cbn [string_forallb]. intros H. apply andb_prop in H. destruct H as [Da H].
    apply andb_prop in H. destruct H as [Dc _].
    by_digit a Da; try reflexivity. by_digit c Dc; reflexivity.
Qed.

Lemma digits_value_go_nonneg s : forall v,
  string_forallb is_digit s = true -> 0 <= v -> 0 <= digits_value_go v s.
Proof.
  induction s as [|c s IH]; intros v H Hv; [exact Hv|].
  cbn [string_forallb] in H. apply andb_prop in H. destruct H as [D Hs].
  cbn [digits_value_go]. apply (IH _ Hs).
  unfold is_digit in D. apply andb_prop in D. destruct D as [D1 _].
  apply Z.leb_le in D1. lia.
Qed.

(** [Number] reads a string of decimal digits as its value, when that
    lies within the integers that binary64 has exactly. *)
Lemma Number_digits s :
  string_forallb is_digit s = true -> digits_value s <= 2 ^ 53 ->
  Number s = Num (digits_value s).
Proof.
  intros H Hle. unfold Number. rewrite (trimStart_digits s H).
  destruct s as [|c s]; [reflexivity|].
  unfold numeric_literal. rewrite (non_decimal_digits _ H).
  pose proof (digits_value_go_nonneg _ 0 H ltac:(lia)) as Hpos.
  fold (digits_value (String c s)) in Hpos.
  assert (E : signed_decimal false (String c s)
              = Some (Num (digits_value (String c s)), EmptyString)).
  { unfold signed_decimal, unsigned_decimal.
    rewrite (span_digits _ H), string_app_nil.
    cbn [exponent_part strlen String.length Z.of_nat].
    replace (strip_prefix "Infinity" (String c s)) with (@None string).
    2:{ cbn [string_forallb] in H. apply andb_prop in H. destruct H as [D _].
        by_digit c D; reflexivity. }
    rewrite Z.sub_0_r. f_equal. f_equal.
    unfold js_of_decimal.
    destruct (Z.eqb_spec (digits_value (String c s)) 0) as [->|Hnz];
      [reflexivity|].
    change (400 <? 0) with false. cbn iota.
    pose proof (Z.log2_nonneg (digits_value (String c s))).
    destruct (Z.ltb_spec (Z.log2 (digits_value (String c s)) + 1 + 3 * 0)
                (-1075)); [lia|].
    change (0 <=? 0) with true. cbn iota.
    rewrite Z.pow_0_r, Z.mul_1_r. unfold js_of_Z.
    rewrite Z.abs_eq by exact Hpos.
    destruct (Z.leb_spec (digits_value (String c s)) (2 ^ 53)); [reflexivity|lia]. }
  cbn [string_forallb] in H. apply andb_prop in H. destruct H as [D _].
  assert (M : match String c s with
              | String "+" r => signed_decimal false r
              | String "-" r => signed_decimal true r
              | _ => signed_decimal false (String c s)
              end = signed_decimal false (String c s))
    by (by_digit c D; reflexivity).
  rewrite M, E. reflexivity.
Qed.

(** The header text of a length below [10^8]: eight characters, all of
    them decimal digits, read back by [Number] as the length. *)
Lemma padStart_header n :
  0 <= n ->
  let h := padStart 8 "0" (Number_toString n) in
  string_forallb is_digit h = true
  /\ (n <= 2 ^ 53 -> Number h = Num n)
  /\ (n < 10 ^ 8 -> strlen h = 8%nat).
Proof.
  intros Hn h.
  destruct (Number_toString_nonneg n Hn) as (D & V & L).
  assert (Dh : string_forallb is_digit h = true).
  { unfold h, padStart. rewrite string_forallb_app, string_repeat_digits, D.
    reflexivity. }
  assert (Vh : digits_value h = n).
  { unfold h, padStart, digits_value.
    rewrite digits_value_go_app, string_repeat_value.
    fold (digits_value (Number_toString n)). exact V. }
  split; [exact Dh|]. split.
  - intros Hle. rewrite (Number_digits h Dh) by (rewrite Vh; exact Hle).
    rewrite Vh. reflexivity.
  - intros Hlt. unfold h, padStart.
    rewrite strlen_app, string_repeat_length.
    specialize (L 8 Hlt ltac:(lia)). lia.
Qed.

Lemma byte_code_of_ascii c : byte_code (byte_of_ascii c) = char_code c.
Proof. destruct c as [[] [] [] [] [] [] [] []]; reflexivity. Qed.

Lemma replace_surrogates_cons b0 tl :
  replace_surrogates (b0 :: tl)
  = match tl with
    | b1 :: b2 :: rest =>
        if is_surrogate b0 b1 b2
        then replacement ++ replace_surrogates rest
        else b0 :: replace_surrogates tl
    | _ => b0 :: replace_surrogates tl
    end.
Proof. reflexivity. Qed.

Lemma replace_surrogates_length : forall n bs,
  (List.length bs <= n)%nat ->
  List.length (replace_surrogates bs) = List.length bs.
Proof.
  induction n as [|n IH]; intros bs Hn.
  - destruct bs; [reflexivity|]. cbn [List.length] in Hn. lia.
  - destruct bs as [|b0 tl]; [reflexivity|].
    rewrite replace_surrogates_cons. cbn [List.length] in Hn.
    destruct tl as [|b1 [|b2 rest]].
    + reflexivity.
    + reflexivity.
    + destruct (is_surrogate b0 b1 b2).
      * cbn [List.length] in *. rewrite length_app, IH by lia. reflexivity.
      * cbn [List.length] in *. f_equal.
        rewrite (IH (b1 :: b2 :: rest)) by (cbn [List.length]; lia).
        reflexivity.
Qed.

Lemma Buffer_from_length s : List.length (Buffer_from s) = strlen s.
Proof.
  unfold Buffer_from. rewrite (replace_surrogates_length _ _ (le_n _)).
  unfold list_byte_of_string, strlen.
  rewrite length_map. induction s as [|c s IH]; simpl; [reflexivity|].
  rewrite IH. reflexivity.
Qed.

(** A text within ASCII is encoded as it is. *)
Lemma Buffer_from_ascii s :
  string_forallb is_ascii s = true -> Buffer_from s = list_byte_of_string s.
Proof.
  unfold Buffer_from. induction s as [|c s IH]; [reflexivity|].
  cbn [string_forallb]. intros H. apply andb_prop in H. destruct H as [A Hs].
  change (list_byte_of_string (String c s))
    with (byte_of_ascii c :: list_byte_of_string s).
  rewrite replace_surrogates_cons.
  assert (Hno : forall b1 b2, is_surrogate (byte_of_ascii c) b1 b2 = false).
  { intros b1 b2. unfold is_surrogate, is_ascii in *.
    rewrite byte_code_of_ascii. apply Z.leb_le in A.
    destruct (Z.eqb_spec (char_code c) 237); [lia|reflexivity]. }
  specialize (IH Hs).
  destruct (list_byte_of_string s) as [|b1 [|b2 rest]];
    rewrite ?Hno, IH; reflexivity.
Qed.

(** The bytes of a text within ASCII are decoded to the text. *)
Lemma Buffer_toString_from s :
  string_forallb is_ascii s = true -> Buffer_toString (Buffer_from s) = s.
Proof.
  intros Hall. rewrite (Buffer_from_ascii s Hall). revert Hall.
  unfold Buffer_toString.
  induction s as [|c s IH]; [reflexivity|].
  cbn [string_forallb]. intros H. apply andb_prop in H. destruct H as [A Hs].
  change (list_byte_of_string (String c s))
    with (byte_of_ascii c :: list_byte_of_string s).
  cbn [utf8_decode]. unfold utf8_step. cbn [utf8_start utf8_needed].
  unfold utf8_lead. rewrite byte_code_of_ascii. unfold is_ascii in A. rewrite A.
  cbn [fst snd app]. 
  change (string_of_list_byte (byte_of_ascii c :: ?l))
    with (String (ascii_of_byte (byte_of_ascii c)) (string_of_list_byte l)).
  rewrite ascii_of_byte_of_ascii, (IH Hs). reflexivity.
Qed.

(** The decoder gives back the bytes of a sequence under way and the
    bytes that follow, when these are UTF-8. *)
Lemma utf8_decode_valid : forall bs st,
  utf8_valid st bs = true ->
  utf8_decode st bs
  = match utf8_needed st with
    | O => []
    | S _ => utf8_seen st
    end ++ bs.
Proof.
  induction bs as [|b bs IH]; intros st H.
  - cbn [utf8_valid] in H. cbn [utf8_decode].
    destruct (utf8_needed st); [reflexivity|discriminate].
  - cbn [utf8_valid] in H. apply andb_prop in H. destruct H as [Hc Hv].
    cbn [utf8_decode]. rewrite (IH _ Hv). clear IH Hv.
    unfold utf8_continues in Hc. unfold utf8_step.
    destruct (utf8_needed st) as [|[|k]].
    + unfold utf8_lead.
      destruct (Z.leb_spec (byte_code b) 127); [reflexivity|].
      cbn [orb] in Hc. apply andb_prop in Hc. destruct Hc as [H1 H2].
      rewrite H1. cbn [andb].
      destruct (Z.leb_spec (byte_code b) 223); [reflexivity|].
      apply Z.leb_le in H1. apply Z.leb_le in H2.
      destruct (Z.leb_spec 224 (byte_code b)); [|lia]. cbn [andb].
      destruct (Z.leb_spec (byte_code b) 239); [reflexivity|].
      destruct (Z.leb_spec 240 (byte_code b)); [|lia]. cbn [andb].
      rewrite (proj2 (Z.leb_le _ _) H2). reflexivity.
    + rewrite Hc. cbn [fst snd utf8_start utf8_needed].
      rewrite <- app_assoc. reflexivity.
    + rewrite Hc. cbn [fst snd utf8_needed utf8_seen].
      rewrite <- app_assoc. reflexivity.
Qed.

(** The bounds of a sequence under way are those of a continuation
    byte, or narrower. *)
Lemma utf8_step_upper st b : utf8_upper (snd (utf8_step st b)) <= 191.
Proof.
  assert (L : utf8_upper (snd (utf8_lead b)) <= 191).
  { unfold utf8_lead.
    repeat match goal with
           | |- context [if ?c then _ else _] => destruct c
           end; cbn; lia. }
  unfold utf8_step. destruct (utf8_needed st) as [|[|k]]; [exact L| |];
    destruct (_ && _); cbn [snd utf8_upper utf8_start]; try lia; exact L.
Qed.

(** Bytes that are UTF-8 hold no surrogate. *)
Lemma replace_surrogates_valid : forall bs st,
  utf8_upper st <= 191 ->
  utf8_valid st bs = true -> replace_surrogates bs = bs.
Proof.
  induction bs as [|b0 tl IH]; intros st Hup H; [reflexivity|].
  cbn [utf8_valid] in H. apply andb_prop in H. destruct H as [Hc Hv].
  rewrite replace_surrogates_cons.
  pose proof (IH _ (utf8_step_upper st b0) Hv) as Htl.
  destruct tl as [|b1 [|b2 rest]]; [reflexivity|rewrite Htl; reflexivity|].
  destruct (is_surrogate b0 b1 b2) eqn:S; [|rewrite Htl; reflexivity].
  exfalso. unfold is_surrogate in S.
  repeat (apply andb_prop in S; destruct S as [S ?]).
  apply Z.eqb_eq in S.
  cbn [utf8_valid] in Hv. apply andb_prop in Hv. destruct Hv as [Hc1 _].
  unfold utf8_continues in Hc. unfold utf8_step in Hc1.
  destruct (utf8_needed st) as [|k].
  - unfold utf8_lead in Hc1. rewrite S in Hc1. cbn in Hc1.
    apply andb_prop in Hc1. destruct Hc1 as [_ Hc1].
    apply Z.leb_le in Hc1.
    match goal with H : (160 <=? byte_code b1) = true |- _ =>
      apply Z.leb_le in H; lia end.
  - apply andb_prop in Hc. destruct Hc as [_ Hc]. apply Z.leb_le in Hc. lia.
Qed.

(** The bytes of a well-formed text are decoded to the text. *)
Lemma Buffer_toString_from_wellFormed s :
  isWellFormed s = true -> Buffer_toString (Buffer_from s) = s.
Proof.
  unfold isWellFormed, Buffer_toString, Buffer_from. intros H.
  rewrite (replace_surrogates_valid _ utf8_start ltac:(cbn; lia) H).
  rewrite (utf8_decode_valid _ _ H). cbn [utf8_start utf8_needed app].
  apply string_of_list_byte_of_string.
Qed.

Lemma digits_ascii s :
  string_forallb is_digit s = true -> string_forallb is_ascii s = true.
Proof.
  induction s as [|c s IH]; [reflexivity|].
  cbn [string_forallb]. intros H. apply andb_prop in H. destruct H as [D Hs].
  rewrite (IH Hs), andb_true_r.
  unfold is_digit in D. apply andb_prop in D. destruct D as [_ D2].
  apply Z.leb_le in D2. apply Z.leb_le. lia.
Qed.

End DecimalFacts.

(** ** The envelope writer *)

Section EncodeFacts.
Context `{SC : SubtleCrypto} `{JS : JSON} `{HH : Hashing}.

Lemma snd_bind {A B} (m : Promise A) (k : A -> Promise B) :
  snd (bind m k) = obind (snd m) (fun a => snd (k a)).
Proof.
  destruct m as [t [a|e|]]; simpl; try reflexivity.
  destruct (k a); reflexivity.
Qed.

Lemma frames_unframes fs : frames (unframes fs) = fs.
Proof.
  induction fs as [|[h c] fs IH]; simpl; [reflexivity|]. rewrite IH.
  reflexivity.
Qed.

Lemma unframes_app fs gs : unframes (fs ++ gs) = unframes fs ++ unframes gs.
Proof.
  induction fs as [|[h c] fs IH]; simpl; [reflexivity|]. rewrite IH.
  reflexivity.
Qed.

Lemma chunkSize_value : chunkSize = 33554432.
Proof. reflexivity. Qed.

Lemma adjustOffset_range o len :
  0 <= len -> 0 <= adjustOffset o len <= len.
Proof.
  intros Hlen.
  destruct o as [|o|[s|[]| |s m e]]; cbn [adjustOffset]; try lia.
  - destruct (Z.ltb_spec o 0); [lia|].
    destruct (Z.ltb_spec o len); lia.
  - cbv zeta. destruct (Z.ltb_spec (binary64_trunc s m e) 0); [lia|].
    destruct (Z.ltb_spec (binary64_trunc s m e) len); lia.
Qed.

Lemma byteLength_nonneg (b : Buffer) : 0 <= byteLength b.
Proof. unfold byteLength. lia. Qed.

(** A slice is as long as its adjusted bounds say. *)
Lemma Buffer_slice_length b s e :
  byteLength (Buffer_slice b s e) =
    Z.max 0 (adjustOffset e (byteLength b) - adjustOffset s (byteLength b)).
Proof.
  unfold Buffer_slice.
  pose proof (adjustOffset_range s _ (byteLength_nonneg b)) as Hs.
  pose proof (adjustOffset_range e _ (byteLength_nonneg b)) as He.
  set (x := adjustOffset s (byteLength b)) in *.
  set (y := adjustOffset e (byteLength b)) in *.
  unfold byteLength in *. rewrite length_firstn, length_skipn.
  destruct (Z.ltb_spec x y); lia.
Qed.

(** A chunk cut by the loop is not empty and not longer than
    [chunkSize]. *)
Lemma chunk_length content i :
  0 <= i < byteLength content ->
  0 < byteLength (Blob_slice content i (i + chunkSize)) <= chunkSize.
Proof.
  intros Hi. unfold Blob_slice. rewrite Buffer_slice_length.
  rewrite chunkSize_value. simpl.
  destruct (Z.ltb_spec i 0); [lia|].
  destruct (Z.ltb_spec i (byteLength content)); [|lia].
  destruct (Z.ltb_spec (i + 33554432) 0); [lia|].
  destruct (Z.ltb_spec (i + 33554432) (byteLength content)); lia.
Qed.

(** [ceilDiv a b] is the least number of blocks of [b] that cover [a]. *)
Lemma ceilDiv_is_ceiling a b :
  0 < b -> (ceilDiv a b - 1) * b < a <= ceilDiv a b * b.
Proof.
  intros Hb. unfold ceilDiv.
  pose proof (Z.div_mod (a + b - 1) b ltac:(lia)) as D.
  pose proof (Z.mod_pos_bound (a + b - 1) b Hb) as M.
  nia.
Qed.

Lemma ceilDiv_step a b : 0 < b -> ceilDiv (a - b) b = ceilDiv a b - 1.
Proof.
  intros Hb. unfold ceilDiv.
  replace (a - b + b - 1) with (a + b - 1 + (-1) * b) by lia.
  rewrite Z.div_add by lia. lia.
Qed.

Lemma ceilDiv_pos a b : 0 < b -> 0 < a -> 1 <= ceilDiv a b.
Proof.
  intros Hb Ha. unfold ceilDiv.
  apply Z.div_le_lower_bound; lia.
Qed.

Lemma ceilDiv_nonpos a b : 0 < b -> a <= 0 -> ceilDiv a b <= 0.
Proof.
  intros Hb Ha. unfold ceilDiv.
  assert ((a + b - 1) / b < 1); [|lia].
  apply Z.div_lt_upper_bound; lia.
Qed.

End EncodeFacts.

Section EncodeTheorems.
Context `{SC : SubtleCrypto} `{JS : JSON} `{HH : Hashing}.

Lemma lengthHeader_reads (p : Buffer) :
  byteLength p + 8 < 10 ^ 8 -> headerReads (lengthHeader p) (byteLength p + 8).
Proof.
  intros Hlt. unfold headerReads, lengthHeader.
  pose proof (byteLength_nonneg p) as Hp.
  destruct (padStart_header (byteLength p + 8) ltac:(lia)) as (D & N & L).
  rewrite Buffer_from_length, Buffer_toString_from
    by exact (digits_ascii _ D).
  split; [exact (L Hlt)|]. split; [exact D|apply N; lia].
Qed.

(** With AES-GCM as the cipher, the ciphertext of a non-empty plaintext
    is 16 bytes longer than the plaintext, so the value written in a
    header is the ciphertext's length minus 8. *)
Lemma aesCrypt_encrypt_length {G : AesGcm SC} (p c : Buffer)
    (key : CryptoKey) (iv : Buffer) :
  p <> [] ->
  snd (aesCrypt p key iv (Some "encrypt")) = Returned c ->
  byteLength p + 8 = byteLength c - 8.
Proof.
  intros Hp. rewrite aesCrypt_nonempty_encrypt by exact Hp.
  destruct (subtle_encrypt iv key p) as [err|c'] eqn:E; simpl;
    intros H; [discriminate|].
  injection H as <-. apply encrypt_length in E. unfold byteLength. lia.
Qed.

End EncodeTheorems.


(** ** The envelope reader *)

Section DecodeFacts.
Context `{SC : SubtleCrypto} `{JS : JSON}.

Lemma convertFromEncryptedFile_outcome fuel source key iv :
  snd (convertFromEncryptedFile fuel source key iv)
  = obind (decodeFrom fuel source key iv initial) fileOfWalk.
Proof.
  unfold convertFromEncryptedFile, decodeFrom, initial. simpl.
  rewrite snd_bind.
  destruct (snd (decodeSegments fuel source key iv (Num 0) [] []))
    as [w|e|]; simpl; try reflexivity.
  unfold fileOfWalk.
  destruct (JSON_parse (Buffer_toString (fst w))); reflexivity.
Qed.

Lemma decodeFrom_step source key iv s s' fuel :
  walkStep source key iv s s' ->
  decodeFrom (S fuel) source key iv s = decodeFrom fuel source key iv s'.
Proof.
  intros [i d ps segSize plain Hlt Hh Hd].
  unfold decodeFrom. cbn [walk_i walk_detailsBuf walk_bufParts decodeSegments].
  rewrite Hlt. cbv zeta. unfold headerAt in Hh. rewrite Hh.
  rewrite snd_bind. unfold segmentAt in Hd. rewrite Hd. simpl.
  destruct (js_is_zero i); reflexivity.
Qed.

(** [walk_frame], to a state that is given. *)
Lemma walkStep_frame source key iv i d ps segSize plain s' :
  js_lt i (byteLength source) = true ->
  headerAt source i = segSize ->
  snd (aesCrypt (segmentAt source i segSize) key iv (Some "decrypt"))
  = Returned plain ->
  s' = {| walk_i := js_add (js_add i (Num 8)) segSize;
          walk_detailsBuf :=
            if js_is_zero i then segmentAt source i segSize else d;
          walk_bufParts :=
            if js_is_zero i then ps else ps ++ [segmentAt source i segSize] |} ->
  walkStep source key iv
    {| walk_i := i; walk_detailsBuf := d; walk_bufParts := ps |} s'.
Proof. intros Hlt Hh Hd ->. exact (walk_frame _ _ _ i d ps segSize plain Hlt Hh Hd). Qed.

Lemma decodeFrom_steps source key iv n : forall s s' fuel,
  nsteps (walkStep source key iv) n s s' ->
  decodeFrom (n + fuel) source key iv s = decodeFrom fuel source key iv s'.
Proof.
  induction n as [|n IH]; intros s s' fuel H.
  - inversion H; subst. reflexivity.
  - inversion H as [|? ? s1 ? Hstep Hrest]; subst.
    cbn [Nat.add]. rewrite (decodeFrom_step _ _ _ _ _ _ Hstep).
    apply IH. exact Hrest.
Qed.

(** A round in which the cipher rejects the segment ends the walk with
    the rejection. *)
Lemma decodeFrom_rejected source key iv s segSize err fuel :
  js_lt (walk_i s) (byteLength source) = true ->
  headerAt source (walk_i s) = segSize ->
  segmentAt source (walk_i s) segSize <> [] ->
  subtle_decrypt iv key (segmentAt source (walk_i s) segSize) = inl err ->
  decodeFrom (S fuel) source key iv s = Thrown (SubtleRejected err).
Proof.
  intros Hlt Hh Hne Hd. unfold decodeFrom. cbn [decodeSegments].
  rewrite Hlt. cbv zeta. unfold headerAt in Hh. rewrite Hh. rewrite snd_bind.
  unfold segmentAt in *.
  rewrite (aesCrypt_nonempty_decrypt _ key iv (Some "decrypt") Hne eq_refl).
  rewrite Hd. reflexivity.
Qed.

(** Whatever the cipher returns, the two variables only ever hold
    slices of the envelope. *)
Lemma decodeSegments_slices source key iv : forall fuel i d ps d' ps',
  (d = [] \/ isSlice source d) ->
  Forall (isSlice source) ps ->
  snd (decodeSegments fuel source key iv i d ps) = Returned (d', ps') ->
  (d' = [] \/ isSlice source d') /\ Forall (isSlice source) ps'.
Proof.
  induction fuel as [|fuel IH]; intros i d ps d' ps' Hd Hps; [discriminate|].
  cbn [decodeSegments].
  destruct (js_lt i (byteLength source)).
  - cbv zeta. set (segSize := Number _). rewrite snd_bind.
    destruct (snd (aesCrypt _ key iv (Some "decrypt"))); simpl;
      try discriminate.
    assert (Hseg : isSlice source
              (Buffer_slice source (js_add i (Num 8))
                 (js_add (js_add i (Num 8)) segSize)))
      by (eexists; eexists; reflexivity).
    destruct (js_is_zero i); apply IH; auto.
    apply Forall_app. split; [exact Hps|]. constructor; [exact Hseg|constructor].
  - simpl. intros E. injection E as <- <-. split; assumption.
Qed.

(** X1. The file that [convertFromEncryptedFile] returns is made of
    slices of the envelope: its bytes are those of [bufParts], and the
    metadata is parsed from [detailsBuf], which are the segments as they
    were read, not what the cipher returned for them. *)
Theorem convertFromEncryptedFile_slices fuel source key iv f :
  snd (convertFromEncryptedFile fuel source key iv) = Returned f ->
  exists detailsBuf bufParts details,
    file_content f = List.concat bufParts
    /\ Forall (isSlice source) bufParts
    /\ (detailsBuf = [] \/ isSlice source detailsBuf)
    /\ JSON_parse (Buffer_toString detailsBuf) = inr details
    /\ file_name f = details_name details.
Proof.
  rewrite convertFromEncryptedFile_outcome. unfold decodeFrom, initial. simpl.
  destruct (snd (decodeSegments fuel source key iv (Num 0) [] []))
    as [[d ps]|e|] eqn:E; simpl; try discriminate.
  unfold fileOfWalk. simpl.
  destruct (JSON_parse (Buffer_toString d)) as [err|details] eqn:P;
    [discriminate|].
  intros H. injection H as <-.
  destruct (decodeSegments_slices source key iv fuel (Num 0) [] [] d ps
              (or_introl eq_refl) (List.Forall_nil _) E) as [Hd Hps].
  exists d, ps, details. simpl. auto.
Qed.

End DecodeFacts.

Section DecodeTheorems.
Context `{SC : SubtleCrypto} `{JS : JSON}.

Lemma js_add_NaN_r a : js_add a NaN = NaN.
Proof. destruct a; reflexivity. Qed.

Lemma Buffer_slice_NaN_end source s : Buffer_slice source s NaN = [].
Proof.
  unfold Buffer_slice.
  pose proof (adjustOffset_range s _ (byteLength_nonneg source)) as Hs.
  cbn [adjustOffset].
  destruct (Z.ltb_spec (adjustOffset s (byteLength source)) 0); [lia|].
  reflexivity.
Qed.

(** A rejection thrown by a decrypting [aesCrypt] is the cipher's, on
    that very buffer, which is not empty. *)
Lemma aesCrypt_decrypt_thrown (seg : Buffer) (key : CryptoKey) (iv : Buffer)
    (e : JSError) :
  snd (aesCrypt seg key iv (Some "decrypt")) = Thrown e ->
  exists err,
    e = SubtleRejected err /\ seg <> [] /\ subtle_decrypt iv key seg = inl err.
Proof.
  destruct seg as [|b seg]; [discriminate|].
  rewrite aesCrypt_nonempty_decrypt by (discriminate || reflexivity).
  destruct (subtle_decrypt iv key (b :: seg)) as [err|plain] eqn:E;
    cbn [snd]; intros H; [|discriminate].
  injection H as <-. exists err. repeat split. discriminate.
Qed.

(** The loop throws nothing of its own: what it throws is the cipher's
    rejection of a slice of the envelope. *)
Lemma decodeSegments_thrown source key iv : forall fuel i d ps e,
  snd (decodeSegments fuel source key iv i d ps) = Thrown e ->
  exists err seg,
    e = SubtleRejected err /\ isSlice source seg /\ seg <> []
    /\ subtle_decrypt iv key seg = inl err.
Proof.
  induction fuel as [|fuel IH]; intros i d ps e; [discriminate|].
  cbn [decodeSegments].
  destruct (js_lt i (byteLength source)); [|discriminate].
  cbv zeta. set (segSize := Number _). rewrite snd_bind.
  destruct (snd (aesCrypt _ key iv (Some "decrypt"))) as [plain|e'|] eqn:Ec;
    cbn [obind]; [|intros H|discriminate].
  - destruct (js_is_zero i); apply IH.
  - injection H as ->.
    destruct (aesCrypt_decrypt_thrown _ _ _ _ Ec) as (err & -> & Hne & Hd).
    exists err. eexists. split; [reflexivity|].
    split; [eexists; eexists; reflexivity|]. split; [exact Hne|exact Hd].
Qed.

(** A round on a header that is not numeric: the segment is empty, the
    cipher is not called, and the loop ends. *)
Lemma decodeFrom_not_numeric source key iv s fuel :
  js_lt (walk_i s) (byteLength source) = true ->
  headerAt source (walk_i s) = NaN ->
  decodeFrom (S (S fuel)) source key iv s
  = Returned (if js_is_zero (walk_i s) then ([], walk_bufParts s)
              else (walk_detailsBuf s, walk_bufParts s ++ [[]])).
Proof.
  intros Hlt Hh. unfold decodeFrom. cbn [decodeSegments].
  rewrite Hlt. cbv zeta. unfold headerAt in Hh. rewrite Hh.
  rewrite js_add_NaN_r, Buffer_slice_NaN_end, aesCrypt_nil.
  destruct (js_is_zero (walk_i s)); reflexivity.
Qed.

(** A span that reaches the end of the buffer or passes it selects what
    is left of the buffer. *)
Lemma segmentAt_clamped source i k :
  0 <= i -> byteLength source <= i + 8 + k ->
  segmentAt source (Num i) (Num k) = skipn (Z.to_nat (i + 8)) source.
Proof.
  intros Hi Hk. unfold segmentAt, Buffer_slice. cbn [js_add adjustOffset].
  pose proof (byteLength_nonneg source) as Hlen.
  destruct (Z.ltb_spec (i + 8) 0); [lia|].
  destruct (Z.ltb_spec (i + 8 + k) 0); [lia|].
  destruct (Z.ltb_spec (i + 8 + k) (byteLength source)); [lia|].
  destruct (Z.ltb_spec (i + 8) (byteLength source)) as [Lt|Ge].
  - destruct (Z.ltb_spec (i + 8) (byteLength source)); [|lia].
    apply firstn_all2. rewrite length_skipn. unfold byteLength in *. lia.
  - rewrite Z.ltb_irrefl. cbn [Z.to_nat firstn].
    symmetry. apply List.skipn_all2. unfold byteLength in *. lia.
Qed.

(** On the text ["-0000008"] the loop is where it was after every round. *)
Lemma decodeSegments_loops (fuel : nat) (key : CryptoKey) (iv : Buffer) :
  forall d ps,
    decodeSegments fuel (Buffer_from "-0000008") key iv (Num 0) d ps
    = ([], OutOfFuel).
Proof.
  induction fuel as [|fuel IH]; intros d ps; [reflexivity|].
  cbn [decodeSegments].
  change (js_lt (Num 0) (byteLength (Buffer_from "-0000008"))) with true.
  cbv iota zeta.
  change (Number (Buffer_toString
            (Buffer_slice (Buffer_from "-0000008") (Num 0)
               (js_add (Num 0) (Num 8)))))
    with (Num (-8)).
  change (Buffer_slice (Buffer_from "-0000008") (js_add (Num 0) (Num 8))
            (js_add (js_add (Num 0) (Num 8)) (Num (-8))))
    with (@nil byte).
  rewrite aesCrypt_nil.
  change (js_add (js_add (Num 0) (Num 8)) (Num (-8))) with (Num 0).
  change (js_is_zero (Num 0)) with true.
  unfold bind. rewrite IH. reflexivity.
Qed.

(** C3, as the code has it. The reader checks nothing itself and has no
    error of its own.
    - What it throws is the cipher's rejection of a segment that is not
      empty, or what [JSON.parse] throws on the text of the metadata
      segment.
    - If the walk reaches, after [n] accepted frames, a frame whose
      segment is not empty and is rejected by the cipher (as a frame that
      fails authentication is), the call throws that rejection.
    - If the walk reaches a header that is not numeric, the segment is
      empty and the loop ends: the call ends as [JSON.parse] does on the
      metadata segment read so far.
    - If the envelope is not empty and its first header is not numeric,
      that is the empty text, and the call throws what [JSON.parse]
      throws on it.
    - If the walk reaches a header whose span passes the end of the
      buffer, the segment is what is left of the buffer; when the cipher
      accepts it the loop ends, and the call ends as [JSON.parse] does on
      the metadata segment. *)
Theorem convertFromEncryptedFile_errors (source : Buffer) (key : CryptoKey)
    (iv : Buffer) :
  (forall fuel e,
      snd (convertFromEncryptedFile fuel source key iv) = Thrown e ->
      (exists err seg,
          e = SubtleRejected err /\ isSlice source seg /\ seg <> []
          /\ subtle_decrypt iv key seg = inl err)
      \/ (exists err detailsBuf,
             e = JSONThrew err
             /\ (detailsBuf = [] \/ isSlice source detailsBuf)
             /\ JSON_parse (Buffer_toString detailsBuf) = inl err))
  /\ (forall n s segSize err fuel,
         nsteps (walkStep source key iv) n initial s ->
         js_lt (walk_i s) (byteLength source) = true ->
         headerAt source (walk_i s) = segSize ->
         segmentAt source (walk_i s) segSize <> [] ->
         subtle_decrypt iv key (segmentAt source (walk_i s) segSize)
         = inl err ->
         (n < fuel)%nat ->
         snd (convertFromEncryptedFile fuel source key iv)
         = Thrown (SubtleRejected err))
  /\ (forall n s fuel,
         nsteps (walkStep source key iv) n initial s ->
         js_lt (walk_i s) (byteLength source) = true ->
         headerAt source (walk_i s) = NaN ->
         (n + 1 < fuel)%nat ->
         segmentAt source (walk_i s) NaN = []
         /\ snd (convertFromEncryptedFile fuel source key iv)
            = fileOfWalk
                (if js_is_zero (walk_i s) then ([], walk_bufParts s)
                 else (walk_detailsBuf s, walk_bufParts s ++ [[]])))
  /\ (forall fuel e,
         (2 <= fuel)%nat ->
         source <> [] ->
         headerAt source (Num 0) = NaN ->
         JSON_parse "" = inl e ->
         snd (convertFromEncryptedFile fuel source key iv)
         = Thrown (JSONThrew e))
  /\ (forall n s i k plain fuel,
         nsteps (walkStep source key iv) n initial s ->
         walk_i s = Num i ->
         0 <= i < byteLength source ->
         headerAt source (Num i) = Num k ->
         byteLength source < i + 8 + k ->
         segmentAt source (Num i) (Num k) = skipn (Z.to_nat (i + 8)) source
         /\ (snd (aesCrypt (skipn (Z.to_nat (i + 8)) source) key iv
                    (Some "decrypt")) = Returned plain ->
             (n + 1 < fuel)%nat ->
             snd (convertFromEncryptedFile fuel source key iv)
             = fileOfWalk
                 (if i =? 0
                  then (skipn (Z.to_nat (i + 8)) source, walk_bufParts s)
                  else (walk_detailsBuf s,
                        walk_bufParts s ++ [skipn (Z.to_nat (i + 8)) source])))).
Proof.
  assert (Hnan : forall n s fuel,
             nsteps (walkStep source key iv) n initial s ->
             js_lt (walk_i s) (byteLength source) = true ->
             headerAt source (walk_i s) = NaN ->
             (n + 1 < fuel)%nat ->
             snd (convertFromEncryptedFile fuel source key iv)
             = fileOfWalk
                 (if js_is_zero (walk_i s) then ([], walk_bufParts s)
                  else (walk_detailsBuf s, walk_bufParts s ++ [[]]))).
  { intros n s fuel Hwalk Hlt Hh Hfuel.
    rewrite convertFromEncryptedFile_outcome.
    replace fuel with (n + S (S (fuel - n - 2)))%nat by lia.
    rewrite (decodeFrom_steps source key iv n initial s _ Hwalk).
    rewrite (decodeFrom_not_numeric source key iv s _ Hlt Hh).
    reflexivity. }
  split; [|split; [|split; [|split]]].
  - intros fuel e. rewrite convertFromEncryptedFile_outcome.
    unfold decodeFrom, initial. cbn [walk_i walk_detailsBuf walk_bufParts].
    destruct (snd (decodeSegments fuel source key iv (Num 0) [] []))
      as [[d ps]|e'|] eqn:E; cbn [obind]; [|intros H|discriminate].
    + destruct (decodeSegments_slices source key iv fuel (Num 0) [] [] d ps
                  (or_introl eq_refl) (List.Forall_nil _) E) as [Hd _].
      unfold fileOfWalk. cbn [fst snd].
      destruct (JSON_parse (Buffer_toString d)) as [err|details] eqn:P;
        intros H; [|discriminate].
      injection H as <-. right. exists err, d. repeat split; assumption.
    + injection H as ->. left.
      exact (decodeSegments_thrown source key iv fuel (Num 0) [] [] e E).
  - intros n s segSize err fuel Hwalk Hlt Hh Hne Hd Hfuel.
    rewrite convertFromEncryptedFile_outcome.
    replace fuel with (n + S (fuel - n - 1))%nat by lia.
    rewrite (decodeFrom_steps source key iv n initial s _ Hwalk).
    rewrite (decodeFrom_rejected source key iv s segSize err _ Hlt Hh Hne Hd).
    reflexivity.
  - intros n s fuel Hwalk Hlt Hh Hfuel. split.
    + unfold segmentAt. rewrite js_add_NaN_r. apply Buffer_slice_NaN_end.
    + exact (Hnan n s fuel Hwalk Hlt Hh Hfuel).
  - intros fuel e Hfuel Hne Hh Hparse.
    assert (Hlt : js_lt (Num 0) (byteLength source) = true).
    { destruct source; [contradiction|]. apply Z.ltb_lt.
      unfold byteLength. cbn [List.length]. lia. }
    rewrite (Hnan 0%nat initial fuel (nsteps_O _ _) Hlt Hh ltac:(lia)).
    unfold fileOfWalk. cbn [initial walk_i js_is_zero Z.eqb fst].
    change (Buffer_toString []) with "". rewrite Hparse. reflexivity.
  - intros n s i k plain fuel Hwalk Hi Hrange Hh Hspan.
    pose proof (segmentAt_clamped source i k ltac:(lia) ltac:(lia)) as Hseg.
    split; [exact Hseg|]. intros Hplain Hfuel.
    destruct s as [si d ps]. cbn [walk_i] in Hi. subst si.
    cbn [walk_detailsBuf walk_bufParts].
    assert (Hstep : walkStep source key iv
              {| walk_i := Num i; walk_detailsBuf := d; walk_bufParts := ps |}
              {| walk_i := js_add (js_add (Num i) (Num 8)) (Num k);
                 walk_detailsBuf :=
                   if js_is_zero (Num i)
                   then segmentAt source (Num i) (Num k) else d;
                 walk_bufParts :=
                   if js_is_zero (Num i) then ps
                   else ps ++ [segmentAt source (Num i) (Num k)] |}).
    { apply (walk_frame source key iv (Num i) d ps (Num k) plain).
      - apply Z.ltb_lt. lia.
      - exact Hh.
      - rewrite Hseg. exact Hplain. }
    rewrite convertFromEncryptedFile_outcome.
    replace fuel with (n + S (S (fuel - n - 2)))%nat by lia.
    rewrite (decodeFrom_steps source key iv n initial _ _ Hwalk).
    rewrite (decodeFrom_step _ _ _ _ _ _ Hstep).
    unfold decodeFrom.
    cbn [decodeSegments walk_i walk_detailsBuf walk_bufParts js_add js_lt
         js_is_zero].
    destruct (Z.ltb_spec (i + 8 + k) (byteLength source)); [lia|].
    rewrite Hseg. cbn [ret snd obind].
    destruct (i =? 0); reflexivity.
Qed.

(** X2. The reader does not end on every envelope. When the first header
    reads -8 the segment is empty, the cipher is not called, and the
    position after the round is 0 again: no number of rounds is enough,
    whatever the cipher, the key and the iv are. *)
Theorem convertFromEncryptedFile_can_loop (fuel : nat) (key : CryptoKey)
    (iv : Buffer) :
  Number "-0000008" = Num (-8)
  /\ convertFromEncryptedFile fuel (Buffer_from "-0000008") key iv
     = ([], OutOfFuel).
Proof.
  split; [reflexivity|].
  unfold convertFromEncryptedFile.
  rewrite decodeSegments_loops. reflexivity.
Qed.

End DecodeTheorems.


(** The two-frame envelope: the returned content is its second segment. *)
Lemma convertFromEncryptedFile_slices_witness :
  exists detailsBuf bufParts details,
    file_content (DecodeExamples.decoded DecodeExamples.bodySegment)
    = List.concat bufParts
    /\ Forall (isSlice DecodeExamples.envelope) bufParts
    /\ (detailsBuf = [] \/ isSlice DecodeExamples.envelope detailsBuf)
    /\ JSON_parse (JSON := Fixture.tableJSON) (Buffer_toString detailsBuf)
       = inr details
    /\ file_name (DecodeExamples.decoded DecodeExamples.bodySegment)
       = details_name details.
Proof.
  apply (convertFromEncryptedFile_slices (SC := Fixture.xorGcm)
           (JS := Fixture.tableJSON) 3 DecodeExamples.envelope
           DecodeExamples.key DecodeExamples.iv).
  vm_compute. reflexivity.
Defined.

(** C1 on a two-frame envelope. The reader calls the cipher's decryption
    on both segments, and the second segment decrypts to ["hello"]; the
    file it returns holds the 21 bytes of the segment as they were in the
    envelope, and its metadata was parsed from the first segment as it was
    in the envelope. *)
Theorem convertFromEncryptedFile_returns_ciphertext :
  let outcome :=
    convertFromEncryptedFile (SC := Fixture.xorGcm) (JS := Fixture.tableJSON)
      3 DecodeExamples.envelope DecodeExamples.key DecodeExamples.iv in
  snd outcome = Returned (DecodeExamples.decoded DecodeExamples.bodySegment)
  /\ List.filter
       (fun ev => match ev with SubtleCall Decrypt _ _ _ => true | _ => false end)
       (fst outcome)
     = [SubtleCall (SC := Fixture.xorGcm) Decrypt
          DecodeExamples.iv DecodeExamples.key
          (Buffer_from DecodeExamples.metaSegment);
        SubtleCall (SC := Fixture.xorGcm) Decrypt
          DecodeExamples.iv DecodeExamples.key
          (Buffer_from DecodeExamples.bodySegment)]
  /\ snd (aesCrypt (SC := Fixture.xorGcm)
            (Buffer_from DecodeExamples.bodySegment)
            DecodeExamples.key DecodeExamples.iv (Some "decrypt"))
     = Returned (Buffer_from "hello")
  /\ file_content (DecodeExamples.decoded DecodeExamples.bodySegment)
     <> Buffer_from "hello".
Proof.
  vm_compute. split; [reflexivity|]. split; [reflexivity|].
  split; [reflexivity|]. discriminate.
Qed.

(** C3 as stated fails, whatever the cipher and the parser are. The
    envelope ["-0000008"] is malformed: its header reads -8. On it the
    reader raises no error and returns no result: after every round the
    loop is where it was. *)
Lemma convertFromEncryptedFile_malformed_no_error :
  exists source : Buffer,
    source = Buffer_from "-0000008"
    /\ headerAt source (Num 0) = Num (-8)
    /\ forall (SC : SubtleCrypto) (JS : JSON) (key : CryptoKey) (iv : Buffer)
              (fuel : nat),
         convertFromEncryptedFile fuel source key iv = ([], OutOfFuel)
         /\ forall e,
              snd (convertFromEncryptedFile fuel source key iv) <> Thrown e.
Proof.
  exists (Buffer_from "-0000008"). split; [reflexivity|].
  split; [reflexivity|]. intros SC JS key iv fuel.
  assert (E : convertFromEncryptedFile fuel (Buffer_from "-0000008") key iv
              = ([], OutOfFuel))
    by (unfold convertFromEncryptedFile; rewrite decodeSegments_loops;
        reflexivity).
  split; [exact E|]. intros e. rewrite E. discriminate.
Qed.

(** The first frame of the example envelopes, and the second frame where
    it is sound, under the stand-in cipher. *)
Example envelope_tampered_walk :
  nsteps (walkStep (SC := Fixture.xorGcm) DecodeExamples.envelope_tampered
            DecodeExamples.key DecodeExamples.iv) 1 initial
    {| walk_i := Num 102;
       walk_detailsBuf := Buffer_from DecodeExamples.metaSegment;
       walk_bufParts := [] |}.
Proof.
  eapply nsteps_l; [|apply nsteps_O].
  eapply (walkStep_frame (SC := Fixture.xorGcm) _ _ _ (Num 0) [] [] (Num 94));
    vm_compute; reflexivity.
Qed.

Example envelope_long_span_walk :
  nsteps (walkStep (SC := Fixture.xorGcm) DecodeExamples.envelope_long_span
            DecodeExamples.key DecodeExamples.iv) 1 initial
    {| walk_i := Num 102;
       walk_detailsBuf := Buffer_from DecodeExamples.metaSegment;
       walk_bufParts := [] |}.
Proof.
  eapply nsteps_l; [|apply nsteps_O].
  eapply (walkStep_frame (SC := Fixture.xorGcm) _ _ _ (Num 0) [] [] (Num 94));
    vm_compute; reflexivity.
Qed.

Example envelope_bad_header_walk :
  nsteps (walkStep (SC := Fixture.xorGcm) DecodeExamples.envelope_bad_header
            DecodeExamples.key DecodeExamples.iv) 2 initial
    {| walk_i := Num 131;
       walk_detailsBuf := Buffer_from DecodeExamples.metaSegment;
       walk_bufParts := [Buffer_from DecodeExamples.bodySegment] |}.
Proof.
  apply (nsteps_l _ _ _
           {| walk_i := Num 102;
              walk_detailsBuf := Buffer_from DecodeExamples.metaSegment;
              walk_bufParts := [] |}).
  - eapply (walkStep_frame (SC := Fixture.xorGcm) _ _ _ (Num 0) [] []
              (Num 94));
      vm_compute; reflexivity.
  - eapply nsteps_l; [|apply nsteps_O].
    apply (walkStep_frame (SC := Fixture.xorGcm) _ _ _ (Num 102) _ []
             (Num 21) (Buffer_from "hello"));
      vm_compute; reflexivity.
Qed.

(** Under the stand-in cipher and parser: an envelope that starts with
    eight letters; one whose second frame has a wrong tag; one whose third
    header is eight letters; and one whose second header declares 99 bytes
    where 21 are left. *)
Lemma convertFromEncryptedFile_errors_witness :
  snd (convertFromEncryptedFile (SC := Fixture.xorGcm) (JS := Fixture.tableJSON)
         2 DecodeExamples.envelope_bad_first
         DecodeExamples.key DecodeExamples.iv)
  = Thrown (JSONThrew "SyntaxError")
  /\ snd (convertFromEncryptedFile (SC := Fixture.xorGcm)
            (JS := Fixture.tableJSON) 2 DecodeExamples.envelope_tampered
            DecodeExamples.key DecodeExamples.iv)
     = Thrown (SubtleRejected "OperationError")
  /\ snd (convertFromEncryptedFile (SC := Fixture.xorGcm)
            (JS := Fixture.tableJSON) 4 DecodeExamples.envelope_bad_header
            DecodeExamples.key DecodeExamples.iv)
     = fileOfWalk (JS := Fixture.tableJSON)
         (Buffer_from DecodeExamples.metaSegment,
          [Buffer_from DecodeExamples.bodySegment; []])
  /\ snd (convertFromEncryptedFile (SC := Fixture.xorGcm)
            (JS := Fixture.tableJSON) 3 DecodeExamples.envelope_long_span
            DecodeExamples.key DecodeExamples.iv)
     = fileOfWalk (JS := Fixture.tableJSON)
         (Buffer_from DecodeExamples.metaSegment,
          [Buffer_from DecodeExamples.bodySegment]).
Proof.
  pose proof (fun source =>
                convertFromEncryptedFile_errors (SC := Fixture.xorGcm)
                  (JS := Fixture.tableJSON) source
                  DecodeExamples.key DecodeExamples.iv) as T.
  split; [|split; [|split]].
  - apply (proj1 (proj2 (proj2 (proj2 (T DecodeExamples.envelope_bad_first))))).
    + lia.
    + discriminate.
    + vm_compute. reflexivity.
    + reflexivity.
  - apply (proj1 (proj2 (T DecodeExamples.envelope_tampered))
             1%nat _ (Num 21) "OperationError" 2%nat
             envelope_tampered_walk).
    + reflexivity.
    + vm_compute. reflexivity.
    + vm_compute. discriminate.
    + vm_compute. reflexivity.
    + lia.
  - refine (eq_trans
              (proj2 (proj1 (proj2 (proj2 (T DecodeExamples.envelope_bad_header)))
                        2%nat _ 4%nat envelope_bad_header_walk _ _ _)) _).
    + reflexivity.
    + vm_compute. reflexivity.
    + lia.
    + reflexivity.
  - refine (eq_trans
              (proj2 (proj2 (proj2 (proj2 (proj2
                        (T DecodeExamples.envelope_long_span))))
                        1%nat _ 102 99 (Buffer_from "hello") 3%nat
                        envelope_long_span_walk eq_refl _ _ _) _ _) _).
    + vm_compute. split; [discriminate|reflexivity].
    + vm_compute. reflexivity.
    + vm_compute. reflexivity.
    + vm_compute. reflexivity.
    + lia.
    + vm_compute. reflexivity.
Defined.

(** The last two envelopes are read to a file, under the stand-in parser,
    which accepts the metadata segment as it is in the envelope. *)
Example convertFromEncryptedFile_malformed_accepted :
  fileOfWalk (JS := Fixture.tableJSON)
    (Buffer_from DecodeExamples.metaSegment,
     [Buffer_from DecodeExamples.bodySegment; []])
  = Returned (DecodeExamples.decoded DecodeExamples.bodySegment)
  /\ fileOfWalk (JS := Fixture.tableJSON)
       (Buffer_from DecodeExamples.metaSegment,
        [Buffer_from DecodeExamples.bodySegment])
     = Returned (DecodeExamples.decoded DecodeExamples.bodySegment).
Proof. vm_compute. split; reflexivity. Qed.

(** ** The key-wrap format *)

Section WrapFacts.
Context `{SC : SubtleCrypto}.

Lemma string_existsb_app p s t :
  string_existsb p (s ++ t)%string = string_existsb p s || string_existsb p t.
Proof.
  induction s as [|c s IH]; simpl; [reflexivity|].
  rewrite IH. apply orb_assoc.
Qed.

Lemma lacks_cons c a s :
  lacks c (String a s) = negb (Ascii.eqb c a) && lacks c s.
Proof. unfold lacks. simpl. apply negb_orb. Qed.

Lemma split_lacks c s : lacks c s = true -> split c s = [s].
Proof.
  induction s as [|a s IH]; [reflexivity|].
  rewrite lacks_cons. intros H. apply andb_prop in H. destruct H as [Ha Hs].
  cbn [split]. rewrite Ascii.eqb_sym.
  destruct (Ascii.eqb c a); [discriminate|].
  rewrite (IH Hs). reflexivity.
Qed.

Lemma split_at_first c p rest :
  lacks c p = true -> split c (p ++ String c rest) = p :: split c rest.
Proof.
  induction p as [|a p IH].
  - intros _. cbn [String.append split]. rewrite Ascii.eqb_refl. reflexivity.
  - rewrite lacks_cons. intros H. apply andb_prop in H. destruct H as [Ha Hp].
    cbn [String.append split]. rewrite Ascii.eqb_sym.
    destruct (Ascii.eqb c a); [discriminate|].
    rewrite (IH Hp). reflexivity.
Qed.

Lemma lacks_at_first c p rest : lacks c (p ++ String c rest) = false.
Proof.
  unfold lacks. rewrite string_existsb_app. simpl.
  rewrite Ascii.eqb_refl, orb_true_r. reflexivity.
Qed.

Lemma bind_Thrown_inv {A B} (m : Promise A) (k : A -> Promise B) e :
  snd (bind m k) = Thrown e ->
  snd m = Thrown e \/ exists a, snd m = Returned a /\ snd (k a) = Thrown e.
Proof.
  rewrite snd_bind. destruct (snd m) as [a|e'|]; simpl; intros H;
    try discriminate.
  - right. exists a. split; [reflexivity|exact H].
  - left. injection H as ->. reflexivity.
Qed.

End WrapFacts.

(** ** The folder model *)

Section FolderFacts.
Context `{FT : Filetree}.

Lemma sameIdentity_refl this : sameIdentity this this.
Proof. repeat split. Qed.

Lemma sameIdentity_set_dirChildren names this :
  sameIdentity (set_dirChildren names this) this.
Proof. repeat split. Qed.

Lemma sameIdentity_set_fileChildren files this :
  sameIdentity (set_fileChildren files this) this.
Proof. repeat split. Qed.

Lemma addChildDirs_state childNames walletRef this :
  fst (addChildDirs childNames walletRef this) = this
  \/ fst (addChildDirs childNames walletRef this)
     = set_dirChildren
         (setSpread (dirChildren this ++ addChildDirs_more childNames this))
         this.
Proof.
  unfold addChildDirs.
  destruct (promiseAll _ _); try (left; reflexivity).
  destruct (0 <? _)%nat; [right|left]; reflexivity.
Qed.

(** C9. Each of the five mutating methods leaves [whoAmI], [whereAmI]
    and [whoOwnsMe] of the folder as they were, whatever its arguments
    and however the call ends; and every child folder that [addChildDirs]
    constructs has this folder's owner as its owner and this folder's
    path as its parent. *)
Theorem mutations_keep_identity (walletRef : IWalletHandler)
    (this : FolderHandler) :
  (forall childNames,
      sameIdentity (fst (addChildDirs childNames walletRef this)) this)
  /\ (forall newFiles,
         sameIdentity (fst (addChildFileReferences newFiles walletRef this))
           this)
  /\ (forall toRemove,
         sameIdentity (fst (removeChildDirReferences toRemove walletRef this))
           this)
  /\ (forall toRemove,
         sameIdentity (fst (removeChildFileReferences toRemove walletRef this))
           this)
  /\ (forall dirs files,
         sameIdentity
           (fst (removeChildDirAndFileReferences dirs files walletRef this))
           this)
  /\ (forall childNames,
         Forall (fun child =>
                   whoOwnsMe child = whoOwnsMe this
                   /\ whereAmI child = getMyPath this)
           (addChildDirs_handlers childNames this)).
Proof.
  repeat split; try reflexivity.
  - destruct (addChildDirs_state childNames walletRef this) as [-> | ->];
      reflexivity.
  - destruct (addChildDirs_state childNames walletRef this) as [-> | ->];
      reflexivity.
  - destruct (addChildDirs_state childNames walletRef this) as [-> | ->];
      reflexivity.
  - intros childNames. unfold addChildDirs_handlers.
    apply Forall_forall. intros child Hin.
    apply list_elem_of_In, in_map_iff in Hin.
    destruct Hin as (name & <- & _). split; reflexivity.
Qed.

End FolderFacts.


(** C6 on its own scenario. [addChildDirs(["reports", "reports"])] on the
    folder [docs] without children leaves [dirChildren = ["reports"]] and
    returns [existing = []], but it returns three change records: one for a
    child ["reports"], a second one for the same child, and the folder's
    own. A following [addChildDirs(["reports"])] returns
    [existing = ["reports"]] and no change record, and leaves the folder as
    it was. *)
Theorem addChildDirs_duplicate_names :
  addChildDirs (FT := Fixture.recordingFiletree) ["reports"; "reports"]
    Fixture.plainWallet FolderExamples.docs
  = (FolderExamples.docs_with_reports,
     Returned
       (FolderExamples.resultOf
          [FolderExamples.recordOf FolderExamples.reports;
           FolderExamples.recordOf FolderExamples.reports;
           FolderExamples.recordOf FolderExamples.docs_with_reports]
          []))
  /\ addChildDirs (FT := Fixture.recordingFiletree) ["reports"]
       Fixture.plainWallet FolderExamples.docs_with_reports
     = (FolderExamples.docs_with_reports,
        Returned (FolderExamples.resultOf [] ["reports"])).
Proof. split; reflexivity. Qed.

(** ** Hexadecimal text and the wallet's asymmetric pair *)

Section HexFacts.

Lemma Buffer_fromHex_byte (b : byte) (rest : string) :
  Buffer_fromHex (byte_toHex b ++ rest) = b :: Buffer_fromHex rest.
Proof. destruct b; reflexivity. Qed.

Lemma lacks_byte_toHex (b : byte) : lacks "|" (byte_toHex b) = true.
Proof. destruct b; reflexivity. Qed.

Lemma lacks_app c s t :
  lacks c (s ++ t) = lacks c s && lacks c t.
Proof.
  unfold lacks. rewrite string_existsb_app. apply negb_orb.
Qed.

(** Reading hexadecimal text back gives the bytes that were written. *)
Lemma Buffer_fromHex_toHex (b : Buffer) : Buffer_fromHex (Buffer_toHex b) = b.
Proof.
  induction b as [|x b IH]; [reflexivity|].
  cbn [Buffer_toHex]. rewrite Buffer_fromHex_byte, IH. reflexivity.
Qed.

Lemma lacks_Buffer_toHex (b : Buffer) : lacks "|" (Buffer_toHex b) = true.
Proof.
  induction b as [|x b IH]; [reflexivity|].
  cbn [Buffer_toHex]. rewrite lacks_app, lacks_byte_toHex, IH. reflexivity.
Qed.

End HexFacts.

Module WalletFixtureFacts.
Import WalletFixture.

Lemma hexText_laws : Base64Laws hexText.
Proof. split. exact Buffer_fromHex_toHex. Qed.

Lemma maskEcies_laws : EciesLaws maskEcies.
Proof.
  split. simpl. unfold mask. intros sk msg c.
  rewrite Buffer_fromHex_toHex. destruct sk as [|k sk]; [discriminate|].
  intros E. injection E as <-. rewrite map_map. f_equal.
  rewrite <- (map_id msg) at 2. apply map_ext.
  intros x. apply FixtureFacts.bxor_involutive.
Qed.

End WalletFixtureFacts.

Section WalletFacts.
Context `{EC : Ecies}.

(** X3. What a signing wallet encrypts for its own public key it decrypts
    again: the text [asymmetricEncrypt] returns holds no ['|'], and
    [asymmetricDecrypt] of it returns the bytes that were encrypted. When
    [asymmetricEncrypt] throws, it is the asymmetric primitive that
    threw. *)
Theorem WalletHandler_asymmetric_roundtrip {L : EciesLaws EC}
    (this : WalletHandler) (pubKey : string) (toEncrypt : Buffer) :
  getPubkey this = Returned pubKey ->
  match WalletHandler_asymmetricEncrypt this toEncrypt pubKey with
  | Returned wrapped =>
      lacks "|" wrapped = true
      /\ WalletHandler_asymmetricDecrypt this wrapped = Returned toEncrypt
  | Thrown e =>
      exists err, ecies_encrypt pubKey toEncrypt = inl err /\ e = WalletThrew err
  | OutOfFuel => False
  end.
Proof.
  unfold getPubkey, WalletHandler_asymmetricEncrypt,
    WalletHandler_asymmetricDecrypt, withProperties.
  destruct (wallet_properties this) as [properties|]; [|discriminate].
  intros E. injection E as <-.
  destruct (ecies_encrypt (publicKey_toHex (keyPair properties)) toEncrypt)
    as [err|c] eqn:Enc.
  - exists err. split; reflexivity.
  - split; [apply lacks_Buffer_toHex|].
    rewrite Buffer_fromHex_toHex, (ecies_decrypt_encrypt _ _ _ Enc).
    reflexivity.
Qed.

(** X4. Setting one of the two initialisation flags of a signing wallet is
    read back by its getter and changes nothing else that a getter shows;
    on a wallet that is not a signing one the setter throws and leaves the
    wallet as it was. *)
Theorem WalletHandler_init_status (this : WalletHandler) (status : bool) :
  match wallet_properties this with
  | Some _ =>
      snd (setRnsInitStatus status this) = Returned tt
      /\ getRnsInitStatus (fst (setRnsInitStatus status this)) = Returned status
      /\ getStorageInitStatus (fst (setRnsInitStatus status this))
         = getStorageInitStatus this
      /\ getPubkey (fst (setRnsInitStatus status this)) = getPubkey this
      /\ WalletHandler_getJackalAddress (fst (setRnsInitStatus status this))
         = WalletHandler_getJackalAddress this
      /\ snd (setStorageInitStatus status this) = Returned tt
      /\ getStorageInitStatus (fst (setStorageInitStatus status this))
         = Returned status
      /\ getRnsInitStatus (fst (setStorageInitStatus status this))
         = getRnsInitStatus this
      /\ getPubkey (fst (setStorageInitStatus status this)) = getPubkey this
      /\ WalletHandler_getJackalAddress (fst (setStorageInitStatus status this))
         = WalletHandler_getJackalAddress this
  | None =>
      setRnsInitStatus status this
      = (this, Thrown (SignerNotEnabled "WalletHandler" "setRnsInitStatus"))
      /\ setStorageInitStatus status this
         = (this, Thrown (SignerNotEnabled "WalletHandler" "setStorageInitStatus"))
  end.
Proof.
  unfold setRnsInitStatus, setStorageInitStatus, getRnsInitStatus,
    getStorageInitStatus, getPubkey, WalletHandler_getJackalAddress,
    withProperties.
  destruct (wallet_properties this) as [properties|]; simpl;
    repeat split; reflexivity.
Qed.

(** X5. After [voidFullWallet] the wallet uses its private key no more:
    [asymmetricDecrypt] throws for every text, as do the getters of the
    address, of the public key and of the two flags, each naming itself;
    [asymmetricEncrypt], which reads nothing of the wallet, does what it
    did before. *)
Theorem voidFullWallet_disables_signing (this : WalletHandler) :
  (forall toDecrypt,
      WalletHandler_asymmetricDecrypt (voidFullWallet this) toDecrypt
      = Thrown (SignerNotEnabled "WalletHandler" "asymmetricDecrypt"))
  /\ WalletHandler_getJackalAddress (voidFullWallet this)
     = Thrown (SignerNotEnabled "WalletHandler" "getJackalAddress")
  /\ getPubkey (voidFullWallet this)
     = Thrown (SignerNotEnabled "WalletHandler" "getPubkey")
  /\ getRnsInitStatus (voidFullWallet this)
     = Thrown (SignerNotEnabled "WalletHandler" "getRnsInitStatus")
  /\ getStorageInitStatus (voidFullWallet this)
     = Thrown (SignerNotEnabled "WalletHandler" "getStorageInitStatus")
  /\ wallet_traits (voidFullWallet this) = None
  /\ (forall toEncrypt pubKey,
         WalletHandler_asymmetricEncrypt (voidFullWallet this) toEncrypt pubKey
         = WalletHandler_asymmetricEncrypt this toEncrypt pubKey).
Proof. repeat split. Qed.

End WalletFacts.

(** The wallet [alice] wraps sixteen bytes for herself. *)
Lemma WalletHandler_asymmetric_roundtrip_witness :
  WalletHandler_asymmetricEncrypt (EC := WalletFixture.maskEcies)
    WalletFixture.alice (Buffer_from "0123456789abcdef") "4b"
  = Returned "7b7a79787f7e7d7c73722a29282f2e2d"
  /\ lacks "|" "7b7a79787f7e7d7c73722a29282f2e2d" = true
  /\ WalletHandler_asymmetricDecrypt (EC := WalletFixture.maskEcies)
       WalletFixture.alice "7b7a79787f7e7d7c73722a29282f2e2d"
     = Returned (Buffer_from "0123456789abcdef").
Proof.
  split; [reflexivity|].
  exact (WalletHandler_asymmetric_roundtrip (EC := WalletFixture.maskEcies)
           (L := WalletFixtureFacts.maskEcies_laws)
           WalletFixture.alice "4b" (Buffer_from "0123456789abcdef") eq_refl).
Defined.

(** ** Unwrapping with the repository's wallet *)

Section KeyWrapFacts.
Context `{SC : SubtleCrypto} `{EC : Ecies}.

Lemma splitFirst_lacks c s : lacks c s = true -> splitFirst c s = None.
Proof.
  induction s as [|a s IH]; [reflexivity|].
  rewrite lacks_cons. intros H. apply andb_prop in H. destruct H as [Ha Hs].
  cbn [splitFirst]. rewrite Ascii.eqb_sym.
  destruct (Ascii.eqb c a); [discriminate|].
  rewrite (IH Hs). reflexivity.
Qed.

Lemma splitFirst_found c s :
  lacks c s = false ->
  exists before after,
    s = (before ++ String c after)%string
    /\ lacks c before = true
    /\ splitFirst c s = Some (before, after).
Proof.
  induction s as [|a s IH]; [discriminate|].
  rewrite lacks_cons. cbn [splitFirst]. rewrite (Ascii.eqb_sym c a).
  destruct (Ascii.eqb_spec a c) as [->|Ne].
  - intros _. exists EmptyString, s. repeat split.
  - cbn [negb andb]. intros H.
    destruct (IH H) as (before & after & -> & Hb & ->).
    exists (String a before), after. repeat split.
    rewrite lacks_cons, Hb, Ascii.eqb_sym.
    destruct (Ascii.eqb_spec a c); [contradiction|reflexivity].
Qed.

(** The first piece of a split, and what the text is made of. *)
Lemma split_first_piece c s :
  exists piece pieces,
    split c s = piece :: pieces
    /\ (s = piece \/ exists after, s = (piece ++ String c after)%string).
Proof.
  induction s as [|a s IH].
  - exists EmptyString, []. split; [reflexivity|left; reflexivity].
  - cbn [split]. destruct (Ascii.eqb_spec a c) as [->|Ne].
    + exists EmptyString, (split c s). split; [reflexivity|].
      right. exists s. reflexivity.
    + destruct IH as (piece & pieces & -> & [->|[after ->]]).
      * exists (String a piece), pieces. split; [reflexivity|left; reflexivity].
      * exists (String a piece), pieces. split; [reflexivity|].
        right. exists after. reflexivity.
Qed.

(** Hexadecimal decoding stops at a ['|']: what follows it is not read. *)
Lemma Buffer_fromHex_stop q t :
  Buffer_fromHex (q ++ String "|" t) = Buffer_fromHex q.
Proof.
  enough (H : Buffer_fromHex (q ++ String "|" t) = Buffer_fromHex q
              /\ forall a, Buffer_fromHex (String a q ++ String "|" t)
                           = Buffer_fromHex (String a q)) by apply H.
  induction q as [|b q [IH1 IH2]].
  - split.
    + cbn [String.append Buffer_fromHex]. destruct t; reflexivity.
    + intros a. cbn [String.append Buffer_fromHex].
      destruct (unhex a); reflexivity.
  - split; [apply IH2|].
    intros a. cbn [String.append Buffer_fromHex].
    cbn [String.append] in IH1. rewrite IH1. reflexivity.
Qed.

(** The wallet decrypts the second piece of a split and all that follows
    the first delimiter to the same bytes. *)
Lemma asymmetricDecrypt_second_piece (this : WalletHandler) rest :
  exists piece pieces,
    split "|" rest = piece :: pieces
    /\ WalletHandler_asymmetricDecrypt this piece
       = WalletHandler_asymmetricDecrypt this rest.
Proof.
  destruct (split_first_piece "|" rest)
    as (piece & pieces & Hs & [->|[after ->]]);
    exists piece, pieces; (split; [exact Hs|]); [reflexivity|].
  unfold WalletHandler_asymmetricDecrypt.
  rewrite Buffer_fromHex_stop. reflexivity.
Qed.

Lemma stringToAes_unwrapFromSelf (this : WalletHandler) (source : string) :
  stringToAes (WalletHandler_interface this) source
  = unwrapFromSelf (WalletHandler_interface this) source.
Proof.
  unfold stringToAes, unwrapFromSelf.
  destruct (lacks "|" source) eqn:Hl.
  - rewrite (splitFirst_lacks _ _ Hl). reflexivity.
  - destruct (splitFirst_found _ _ Hl) as (before & after & -> & Hb & ->).
    rewrite (split_at_first _ _ _ Hb).
    destruct (asymmetricDecrypt_second_piece this after)
      as (piece & pieces & -> & Hd).
    cbn [nth_error callDecrypt WalletHandler_interface asymmetricDecrypt].
    rewrite Hd. reflexivity.
Qed.

(** C7. For every source text and every wallet of the repository,
    [stringToAes] throws its invalid-source error exactly when the text has
    no ['|']; and it is the unwrapping the specification describes: on a
    text with a delimiter it splits on the first one, has the wallet
    decrypt each half, and imports the key from the decrypted key bytes. *)
Theorem stringToAes_spec (this : WalletHandler) (source : string) :
  (snd (stringToAes (WalletHandler_interface this) source)
   = Thrown InvalidSourceString
   <-> lacks "|" source = true)
  /\ stringToAes (WalletHandler_interface this) source
     = unwrapFromSelf (WalletHandler_interface this) source.
Proof.
  split; [|apply stringToAes_unwrapFromSelf].
  rewrite stringToAes_unwrapFromSelf. unfold unwrapFromSelf.
  destruct (lacks "|" source) eqn:Hl.
  - rewrite (splitFirst_lacks _ _ Hl). split; reflexivity.
  - destruct (splitFirst_found _ _ Hl) as (before & after & _ & _ & ->).
    split; [|discriminate]. intros H. exfalso. revert H.
    unfold call, importJackalKey.
    cbn [WalletHandler_interface asymmetricDecrypt].
    unfold WalletHandler_asymmetricDecrypt, withProperties.
    destruct (wallet_properties this) as [properties|];
      [|cbn; discriminate].
    destruct (ecies_decrypt _ (Buffer_fromHex before)); [cbn; discriminate|].
    destruct (ecies_decrypt _ (Buffer_fromHex after)); [cbn; discriminate|].
    cbn [bind throw ret].
    destruct (subtle_importKey _); cbn; discriminate.
Qed.

End KeyWrapFacts.

(** A text with two delimiters under the wallet [alice]: the key half is
    all that follows the first delimiter, and its hexadecimal digits end at
    the second. *)
Example stringToAes_two_delimiters :
  snd (stringToAes (SC := Fixture.xorGcm)
         (WalletHandler_interface WalletFixture.alice)
         "7b7a79787f7e7d7c73722a29282f2e2d|20|c3")
  = Returned {| aes_iv := EncodeExamples.iv;
                aes_key := (EncodeExamples.key : @CryptoKey Fixture.xorGcm) |}
  /\ splitFirst "|" "7b7a79787f7e7d7c73722a29282f2e2d|20|c3"
     = Some ("7b7a79787f7e7d7c73722a29282f2e2d", "20|c3")
  /\ Buffer_fromHex "20|c3" = Buffer_fromHex "20".
Proof. repeat split. Qed.

(** A text without a delimiter, and a wallet that cannot sign. *)
Example stringToAes_failures :
  snd (stringToAes (SC := Fixture.xorGcm)
         (WalletHandler_interface WalletFixture.alice) "7b7a")
  = Thrown InvalidSourceString
  /\ snd (stringToAes (SC := Fixture.xorGcm)
            (WalletHandler_interface (voidFullWallet WalletFixture.alice))
            "7b7a|20")
     = Thrown (SignerNotEnabled "WalletHandler" "asymmetricDecrypt").
Proof. split; reflexivity. Qed.

(** ** Names of the naming service *)

Section RnsFacts.

Lemma endsWith_refl s : endsWith s s = true.
Proof. destruct s; cbn [endsWith]; rewrite String.eqb_refl; reflexivity. Qed.

Lemma endsWith_app r suffix : endsWith (r ++ suffix) suffix = true.
Proof.
  induction r as [|c r IH]; [apply endsWith_refl|].
  cbn [String.append endsWith]. rewrite IH. apply orb_true_r.
Qed.

(** X6. [sanitizeRns] returns its argument when that ends with [.jkl] or
    [.ibc] and appends [.jkl] otherwise; either way the result ends with
    one of the two, and sanitizing a sanitized name changes nothing. *)
Theorem sanitizeRns_idempotent (rns : string) :
  sanitizeRns (sanitizeRns rns) = sanitizeRns rns
  /\ endsWith (sanitizeRns rns) ".jkl" || endsWith (sanitizeRns rns) ".ibc"
     = true
  /\ (sanitizeRns rns = rns \/ sanitizeRns rns = (rns ++ ".jkl")%string)
  /\ (sanitizeRns rns = rns
      <-> endsWith rns ".jkl" || endsWith rns ".ibc" = true).
Proof.
  assert (S : endsWith (sanitizeRns rns) ".jkl"
              || endsWith (sanitizeRns rns) ".ibc" = true).
  { unfold sanitizeRns.
    destruct (endsWith rns ".jkl" || endsWith rns ".ibc") eqn:E; [exact E|].
    rewrite endsWith_app. reflexivity. }
  split; [|split; [exact S|split]].
  - unfold sanitizeRns at 1. rewrite S. reflexivity.
  - clear S. unfold sanitizeRns.
    destruct (endsWith rns ".jkl" || endsWith rns ".ibc");
      [left|right]; reflexivity.
  - split.
    + intros E. rewrite <- E. exact S.
    + intros E. unfold sanitizeRns. rewrite E. reflexivity.
Qed.

Example sanitizeRns_plain : sanitizeRns "alice" = "alice.jkl".
Proof. reflexivity. Qed.

Example sanitizeRns_ibc : sanitizeRns "alice.ibc" = "alice.ibc".
Proof. reflexivity. Qed.

Example sanitizeRns_inner : sanitizeRns "alice.jkl.x" = "alice.jkl.x.jkl".
Proof. reflexivity. Qed.

End RnsFacts.

(** ** [cryptString] and the wrapped key *)

Section TextFacts.
Context `{SC : SubtleCrypto} `{B64 : Base64}.

(** Encrypting and then decrypting with [aesCrypt], on outcomes. *)
Lemma aesCrypt_encrypt_decrypt {G : AesGcm SC} (b : Buffer) (key : CryptoKey)
    (iv : Buffer) :
  (forall err, subtle_encrypt iv key b <> inl err) ->
  exists c,
    snd (aesCrypt b key iv (Some "encrypt")) = Returned c
    /\ snd (aesCrypt c key iv (Some "decrypt")) = Returned b.
Proof.
  intros Hacc. destruct b as [|x b]; [exists []; split; reflexivity|].
  destruct (subtle_encrypt iv key (x :: b)) as [err|c] eqn:E;
    [exfalso; exact (Hacc err eq_refl)|].
  exists c. split.
  - rewrite aesCrypt_nonempty_encrypt by discriminate. rewrite E. reflexivity.
  - assert (Hc : c <> []).
    { intros ->. apply encrypt_length in E. simpl in E. lia. }
    rewrite (aesCrypt_nonempty_decrypt c key iv (Some "decrypt") Hc eq_refl).
    rewrite (decrypt_encrypt _ _ _ _ E). reflexivity.
Qed.

(** X7. With AES-GCM as the cipher and a base64 decoder that undoes the
    encoder, for a text that is well formed, and under a key and iv that
    the cipher accepts the text with, [cryptString] in mode ['encrypt']
    returns a text from which [cryptString] in mode ['decrypt'] returns the
    original text. *)
Theorem cryptString_roundtrip {G : AesGcm SC} {BL : Base64Laws B64}
    (input : string) (key : CryptoKey) (iv : Buffer) :
  isWellFormed input = true ->
  (forall err, subtle_encrypt iv key (Buffer_from input) <> inl err) ->
  exists p text q,
    cryptString input key iv (Some "encrypt") = inr p
    /\ snd p = Returned text
    /\ cryptString text key iv (Some "decrypt") = inr q
    /\ snd q = Returned input.
Proof.
  intros Hwf Hacc.
  destruct (aesCrypt_encrypt_decrypt (Buffer_from input) key iv Hacc)
    as (c & Henc & Hdec).
  unfold cryptString. cbn [mode_is]. rewrite String.eqb_refl.
  change (String.eqb "decrypt" "encrypt") with false.
  rewrite String.eqb_refl. cbv iota.
  eexists. exists (base64_encode c). eexists.
  split; [reflexivity|]. split; [rewrite snd_bind, Henc; reflexivity|].
  split; [reflexivity|].
  rewrite snd_bind, base64_decode_encode, Hdec. simpl.
  rewrite (Buffer_toString_from_wellFormed _ Hwf). reflexivity.
Qed.

(** X8. [cryptString] ends with its own error, having called nothing,
    exactly when the mode is neither ['encrypt'] nor ['decrypt'] as
    written: unlike [aesCrypt] it does not lower-case the mode. *)
Theorem cryptString_invalid_mode (input : string) (key : CryptoKey)
    (iv : Buffer) (mode : option string) :
  cryptString input key iv mode = inl InvalidMode
  <-> (mode <> Some "encrypt" /\ mode <> Some "decrypt").
Proof.
  unfold cryptString, mode_is. destruct mode as [m|].
  - destruct (String.eqb_spec m "encrypt") as [->|Ne];
      [split; [discriminate|intros [H _]; contradiction]|].
    destruct (String.eqb_spec m "decrypt") as [->|Nd];
      [split; [discriminate|intros [_ H]; contradiction]|].
    split; [|reflexivity]. intros _. split; congruence.
  - split; [|reflexivity]. intros _. split; discriminate.
Qed.

(** X9. A key and iv wrapped by [aesToString] are recovered by
    [stringToAes], provided the wallet's [asymmetricEncrypt] returns a text
    for the iv and for the exported key, neither text holds a ['|'], the
    wallet's [asymmetricDecrypt] returns from each text what was encrypted,
    and the raw key exports and imports to itself. *)
Theorem aesToString_stringToAes (wallet : IWalletHandler) (pubKey : string)
    (aes : IAesBundle) (raw : Buffer) (theIv theKey : string) :
  asymmetricEncrypt wallet (aes_iv aes) pubKey = Returned theIv ->
  subtle_exportKey (aes_key aes) = inr raw ->
  asymmetricEncrypt wallet raw pubKey = Returned theKey ->
  lacks "|" theIv = true ->
  lacks "|" theKey = true ->
  asymmetricDecrypt wallet theIv = Returned (aes_iv aes) ->
  asymmetricDecrypt wallet theKey = Returned raw ->
  subtle_importKey raw = inr (aes_key aes) ->
  snd (aesToString wallet pubKey aes)
  = Returned (theIv ++ "|" ++ theKey)%string
  /\ snd (stringToAes wallet (theIv ++ "|" ++ theKey)%string) = Returned aes.
Proof.
  intros Eiv Hexp Ekey Hiv Hkey Div Dkey Himp. split.
  - unfold aesToString, exportJackalKey, call. rewrite Eiv, Hexp.
    cbn [bind ret]. rewrite Ekey. reflexivity.
  - unfold stringToAes. cbn [String.append].
    rewrite lacks_at_first, (split_at_first _ _ _ Hiv), (split_lacks _ _ Hkey).
    cbn [nth_error callDecrypt]. rewrite Div, Dkey.
    unfold call, importJackalKey. cbn [bind].
    rewrite Himp. destruct aes. reflexivity.
Qed.

End TextFacts.

(** The text ["hello"] under the stand-in cipher and hexadecimal text. *)
Lemma cryptString_roundtrip_witness :
  exists p text q,
    cryptString (SC := Fixture.xorGcm) (B64 := WalletFixture.hexText)
      "hello" EncodeExamples.key EncodeExamples.iv (Some "encrypt") = inr p
    /\ snd p = Returned text
    /\ cryptString (SC := Fixture.xorGcm) (B64 := WalletFixture.hexText)
         text EncodeExamples.key EncodeExamples.iv (Some "decrypt") = inr q
    /\ snd q = Returned "hello".
Proof.
  apply (cryptString_roundtrip (SC := Fixture.xorGcm)
           (B64 := WalletFixture.hexText) (G := FixtureFacts.xorGcm_laws)
           (BL := WalletFixtureFacts.hexText_laws)
           "hello" EncodeExamples.key EncodeExamples.iv).
  - reflexivity.
  - intros err. discriminate.
Defined.

(** A text that is not well formed does not come back: a lone surrogate,
    U+D800, comes back as U+FFFD. *)
Example cryptString_lone_surrogate :
  let input := string_of_list_byte [xed; xa0; x80] in
  isWellFormed input = false
  /\ exists p text q,
       cryptString (SC := Fixture.xorGcm) (B64 := WalletFixture.hexText)
         input EncodeExamples.key EncodeExamples.iv (Some "encrypt") = inr p
       /\ snd p = Returned text
       /\ cryptString (SC := Fixture.xorGcm) (B64 := WalletFixture.hexText)
            text EncodeExamples.key EncodeExamples.iv (Some "decrypt") = inr q
       /\ snd q = Returned (string_of_list_byte replacement)
       /\ string_of_list_byte replacement <> input.
Proof.
  split; [reflexivity|]. eexists. eexists. eexists.
  split; [reflexivity|]. split; [vm_compute; reflexivity|].
  split; [reflexivity|]. split; [vm_compute; reflexivity|].
  vm_compute. discriminate.
Qed.

(** A sixteen-byte iv and a one-byte key through the wallet [alice], for
    her own public key. *)
Lemma aesToString_stringToAes_witness :
  snd (aesToString (SC := Fixture.xorGcm)
         (WalletHandler_interface WalletFixture.alice) "4b"
         {| aes_iv := EncodeExamples.iv;
            aes_key := (EncodeExamples.key : @CryptoKey Fixture.xorGcm) |})
  = Returned "7b7a79787f7e7d7c73722a29282f2e2d|20"
  /\ snd (stringToAes (SC := Fixture.xorGcm)
            (WalletHandler_interface WalletFixture.alice)
            "7b7a79787f7e7d7c73722a29282f2e2d|20")
     = Returned {| aes_iv := EncodeExamples.iv;
                   aes_key := (EncodeExamples.key : @CryptoKey Fixture.xorGcm) |}.
Proof.
  apply (aesToString_stringToAes (SC := Fixture.xorGcm)
           (WalletHandler_interface WalletFixture.alice) "4b"
           {| aes_iv := EncodeExamples.iv;
              aes_key := (EncodeExamples.key : @CryptoKey Fixture.xorGcm) |}
           EncodeExamples.key
           "7b7a79787f7e7d7c73722a29282f2e2d" "20"); reflexivity.
Defined.

(** ** The children of a folder *)

Section FolderChildrenFacts.
Context `{FT : Filetree}.

Lemma includes_In name names : includes name names = true <-> In name names.
Proof.
  unfold includes. rewrite List.existsb_exists. split.
  - intros (x & Hin & E). apply String.eqb_eq in E. subst x. exact Hin.
  - intros H. exists name. split; [exact H|apply String.eqb_refl].
Qed.

Lemma includes_not_In name names :
  includes name names = false <-> ~ In name names.
Proof.
  rewrite <- includes_In. destruct (includes name names); split;
    try discriminate; try reflexivity; intros H; contradiction H; reflexivity.
Qed.

Lemma filter_all {A} (f : A -> bool) (l : list A) :
  (forall x, In x l -> f x = true) -> List.filter f l = l.
Proof.
  induction l as [|a l IH]; intros H; [reflexivity|].
  cbn [List.filter]. rewrite (H a (or_introl eq_refl)).
  rewrite IH; [reflexivity|]. intros x Hx. apply H. right. exact Hx.
Qed.

Lemma filter_none {A} (f : A -> bool) (l : list A) :
  (forall x, In x l -> f x = false) -> List.filter f l = [].
Proof.
  induction l as [|a l IH]; intros H; [reflexivity|].
  cbn [List.filter]. rewrite (H a (or_introl eq_refl)).
  apply IH. intros x Hx. apply H. right. exact Hx.
Qed.

Lemma filter_nil_inv {A} (f : A -> bool) (l : list A) :
  List.filter f l = [] -> forall x, In x l -> f x = false.
Proof.
  induction l as [|a l IH]; intros E x Hx; [destruct Hx|].
  cbn [List.filter] in E. destruct (f a) eqn:Fa; [discriminate|].
  destruct Hx as [<-|Hx]; [exact Fa|exact (IH E x Hx)].
Qed.

(** [setSpread_go] appends to [seen] the names that it has not seen, each
    once. *)
Lemma setSpread_go_spec : forall names seen,
  exists added,
    setSpread_go seen names = seen ++ added
    /\ List.NoDup added
    /\ forall x, In x added <-> In x names /\ ~ In x seen.
Proof.
  induction names as [|name rest IH]; intros seen.
  - exists []. split; [symmetry; apply app_nil_r|]. split; [constructor|].
    intros x. split; [intros []|intros [[] _]].
  - cbn [setSpread_go]. destruct (includes name seen) eqn:I.
    + destruct (IH seen) as (added & E & N & M). exists added.
      split; [exact E|]. split; [exact N|].
      intros x. rewrite M. apply includes_In in I. split.
      * intros [Hr Hs]. split; [right; exact Hr|exact Hs].
      * intros [[<-|Hr] Hs]; [contradiction|]. split; assumption.
    + destruct (IH (seen ++ [name])) as (added & E & N & M).
      apply includes_not_In in I.
      exists (name :: added). split; [rewrite E, <- app_assoc; reflexivity|].
      split.
      * constructor; [|exact N]. intros Hin. apply M in Hin.
        destruct Hin as [_ Hn]. apply Hn, in_or_app. right. left. reflexivity.
      * intros x. cbn [In]. rewrite M. split.
        -- intros [<-|[Hr Hs]].
           ++ split; [left; reflexivity|exact I].
           ++ split; [right; exact Hr|].
              intros Hx. apply Hs, in_or_app. left. exact Hx.
        -- intros [[<-|Hr] Hs]; [left; reflexivity|].
           destruct (string_dec name x) as [<-|Ne]; [left; reflexivity|].
           right. split; [exact Hr|]. intros Hx.
           apply in_app_or in Hx. destruct Hx as [Hx|[Hx|[]]];
             [contradiction|contradiction].
Qed.

Lemma setSpread_go_app : forall a seen b,
  setSpread_go seen (a ++ b) = setSpread_go (setSpread_go seen a) b.
Proof.
  induction a as [|x a IH]; intros seen b; [reflexivity|].
  cbn [app setSpread_go]. destruct (includes x seen); apply IH.
Qed.

Lemma setSpread_go_fresh : forall l seen,
  List.NoDup l -> (forall x, In x l -> ~ In x seen) ->
  setSpread_go seen l = seen ++ l.
Proof.
  induction l as [|a l IH]; intros seen N F; [symmetry; apply app_nil_r|].
  cbn [setSpread_go]. inversion N as [|? ? Ha Nl]; subst.
  replace (includes a seen) with false
    by (symmetry; apply includes_not_In, F; left; reflexivity).
  rewrite IH; [rewrite <- app_assoc; reflexivity|exact Nl|].
  intros x Hx Hs. apply in_app_or in Hs. destruct Hs as [Hs|[<-|[]]].
  - exact (F x (or_intror Hx) Hs).
  - contradiction.
Qed.

Lemma In_setSpread names x : In x (setSpread names) <-> In x names.
Proof.
  unfold setSpread. destruct (setSpread_go_spec names []) as (added & E & _ & M).
  rewrite E. cbn [app]. rewrite M. split; [intros [H _]; exact H|].
  intros H. split; [exact H|intros []].
Qed.

Lemma In_more names (this : FolderHandler) x :
  In x (addChildDirs_more names this)
  <-> In x names /\ ~ In x (dirChildren this).
Proof.
  unfold addChildDirs_more. rewrite List.filter_In.
  rewrite negb_true_iff, includes_not_In. reflexivity.
Qed.

(** The two shapes of a call of [addChildDirs] that returns. *)
Lemma addChildDirs_returned names walletRef (this this' : FolderHandler) r :
  addChildDirs names walletRef this = (this', Returned r) ->
  existing r = addChildDirs_existing names this
  /\ ((addChildDirs_more names this = [] /\ this' = this /\ encoded r = [])
      \/ (addChildDirs_more names this <> []
          /\ this' = set_dirChildren
                       (setSpread (dirChildren this
                                   ++ addChildDirs_more names this)) this)).
Proof.
  unfold addChildDirs, addChildDirs_handlers.
  destruct (addChildDirs_more names this) as [|m more] eqn:M.
  - cbn. intros E. injection E as <- <-. split; [reflexivity|].
    left. repeat split.
  - destruct (promiseAll _ _) as [enc|e|]; try discriminate.
    change (0 <? List.length (m :: more))%nat with true. cbv iota.
    destruct (getForFiletree walletRef _) as [own|e|]; cbn;
      try discriminate.
    intros E. injection E as <- <-. split; [reflexivity|].
    right. split; [discriminate|reflexivity].
Qed.

Lemma addChildDirs_members names walletRef (this this' : FolderHandler) r :
  addChildDirs names walletRef this = (this', Returned r) ->
  forall x, In x (dirChildren this')
            <-> In x (dirChildren this) \/ In x names.
Proof.
  intros E x. destruct (addChildDirs_returned _ _ _ _ _ E)
    as [_ [(M & -> & _)|(_ & ->)]].
  - split; [left; assumption|]. intros [H|H]; [exact H|].
    pose proof (filter_nil_inv _ _ M x H) as F.
    apply negb_false_iff, includes_In in F. exact F.
  - cbn [set_dirChildren dirChildren]. rewrite In_setSpread, in_app_iff, In_more.
    split; [intros [H|[H _]]; [left|right]; exact H|].
    intros [H|H]; [left; exact H|].
    destruct (in_dec string_dec x (dirChildren this)) as [I|I];
      [left; exact I|right; split; assumption].
Qed.

(** X10. When [addChildDirs] returns, the folder's child directories are
    those it had and those that were asked for, [existing] is the asked
    names the folder had, in the order asked, and the files are untouched.
    If the folder's child list had no duplicates, the children it had keep
    their places, and the new names follow them, each once, so that the
    list still has no duplicates. *)
Theorem addChildDirs_children (names : list string)
    (walletRef : IWalletHandler) (this this' : FolderHandler)
    (r : AddChildDirsResult) :
  addChildDirs names walletRef this = (this', Returned r) ->
  existing r
  = List.filter (fun name => includes name (dirChildren this)) names
  /\ (forall x, In x (dirChildren this')
                <-> In x (dirChildren this) \/ In x names)
  /\ fileChildren this' = fileChildren this
  /\ (List.NoDup (dirChildren this) ->
      exists added,
        dirChildren this' = dirChildren this ++ added
        /\ List.NoDup added
        /\ (forall x, In x added <-> In x names /\ ~ In x (dirChildren this))
        /\ List.NoDup (dirChildren this')).
Proof.
  intros E.
  split; [exact (proj1 (addChildDirs_returned _ _ _ _ _ E))|].
  split; [exact (addChildDirs_members _ _ _ _ _ E)|].
  destruct (addChildDirs_returned _ _ _ _ _ E)
    as [_ [(M & -> & _)|(_ & ->)]].
  - split; [reflexivity|]. intros N. exists [].
    split; [symmetry; apply app_nil_r|]. split; [constructor|].
    split; [|exact N]. intros x. split; [intros []|].
    intros [Hn Ho]. exfalso. apply Ho.
    pose proof (filter_nil_inv _ _ M x Hn) as F.
    apply negb_false_iff, includes_In in F. exact F.
  - split; [reflexivity|]. intros N.
    cbn [set_dirChildren dirChildren]. unfold setSpread.
    rewrite setSpread_go_app.
    rewrite (setSpread_go_fresh (dirChildren this) [] N)
      by (intros x _ []).
    cbn [app].
    destruct (setSpread_go_spec (addChildDirs_more names this)
                (dirChildren this)) as (added & -> & Na & Ma).
    exists added. split; [reflexivity|]. split; [exact Na|].
    assert (Mx : forall x, In x added
                           <-> In x names /\ ~ In x (dirChildren this)).
    { intros x. rewrite Ma, In_more. tauto. }
    split; [exact Mx|].
    apply List.NoDup_app; [exact N|exact Na|].
    intros a Ha Hadd. apply Mx in Hadd. tauto.
Qed.

(** X11. Asking again for the child directories that a call of
    [addChildDirs] has just returned on changes nothing: the second call
    returns every asked name as existing and no change record, and the
    folder is as the first call left it. *)
Theorem addChildDirs_twice (names : list string) (walletRef : IWalletHandler)
    (this this1 : FolderHandler) (r1 : AddChildDirsResult) :
  addChildDirs names walletRef this = (this1, Returned r1) ->
  addChildDirs names walletRef this1
  = (this1, Returned {| encoded := []; existing := names |}).
Proof.
  intros E.
  pose proof (addChildDirs_members _ _ _ _ _ E) as M.
  assert (All : forall x, In x names -> includes x (dirChildren this1) = true).
  { intros x Hx. apply includes_In, M. right. exact Hx. }
  unfold addChildDirs, addChildDirs_handlers, addChildDirs_existing,
    addChildDirs_more.
  rewrite (filter_all _ names All).
  rewrite (filter_none (fun name => negb (includes name (dirChildren this1)))
             names)
    by (intros x Hx; rewrite (All x Hx); reflexivity).
  reflexivity.
Qed.

End FolderChildrenFacts.

(** The folder [docs] and two new names, one of them twice. *)
Lemma addChildDirs_children_witness :
  let after := addChildDirs (FT := Fixture.recordingFiletree)
                 ["reports"; "img"; "reports"] Fixture.plainWallet
                 FolderExamples.docs_with_reports in
  dirChildren (fst after) = ["reports"; "img"]
  /\ forall x, In x (dirChildren (fst after))
               <-> In x ["reports"] \/ In x ["reports"; "img"; "reports"].
Proof.
  cbv zeta. split; [reflexivity|].
  refine (proj1 (proj2 (addChildDirs_children (FT := Fixture.recordingFiletree)
                          ["reports"; "img"; "reports"] Fixture.plainWallet
                          FolderExamples.docs_with_reports _ _ _))).
  reflexivity.
Defined.

Lemma addChildDirs_twice_witness :
  addChildDirs (FT := Fixture.recordingFiletree) ["reports"; "reports"]
    Fixture.plainWallet FolderExamples.docs_with_reports
  = (FolderExamples.docs_with_reports,
     Returned (FolderExamples.resultOf [] ["reports"; "reports"])).
Proof.
  refine (addChildDirs_twice (FT := Fixture.recordingFiletree)
            ["reports"; "reports"] Fixture.plainWallet FolderExamples.docs
            FolderExamples.docs_with_reports _ _).
  reflexivity.
Defined.

Section FolderFilesFacts.
Context `{FT : Filetree}.

(** X12. After [addChildFileReferences] a file name has the metadata
    given for it in [newFiles], or, when [newFiles] has none, the metadata
    it had; the child directories are untouched, and the call ends as
    [getForFiletree] of the updated folder ends. *)
Theorem addChildFileReferences_lookup (newFiles : gmap string IFileMeta)
    (walletRef : IWalletHandler) (this : FolderHandler) (name : string) :
  fileChildren (fst (addChildFileReferences newFiles walletRef this)) !! name
  = match newFiles !! name with
    | Some meta => Some meta
    | None => fileChildren this !! name
    end
  /\ dirChildren (fst (addChildFileReferences newFiles walletRef this))
     = dirChildren this
  /\ snd (addChildFileReferences newFiles walletRef this)
     = getForFiletree walletRef
         (fst (addChildFileReferences newFiles walletRef this)).
Proof.
  cbn [addChildFileReferences fst snd set_fileChildren fileChildren dirChildren].
  split; [|split; reflexivity].
  destruct (newFiles !! name) as [meta|] eqn:L.
  - apply lookup_union_Some_l. exact L.
  - apply lookup_union_r. exact L.
Qed.

Lemma deleteAll_lookup : forall names (files : gmap string IFileMeta) name,
  deleteAll names files !! name
  = if includes name names then None else files !! name.
Proof.
  induction names as [|n names IH]; intros files name; [reflexivity|].
  unfold deleteAll in *. cbn [fold_left]. rewrite IH.
  unfold includes. cbn [existsb].
  destruct (String.eqb_spec name n) as [->|Ne]; cbn [orb].
  - rewrite lookup_delete_eq. destruct (existsb _ names); reflexivity.
  - rewrite lookup_delete_ne by congruence. reflexivity.
Qed.

(** X13. After [removeChildFileReferences] a file name that was asked to
    be removed has no metadata, and every other name has the metadata it
    had; names that the folder does not have are passed over, so that
    removing only such names leaves the files as they were. The child
    directories are untouched. *)
Theorem removeChildFileReferences_lookup (toRemove : list string)
    (walletRef : IWalletHandler) (this : FolderHandler) :
  (forall name,
      fileChildren (fst (removeChildFileReferences toRemove walletRef this))
        !! name
      = if includes name toRemove then None else fileChildren this !! name)
  /\ ((forall name, In name toRemove -> fileChildren this !! name = None) ->
      fst (removeChildFileReferences toRemove walletRef this) = this)
  /\ dirChildren (fst (removeChildFileReferences toRemove walletRef this))
     = dirChildren this.
Proof.
  cbn [removeChildFileReferences fst set_fileChildren fileChildren dirChildren].
  split; [intros name; apply deleteAll_lookup|]. split; [|reflexivity].
  intros Absent.
  assert (E : deleteAll toRemove (fileChildren this) = fileChildren this).
  { apply map_eq. intros name. rewrite deleteAll_lookup.
    destruct (includes name toRemove) eqn:I; [|reflexivity].
    symmetry. apply Absent, includes_In. exact I. }
  unfold set_fileChildren. rewrite E. destruct this. reflexivity.
Qed.

(** X14. After [removeChildDirReferences] the child directories are those
    the folder had and that were not asked to be removed, in the order they
    had; names that the folder does not have are passed over, so that
    removing only such names leaves the list as it was. The files are
    untouched. *)
Theorem removeChildDirReferences_members (toRemove : list string)
    (walletRef : IWalletHandler) (this : FolderHandler) :
  dirChildren (fst (removeChildDirReferences toRemove walletRef this))
  = List.filter (fun saved => negb (includes saved toRemove))
      (dirChildren this)
  /\ (forall x,
         In x (dirChildren (fst (removeChildDirReferences toRemove walletRef this)))
         <-> In x (dirChildren this) /\ ~ In x toRemove)
  /\ ((forall x, In x toRemove -> ~ In x (dirChildren this)) ->
      fst (removeChildDirReferences toRemove walletRef this) = this)
  /\ (List.NoDup (dirChildren this) ->
      List.NoDup
        (dirChildren (fst (removeChildDirReferences toRemove walletRef this))))
  /\ fileChildren (fst (removeChildDirReferences toRemove walletRef this))
     = fileChildren this.
Proof.
  cbn [removeChildDirReferences fst set_dirChildren fileChildren dirChildren].
  split; [reflexivity|]. split; [|split; [|split; [|reflexivity]]].
  - intros x. rewrite List.filter_In, negb_true_iff, includes_not_In.
    reflexivity.
  - intros Absent. unfold set_dirChildren. rewrite filter_all.
    + destruct this. reflexivity.
    + intros x Hx. apply negb_true_iff, includes_not_In.
      intros Hr. exact (Absent x Hr Hx).
  - apply List.NoDup_filter.
Qed.

(** X15. [removeChildDirAndFileReferences] does what the two removals do
    one after the other, in either order: the child directories that were
    not asked to be removed stay, the file names that were asked to be
    removed lose their metadata, and the call ends as [getForFiletree] of
    the folder so updated ends. *)
Theorem removeChildDirAndFileReferences_both (dirs files : list string)
    (walletRef : IWalletHandler) (this : FolderHandler) :
  let after := removeChildDirAndFileReferences dirs files walletRef this in
  fst after
  = fst (removeChildFileReferences files walletRef
           (fst (removeChildDirReferences dirs walletRef this)))
  /\ fst after
     = fst (removeChildDirReferences dirs walletRef
              (fst (removeChildFileReferences files walletRef this)))
  /\ (forall x, In x (dirChildren (fst after))
                <-> In x (dirChildren this) /\ ~ In x dirs)
  /\ (forall name,
         fileChildren (fst after) !! name
         = if includes name files then None else fileChildren this !! name)
  /\ snd after = getForFiletree walletRef (fst after).
Proof.
  cbv zeta.
  cbn [removeChildDirAndFileReferences removeChildFileReferences
       removeChildDirReferences fst snd set_dirChildren set_fileChildren
       fileChildren dirChildren].
  split; [reflexivity|]. split; [reflexivity|]. split; [|split].
  - intros x. rewrite List.filter_In, negb_true_iff, includes_not_In.
    reflexivity.
  - intros name. apply deleteAll_lookup.
  - reflexivity.
Qed.

Lemma getForFiletree_without_signer walletRef (this : FolderHandler) :
  traits walletRef = false ->
  getForFiletree walletRef this
  = Thrown (SignerNotEnabled "FolderHandler" "getForFiletree").
Proof. intros T. unfold getForFiletree. rewrite T. reflexivity. Qed.

(** X16. With a wallet that is not a signing one the mutating methods
    throw, but not before they have changed the folder: the added files are
    in, the removed files and directories are out, and then the call throws
    from [getForFiletree]. [addChildDirs] is the exception: with a new name
    among those asked it throws before it changes the folder, and with no
    new name it returns without an error. *)
Theorem mutations_without_signer (walletRef : IWalletHandler)
    (this : FolderHandler) :
  traits walletRef = false ->
  let notEnabled := SignerNotEnabled "FolderHandler" "getForFiletree" in
  (forall newFiles,
      addChildFileReferences newFiles walletRef this
      = (set_fileChildren (newFiles ∪ fileChildren this) this,
         Thrown notEnabled))
  /\ (forall toRemove,
         removeChildFileReferences toRemove walletRef this
         = (set_fileChildren (deleteAll toRemove (fileChildren this)) this,
            Thrown notEnabled))
  /\ (forall toRemove,
         removeChildDirReferences toRemove walletRef this
         = (set_dirChildren
              (List.filter (fun saved => negb (includes saved toRemove))
                 (dirChildren this)) this,
            Thrown notEnabled))
  /\ (forall names,
         addChildDirs_more names this <> [] ->
         addChildDirs names walletRef this = (this, Thrown notEnabled))
  /\ (forall names,
         addChildDirs_more names this = [] ->
         addChildDirs names walletRef this
         = (this, Returned {| encoded := []; existing := names |})).
Proof.
  intros T notEnabled.
  split; [|split; [|split; [|split]]].
  - intros newFiles. unfold addChildFileReferences.
    rewrite getForFiletree_without_signer by exact T. reflexivity.
  - intros toRemove. unfold removeChildFileReferences.
    rewrite getForFiletree_without_signer by exact T. reflexivity.
  - intros toRemove. unfold removeChildDirReferences.
    rewrite getForFiletree_without_signer by exact T. reflexivity.
  - intros names M. unfold addChildDirs, addChildDirs_handlers.
    destruct (addChildDirs_more names this) as [|m more]; [contradiction|].
    cbn [List.map promiseAll].
    rewrite getForFiletree_without_signer by exact T. reflexivity.
  - intros names M. unfold addChildDirs, addChildDirs_handlers.
    rewrite M. cbn. unfold addChildDirs_existing.
    rewrite filter_all; [reflexivity|].
    intros x Hx. pose proof (filter_nil_inv _ _ M x Hx) as F.
    apply negb_false_iff in F. exact F.
Qed.

End FolderFilesFacts.

(** The folder [docs] with the child ["reports"], and a wallet that is
    not a signing one: removing the child throws, and the child is gone. *)
Lemma mutations_without_signer_witness :
  removeChildDirReferences (FT := Fixture.recordingFiletree) ["reports"]
    WalletFixture.queryOnly FolderExamples.docs_with_reports
  = (FolderExamples.docs,
     Thrown (SignerNotEnabled "FolderHandler" "getForFiletree"))
  /\ addChildDirs (FT := Fixture.recordingFiletree) ["img"]
       WalletFixture.queryOnly FolderExamples.docs_with_reports
     = (FolderExamples.docs_with_reports,
        Thrown (SignerNotEnabled "FolderHandler" "getForFiletree"))
  /\ addChildDirs (FT := Fixture.recordingFiletree) ["reports"]
       WalletFixture.queryOnly FolderExamples.docs_with_reports
     = (FolderExamples.docs_with_reports,
        Returned (FolderExamples.resultOf [] ["reports"])).
Proof.
  pose proof (mutations_without_signer (FT := Fixture.recordingFiletree)
                WalletFixture.queryOnly FolderExamples.docs_with_reports
                eq_refl) as (_ & _ & Hdirs & Hnew & Hold).
  split; [exact (Hdirs ["reports"])|]. split.
  - apply (Hnew ["img"]). discriminate.
  - apply (Hold ["reports"]). reflexivity.
Defined.

(** ** The writer's chunks and the size of the envelope *)

Section ChunkFacts.
Context `{SC : SubtleCrypto} `{JS : JSON} `{HH : Hashing}.

(** A slice that starts inside the buffer, followed by what lies after
    it, is what lies after its start. *)
Lemma Buffer_slice_rest (content : Buffer) (i cs : Z) :
  0 <= i < byteLength content -> 0 < cs ->
  Buffer_slice content (Num i) (Num (i + cs))
    ++ skipn (Z.to_nat (i + cs)) content
  = skipn (Z.to_nat i) content.
Proof.
  intros Hi Hcs. unfold Buffer_slice. cbn [adjustOffset].
  destruct (Z.ltb_spec i 0); [lia|].
  destruct (Z.ltb_spec i (byteLength content)); [|lia].
  destruct (Z.ltb_spec (i + cs) 0); [lia|].
  destruct (Z.ltb_spec (i + cs) (byteLength content)) as [Lt|Ge].
  - destruct (Z.ltb_spec i (i + cs)); [|lia].
    replace (Z.to_nat (i + cs - i)) with (Z.to_nat cs) by lia.
    replace (Z.to_nat (i + cs)) with (Z.to_nat cs + Z.to_nat i)%nat by lia.
    rewrite <- List.skipn_skipn. apply List.firstn_skipn.
  - destruct (Z.ltb_spec i (byteLength content)); [|lia].
    rewrite (List.skipn_all2 (n := Z.to_nat (i + cs)))
      by (unfold byteLength in *; lia).
    rewrite app_nil_r. apply List.firstn_all2.
    rewrite List.length_skipn. unfold byteLength in *. lia.
Qed.

(** The loop of the writer, when it returns: the frames it pushed are
    those of consecutive chunks of the content from position [i] on. *)
Lemma encryptChunks_plaintexts content key iv : forall fuel i fs arr,
  0 <= i ->
  snd (encryptChunks fuel content key iv i (unframes fs)) = Returned arr ->
  exists ps fs',
    arr = unframes (fs ++ fs')
    /\ Forall2 (frameOf key iv) ps fs'
    /\ List.concat ps = skipn (Z.to_nat i) content
    /\ Z.of_nat (List.length ps)
       = Z.max 0 (ceilDiv (byteLength content - i) chunkSize)
    /\ (forall k p,
           nth_error ps k = Some p ->
           p = Blob_slice content (i + Z.of_nat k * chunkSize)
                 (i + Z.of_nat k * chunkSize + chunkSize)
           /\ 0 < byteLength p <= chunkSize).
Proof.
  assert (Hc : 0 < chunkSize) by (rewrite chunkSize_value; lia).
  induction fuel as [|fuel IH]; intros i fs arr Hi; [discriminate|].
  cbn [encryptChunks].
  destruct (Z.ltb_spec i (byteLength content)) as [Lt|Ge].
  - pose proof (chunk_length content i (conj Hi Lt)) as Hlen.
    pose proof (Buffer_slice_rest content i chunkSize (conj Hi Lt) Hc) as Hrest.
    fold (Blob_slice content i (i + chunkSize)) in Hrest.
    set (bufChunk := Blob_slice content i (i + chunkSize)) in *.
    rewrite snd_bind.
    pose proof (ceilDiv_pos (byteLength content - i) chunkSize Hc ltac:(lia)) as Hq.
    pose proof (ceilDiv_step (byteLength content - i) chunkSize Hc) as Hstep.
    destruct (snd (aesCrypt bufChunk key iv (Some "encrypt")))
      as [c|e|] eqn:Ec; cbn [obind]; try discriminate.
    replace (unframes fs ++ [lengthHeader bufChunk; c])
      with (unframes (fs ++ [(lengthHeader bufChunk, c)]))
      by (rewrite unframes_app; reflexivity).
    intros E.
    destruct (IH (i + chunkSize) (fs ++ [(lengthHeader bufChunk, c)]) arr
                ltac:(lia) E) as (ps & fs' & -> & Hfr & Hcat & Hn & Hnth).
    exists (bufChunk :: ps), ((lengthHeader bufChunk, c) :: fs').
    split; [rewrite <- app_assoc; reflexivity|].
    split; [constructor; [split; [reflexivity|exact Ec]|exact Hfr]|].
    split; [cbn [List.concat]; rewrite Hcat; exact Hrest|].
    split.
    + cbn [List.length].
      replace (byteLength content - (i + chunkSize))
        with (byteLength content - i - chunkSize) in Hn by lia.
      rewrite Hstep in Hn. lia.
    + intros [|k] p Hp.
      * cbn [nth_error] in Hp. injection Hp as <-.
        change (Z.of_nat 0) with 0. rewrite Z.mul_0_l, Z.add_0_r.
        split; [reflexivity|exact Hlen].
      * cbn [nth_error] in Hp. destruct (Hnth k p Hp) as [-> Hb].
        split; [|exact Hb].
        replace (i + Z.of_nat (S k) * chunkSize)
          with (i + chunkSize + Z.of_nat k * chunkSize) by lia.
        reflexivity.
  - cbn [ret snd]. intros E. injection E as <-.
    exists [], []. split; [rewrite app_nil_r; reflexivity|].
    split; [constructor|]. split.
    + cbn [List.concat]. symmetry. apply List.skipn_all2.
      unfold byteLength in Ge. lia.
    + split.
      * pose proof (ceilDiv_nonpos (byteLength content - i) chunkSize Hc
                      ltac:(lia)).
        cbn [List.length]. lia.
      * intros k p Hp. destruct k; discriminate.
Qed.

(** The bytes of a list of frames under AES-GCM: those of the plaintexts
    and 24 more a frame, 8 of the header and 16 of the tag. *)
Lemma unframes_length {G : AesGcm SC} key iv : forall ps fs,
  Forall2 (frameOf key iv) ps fs ->
  Forall (fun p => 0 < byteLength p /\ byteLength p + 8 < 10 ^ 8) ps ->
  byteLength (List.concat (unframes fs))
  = byteLength (List.concat ps) + 24 * Z.of_nat (List.length fs).
Proof.
  induction 1 as [|p [h c] ps fs [Hh Hc] _ IH]; intros Hall.
  - reflexivity.
  - inversion Hall as [|? ? [Hp Hlt] Hall']; subst.
    specialize (IH Hall'). cbn [fst snd] in Hh, Hc.
    assert (Hne : p <> [])
      by (intros ->; unfold byteLength in Hp; cbn [List.length] in Hp; lia).
    pose proof (aesCrypt_encrypt_length p c key iv Hne Hc) as Lc.
    destruct (lengthHeader_reads p Hlt) as (L8 & _ & _). rewrite <- Hh in L8.
    cbn [unframes List.concat List.length].
    unfold byteLength in *. rewrite !length_app. lia.
Qed.

(** What a call of [convertToEncryptedFile] that returns has done. *)
Lemma convertToEncryptedFile_returned (fuel : nat) (now : Z)
    (workingFile : File) (key : CryptoKey) (iv : Buffer) (f : File) :
  snd (convertToEncryptedFile fuel now workingFile key iv) = Returned f ->
  exists c ps fs,
    snd (aesCrypt (Buffer_from (JSON_stringify (detailsOf workingFile)))
           key iv (Some "encrypt")) = Returned c
    /\ file_content f
       = List.concat
           (unframes
              ((lengthHeader
                  (Buffer_from (JSON_stringify (detailsOf workingFile))), c)
               :: fs))
    /\ Forall2 (frameOf key iv) ps fs
    /\ List.concat ps = file_content workingFile
    /\ Z.of_nat (List.length ps)
       = Z.max 0 (ceilDiv (file_size workingFile) chunkSize)
    /\ (forall k p,
           nth_error ps k = Some p ->
           p = Blob_slice (file_content workingFile)
                 (Z.of_nat k * chunkSize) (Z.of_nat k * chunkSize + chunkSize)
           /\ 0 < byteLength p <= chunkSize)
    /\ file_name f
       = (hashAndHex (file_name workingFile ++ Number_toString now)
          ++ ".jkl")%string
    /\ file_type f = "text/plain".
Proof.
  unfold convertToEncryptedFile. rewrite snd_bind.
  destruct (snd (encryptedArrayOf fuel workingFile key iv))
    as [arr|e|] eqn:Earr; cbn [obind]; try discriminate.
  intros E. cbn in E. injection E as <-. cbn [file_content file_name file_type].
  unfold encryptedArrayOf in Earr. rewrite snd_bind in Earr.
  set (detailsBuf := Buffer_from (JSON_stringify (detailsOf workingFile))) in *.
  destruct (snd (aesCrypt detailsBuf key iv (Some "encrypt")))
    as [c|e|] eqn:Ec; cbn [obind] in Earr; try discriminate.
  destruct (encryptChunks_plaintexts (file_content workingFile) key iv fuel 0
              [(lengthHeader detailsBuf, c)] arr ltac:(lia) Earr)
    as (ps & fs & -> & Hfr & Hcat & Hn & Hnth).
  exists c, ps, fs.
  split; [reflexivity|]. split; [reflexivity|].
  split; [exact Hfr|]. split; [exact Hcat|].
  split; [rewrite Z.sub_0_r in Hn; exact Hn|].
  split; [|split; reflexivity].
  intros k p Hp. exact (Hnth k p Hp).
Qed.

(** A rejection thrown by an encrypting [aesCrypt] is the cipher's, on
    that very buffer. *)
Lemma aesCrypt_encrypt_thrown (p : Buffer) (key : CryptoKey) (iv : Buffer)
    (e : JSError) :
  snd (aesCrypt p key iv (Some "encrypt")) = Thrown e ->
  exists err, e = SubtleRejected err /\ subtle_encrypt iv key p = inl err.
Proof.
  unfold aesCrypt. destruct (byteLength p <? 1); [discriminate|].
  cbn [mode_is_encrypt toLowerCase]. simpl.
  destruct (subtle_encrypt iv key p) as [err|c]; simpl; intros H;
    [|discriminate].
  injection H as <-. exists err. split; reflexivity.
Qed.

(** The loop of the writer, given enough rounds, returns or throws the
    cipher's rejection of one of the chunks. *)
Lemma encryptChunks_outcome content key iv : forall fuel i arr,
  0 <= i ->
  (Z.to_nat (ceilDiv (byteLength content - i) chunkSize) < fuel)%nat ->
  match snd (encryptChunks fuel content key iv i arr) with
  | Returned _ => True
  | Thrown e =>
      exists err (k : nat),
        e = SubtleRejected err
        /\ i + Z.of_nat k * chunkSize < byteLength content
        /\ subtle_encrypt iv key
             (Blob_slice content (i + Z.of_nat k * chunkSize)
                (i + Z.of_nat k * chunkSize + chunkSize)) = inl err
  | OutOfFuel => False
  end.
Proof.
  assert (Hc : 0 < chunkSize) by (rewrite chunkSize_value; lia).
  induction fuel as [|fuel IH]; intros i arr Hi Hfuel; [lia|].
  cbn [encryptChunks].
  destruct (Z.ltb_spec i (byteLength content)) as [Lt|Ge]; [|exact I].
  set (bufChunk := Blob_slice content i (i + chunkSize)).
  rewrite snd_bind.
  pose proof (ceilDiv_pos (byteLength content - i) chunkSize Hc ltac:(lia)) as Hq.
  pose proof (ceilDiv_step (byteLength content - i) chunkSize Hc) as Hstep.
  destruct (snd (aesCrypt bufChunk key iv (Some "encrypt")))
    as [c|e|] eqn:Ec; cbn [obind].
  - specialize (IH (i + chunkSize) (arr ++ [lengthHeader bufChunk; c])).
    replace (byteLength content - (i + chunkSize))
      with (byteLength content - i - chunkSize) in IH by lia.
    rewrite Hstep in IH. specialize (IH ltac:(lia) ltac:(lia)).
    destruct (snd (encryptChunks fuel content key iv (i + chunkSize) _))
      as [arr'|e|]; try exact IH.
    destruct IH as (err & k & -> & Hk & Hrej).
    exists err, (S k). split; [reflexivity|].
    replace (i + Z.of_nat (S k) * chunkSize)
      with (i + chunkSize + Z.of_nat k * chunkSize) by lia.
    split; [exact Hk|exact Hrej].
  - destruct (aesCrypt_encrypt_thrown _ _ _ _ Ec) as (err & -> & Hrej).
    exists err, 0%nat. split; [reflexivity|].
    change (Z.of_nat 0) with 0. rewrite Z.mul_0_l, Z.add_0_r.
    split; [exact Lt|exact Hrej].
  - destruct (aesCrypt_outcome bufChunk key iv (Some "encrypt"))
      as [[? E]|[? E]]; rewrite E in Ec; discriminate.
Qed.

(** [convertToEncryptedFile], given enough rounds for its loop, returns
    or throws the cipher's rejection of one of the buffers it encrypts. *)
Lemma convertToEncryptedFile_outcome (fuel : nat) (now : Z)
    (workingFile : File) (key : CryptoKey) (iv : Buffer) :
  (Z.to_nat (ceilDiv (file_size workingFile) chunkSize) < fuel)%nat ->
  match snd (convertToEncryptedFile fuel now workingFile key iv) with
  | Returned _ => True
  | Thrown e =>
      exists err p,
        e = SubtleRejected err
        /\ writerPlaintext workingFile p
        /\ subtle_encrypt iv key p = inl err
  | OutOfFuel => False
  end.
Proof.
  intros Hfuel. unfold convertToEncryptedFile, encryptedArrayOf.
  rewrite !snd_bind.
  set (detailsBuf := Buffer_from (JSON_stringify (detailsOf workingFile))).
  destruct (snd (aesCrypt detailsBuf key iv (Some "encrypt")))
    as [c|e|] eqn:Ec; cbn [obind].
  - pose proof (encryptChunks_outcome (file_content workingFile) key iv fuel 0
                  [lengthHeader detailsBuf; c] ltac:(lia)) as H.
    unfold file_size in *. rewrite Z.sub_0_r in H. specialize (H Hfuel).
    destruct (snd (encryptChunks fuel (file_content workingFile) key iv 0 _))
      as [arr|e|]; cbn; try exact H.
    destruct H as (err & k & -> & Hk & Hrej).
    exists err. eexists. split; [reflexivity|]. split; [|exact Hrej].
    right. exists k. rewrite Z.add_0_l in Hk. split; [exact Hk|reflexivity].
  - destruct (aesCrypt_encrypt_thrown _ _ _ _ Ec) as (err & -> & Hrej).
    exists err, detailsBuf. split; [reflexivity|].
    split; [left; reflexivity|exact Hrej].
  - destruct (aesCrypt_outcome detailsBuf key iv (Some "encrypt"))
      as [[? E]|[? E]]; rewrite E in Ec; discriminate.
Qed.

(** C5. Given enough iterations for the loop, [convertToEncryptedFile]
    returns a file unless the cipher rejects one of the buffers it is
    given, the metadata text or a chunk, and then that rejection is thrown.
    The bytes of the returned file are the frames, header and ciphertext,
    of the metadata text and of the consecutive chunks of [chunkSize] bytes
    of the content, and of nothing else: [ceil(size / chunkSize) + 1]
    frames, and for a file of size 0 the metadata frame alone. A chunk is
    32 MiB. *)
Theorem convertToEncryptedFile_frame_count (fuel : nat) (now : Z)
    (workingFile : File) (key : CryptoKey) (iv : Buffer) :
  (Z.to_nat (ceilDiv (file_size workingFile) chunkSize) < fuel)%nat ->
  chunkSize = 32 * 1024 * 1024
  /\
  match snd (convertToEncryptedFile fuel now workingFile key iv) with
  | Returned f =>
      exists meta ps fs,
        file_content f = List.concat (unframes (meta :: fs))
        /\ frameOf key iv
             (Buffer_from (JSON_stringify (detailsOf workingFile))) meta
        /\ Forall2 (frameOf key iv) ps fs
        /\ List.concat ps = file_content workingFile
        /\ (forall k p,
               nth_error ps k = Some p ->
               p = Blob_slice (file_content workingFile)
                     (Z.of_nat k * chunkSize)
                     (Z.of_nat k * chunkSize + chunkSize)
               /\ 0 < byteLength p <= chunkSize)
        /\ Z.of_nat (List.length (meta :: fs))
           = ceilDiv (file_size workingFile) chunkSize + 1
        /\ (file_size workingFile = 0 -> fs = [])
  | Thrown e =>
      exists err p,
        e = SubtleRejected err
        /\ writerPlaintext workingFile p
        /\ subtle_encrypt iv key p = inl err
  | OutOfFuel => False
  end.
Proof.
  intros Hfuel. split; [reflexivity|].
  pose proof (convertToEncryptedFile_outcome fuel now workingFile key iv Hfuel)
    as H.
  destruct (snd (convertToEncryptedFile fuel now workingFile key iv))
    as [f|e|] eqn:E; try exact H.
  destruct (convertToEncryptedFile_returned fuel now workingFile key iv f E)
    as (c & ps & fs & Ec & Hc & Hfr & Hcat & Hn & Hnth & _ & _).
  exists (lengthHeader (Buffer_from (JSON_stringify (detailsOf workingFile))),
          c), ps, fs.
  split; [exact Hc|]. split; [split; [reflexivity|exact Ec]|].
  split; [exact Hfr|]. split; [exact Hcat|]. split; [exact Hnth|].
  assert (Hlen : List.length fs = List.length ps)
    by (symmetry; eapply Forall2_length; exact Hfr).
  assert (Hpos : 0 <= ceilDiv (file_size workingFile) chunkSize).
  { unfold ceilDiv. apply Z.div_pos; [|rewrite chunkSize_value; lia].
    pose proof (byteLength_nonneg (file_content workingFile)).
    unfold file_size. rewrite chunkSize_value. lia. }
  split.
  - cbn [List.length]. rewrite Hlen. lia.
  - intros Hz. rewrite Hz in Hn. change (ceilDiv 0 chunkSize) with 0 in Hn.
    destruct fs; [reflexivity|]. cbn [List.length] in Hlen. 
    rewrite <- Hlen in Hn. cbn [List.length] in Hn. lia.
Qed.

(** C2, at the code. With AES-GCM as the cipher, a metadata text that is
    not empty and is shorter than 99999992 bytes, and enough iterations for
    the loop, [convertToEncryptedFile] returns a file unless the cipher
    rejects one of the buffers it is given. The returned file is the frames
    of the metadata text and of the chunks of the content, and the header
    of every frame is eight zero-padded decimal digits whose value is the
    byte length of that frame's ciphertext minus 8: the length of the
    plaintext plus 8. It is not the length of the ciphertext plus 8. *)
Theorem convertToEncryptedFile_headers {G : AesGcm SC} (fuel : nat) (now : Z)
    (workingFile : File) (key : CryptoKey) (iv : Buffer) :
  (Z.to_nat (ceilDiv (file_size workingFile) chunkSize) < fuel)%nat ->
  (0 < strlen (JSON_stringify (detailsOf workingFile)))%nat ->
  Z.of_nat (strlen (JSON_stringify (detailsOf workingFile))) + 8 < 10 ^ 8 ->
  match snd (convertToEncryptedFile fuel now workingFile key iv) with
  | Returned f =>
      exists ps fs,
        file_content f = List.concat (unframes fs)
        /\ Forall2 (frameOf key iv)
             (Buffer_from (JSON_stringify (detailsOf workingFile)) :: ps) fs
        /\ List.concat ps = file_content workingFile
        /\ Forall
             (fun fr =>
                headerReads (fst fr) (byteLength (snd fr) - 8)
                /\ ~ headerReads (fst fr) (byteLength (snd fr) + 8))
             fs
  | Thrown e =>
      exists err p,
        e = SubtleRejected err
        /\ writerPlaintext workingFile p
        /\ subtle_encrypt iv key p = inl err
  | OutOfFuel => False
  end.
Proof.
  intros Hfuel Hne Hjson.
  pose proof (convertToEncryptedFile_outcome fuel now workingFile key iv Hfuel)
    as H.
  destruct (snd (convertToEncryptedFile fuel now workingFile key iv))
    as [f|e|] eqn:E; try exact H.
  destruct (convertToEncryptedFile_returned fuel now workingFile key iv f E)
    as (c & ps & fs & Ec & Hc & Hfr & Hcat & _ & Hnth & _ & _).
  set (detailsBuf := Buffer_from (JSON_stringify (detailsOf workingFile))) in *.
  exists ps, ((lengthHeader detailsBuf, c) :: fs).
  split; [exact Hc|].
  assert (Hall : Forall2 (frameOf key iv) (detailsBuf :: ps)
                   ((lengthHeader detailsBuf, c) :: fs))
    by (constructor; [split; [reflexivity|exact Ec]|exact Hfr]).
  split; [exact Hall|]. split; [exact Hcat|].
  assert (Hps : Forall (fun p => 0 < byteLength p /\ byteLength p + 8 < 10 ^ 8)
                  (detailsBuf :: ps)).
  { constructor.
    - unfold detailsBuf, byteLength. rewrite Buffer_from_length.
      unfold strlen in *. lia.
    - apply List.Forall_forall. intros p Hp.
      destruct (List.In_nth_error _ _ Hp) as [k Hk].
      destruct (Hnth k p Hk) as [_ Hb]. rewrite chunkSize_value in Hb. lia. }
  clear - G Hall Hps.
  induction Hall as [|p fr ps' fs' [Hh Hcp] _ IH]; [constructor|].
  inversion Hps as [|? ? [Hp Hlt] Hps']; subst.
  constructor; [|exact (IH Hps')].
  assert (Hnil : p <> [])
    by (intros ->; unfold byteLength in Hp; cbn [List.length] in Hp; lia).
  pose proof (aesCrypt_encrypt_length p (snd fr) key iv Hnil Hcp) as Lc.
  pose proof (lengthHeader_reads p Hlt) as Hr.
  rewrite <- Hh, Lc in Hr. split; [exact Hr|].
  intros (_ & _ & Hn). destruct Hr as (_ & _ & Hn').
  rewrite Hn' in Hn. injection Hn. lia.
Qed.

(** X17. When [convertToEncryptedFile] returns, the frames after the
    metadata frame are the header and ciphertext of consecutive chunks of
    the file's bytes: the frame of index [k] is that of the bytes from
    [k * chunkSize] up to [(k + 1) * chunkSize], and the chunks put
    together are the file's bytes, nothing left out, repeated or moved. The
    returned file is named by the hash and has the type [text/plain]. *)
Theorem convertToEncryptedFile_chunks (fuel : nat) (now : Z)
    (workingFile : File) (key : CryptoKey) (iv : Buffer) (f : File) :
  snd (convertToEncryptedFile fuel now workingFile key iv) = Returned f ->
  exists meta ps fs,
    file_content f = List.concat (unframes (meta :: fs))
    /\ frameOf key iv
         (Buffer_from (JSON_stringify (detailsOf workingFile))) meta
    /\ Forall2 (frameOf key iv) ps fs
    /\ List.concat ps = file_content workingFile
    /\ (forall k p,
           nth_error ps k = Some p ->
           p = Blob_slice (file_content workingFile)
                 (Z.of_nat k * chunkSize) (Z.of_nat k * chunkSize + chunkSize)
           /\ 0 < byteLength p <= chunkSize)
    /\ file_name f
       = (hashAndHex (file_name workingFile ++ Number_toString now)
          ++ ".jkl")%string
    /\ file_type f = "text/plain".
Proof.
  intros E.
  destruct (convertToEncryptedFile_returned fuel now workingFile key iv f E)
    as (c & ps & fs & Ec & Hc & Hfr & Hcat & _ & Hnth & Hname & Htype).
  exists (lengthHeader (Buffer_from (JSON_stringify (detailsOf workingFile))),
          c), ps, fs.
  split; [exact Hc|]. split; [split; [reflexivity|exact Ec]|].
  split; [exact Hfr|]. split; [exact Hcat|].
  split; [exact Hnth|]. split; [exact Hname|exact Htype].
Qed.

(** X18. With AES-GCM as the cipher, and a metadata text that is not
    empty and shorter than 99999992 bytes, the file that
    [convertToEncryptedFile] returns has the bytes of the metadata text and
    of the content and 24 more for each frame: 8 of the header and 16 of
    the tag, for [ceil(size / chunkSize) + 1] frames. *)
Theorem convertToEncryptedFile_size {G : AesGcm SC} (fuel : nat) (now : Z)
    (workingFile : File) (key : CryptoKey) (iv : Buffer) (f : File) :
  JSON_stringify (detailsOf workingFile) <> EmptyString ->
  Z.of_nat (strlen (JSON_stringify (detailsOf workingFile))) + 8 < 10 ^ 8 ->
  snd (convertToEncryptedFile fuel now workingFile key iv) = Returned f ->
  file_size f
  = Z.of_nat (strlen (JSON_stringify (detailsOf workingFile)))
    + file_size workingFile
    + 24 * (ceilDiv (file_size workingFile) chunkSize + 1).
Proof.
  intros Hne Hlt E.
  assert (Hc : 0 < chunkSize) by (rewrite chunkSize_value; lia).
  destruct (convertToEncryptedFile_returned fuel now workingFile key iv f E)
    as (c & ps & fs & Ec & Hf & Hfr & Hcat & Hn & Hnth & _).
  set (json := JSON_stringify (detailsOf workingFile)) in *.
  assert (Hjson : byteLength (Buffer_from json) = Z.of_nat (strlen json))
    by (unfold byteLength; rewrite Buffer_from_length; reflexivity).
  assert (Hpos : 0 < Z.of_nat (strlen json)).
  { destruct json; [contradiction|]. cbn. lia. }
  unfold file_size at 1. rewrite Hf.
  rewrite (unframes_length key iv (Buffer_from json :: ps)
             ((lengthHeader (Buffer_from json), c) :: fs)).
  - cbn [List.concat List.length]. rewrite Hcat.
    pose proof (List.Forall2_length Hfr) as Hlen.
    assert (0 <= ceilDiv (file_size workingFile) chunkSize).
    { unfold ceilDiv. apply Z.div_pos; [|lia].
      pose proof (byteLength_nonneg (file_content workingFile)).
      unfold file_size. lia. }
    unfold file_size, byteLength in *. rewrite length_app. lia.
  - constructor; [split; [reflexivity|exact Ec]|exact Hfr].
  - constructor; [lia|].
    apply List.Forall_forall. intros p Hp.
    apply List.In_nth_error in Hp. destruct Hp as [k Hk].
    destruct (Hnth k p Hk) as [_ Hb]. rewrite chunkSize_value in Hb. lia.
Qed.

End ChunkFacts.

(** The 5-byte file: the loop runs once, and the envelope is the metadata
    frame and one content frame. *)
Lemma convertToEncryptedFile_frame_count_witness :
  chunkSize = 32 * 1024 * 1024
  /\
  match snd (convertToEncryptedFile (SC := Fixture.xorGcm)
               (JS := Fixture.tableJSON) (HH := Fixture.tagHashing)
               2 1700000000001 EncodeExamples.notesFile
               EncodeExamples.key EncodeExamples.iv) with
  | Returned f =>
      exists meta ps fs,
        file_content f = List.concat (unframes (meta :: fs))
        /\ frameOf (SC := Fixture.xorGcm) EncodeExamples.key EncodeExamples.iv
             (Buffer_from
                (JSON_stringify (JSON := Fixture.tableJSON)
                   (detailsOf EncodeExamples.notesFile))) meta
        /\ Forall2
             (frameOf (SC := Fixture.xorGcm) EncodeExamples.key
                EncodeExamples.iv) ps fs
        /\ List.concat ps = file_content EncodeExamples.notesFile
        /\ (forall k p,
               nth_error ps k = Some p ->
               p = Blob_slice (file_content EncodeExamples.notesFile)
                     (Z.of_nat k * chunkSize)
                     (Z.of_nat k * chunkSize + chunkSize)
               /\ 0 < byteLength p <= chunkSize)
        /\ Z.of_nat (List.length (meta :: fs))
           = ceilDiv (file_size EncodeExamples.notesFile) chunkSize + 1
        /\ (file_size EncodeExamples.notesFile = 0 -> fs = [])
  | Thrown e =>
      exists err p,
        e = SubtleRejected err
        /\ writerPlaintext (JS := Fixture.tableJSON)
             EncodeExamples.notesFile p
        /\ subtle_encrypt (SubtleCrypto := Fixture.xorGcm)
             EncodeExamples.iv EncodeExamples.key p = inl err
  | OutOfFuel => False
  end.
Proof.
  apply (convertToEncryptedFile_frame_count (SC := Fixture.xorGcm)
           (JS := Fixture.tableJSON) (HH := Fixture.tagHashing)
           2 1700000000001 EncodeExamples.notesFile
           EncodeExamples.key EncodeExamples.iv).
  vm_compute. lia.
Defined.

(** The 5-byte file under the stand-in for AES-GCM. *)
Lemma convertToEncryptedFile_headers_witness :
  match snd (convertToEncryptedFile (SC := Fixture.xorGcm)
               (JS := Fixture.tableJSON) (HH := Fixture.tagHashing)
               2 1700000000001 EncodeExamples.notesFile
               EncodeExamples.key EncodeExamples.iv) with
  | Returned f =>
      exists ps fs,
        file_content f = List.concat (unframes fs)
        /\ Forall2
             (frameOf (SC := Fixture.xorGcm) EncodeExamples.key
                EncodeExamples.iv)
             (Buffer_from
                (JSON_stringify (JSON := Fixture.tableJSON)
                   (detailsOf EncodeExamples.notesFile)) :: ps) fs
        /\ List.concat ps = file_content EncodeExamples.notesFile
        /\ Forall
             (fun fr =>
                headerReads (fst fr) (byteLength (snd fr) - 8)
                /\ ~ headerReads (fst fr) (byteLength (snd fr) + 8))
             fs
  | Thrown e =>
      exists err p,
        e = SubtleRejected err
        /\ writerPlaintext (JS := Fixture.tableJSON)
             EncodeExamples.notesFile p
        /\ subtle_encrypt (SubtleCrypto := Fixture.xorGcm)
             EncodeExamples.iv EncodeExamples.key p = inl err
  | OutOfFuel => False
  end.
Proof.
  apply (convertToEncryptedFile_headers (SC := Fixture.xorGcm)
           (JS := Fixture.tableJSON) (HH := Fixture.tagHashing)
           (G := FixtureFacts.xorGcm_laws)
           2 1700000000001 EncodeExamples.notesFile
           EncodeExamples.key EncodeExamples.iv).
  - vm_compute. lia.
  - vm_compute. lia.
  - vm_compute. reflexivity.
Defined.

(** The 5-byte file, evaluated: the header of the metadata frame reads 86
    before a ciphertext of 94 bytes, and the header of the content frame
    reads 13 before a ciphertext of 21 bytes, where the ciphertext's length
    plus 8 is 29. *)
Example convertToEncryptedFile_notes_headers :
  match snd (encryptedArrayOf (SC := Fixture.xorGcm) (JS := Fixture.tableJSON)
               2 EncodeExamples.notesFile EncodeExamples.key EncodeExamples.iv) with
  | Returned [h0; c0; h; c] =>
      Buffer_toString h0 = "00000086" /\ byteLength c0 = 94
      /\ Buffer_toString h = "00000013" /\ byteLength c = 21
      /\ Number (Buffer_toString h) <> Num (byteLength c + 8)
  | _ => False
  end.
Proof. vm_compute. repeat split; discriminate. Qed.


(** The 5-byte file: one content frame, of the five bytes. *)
Lemma convertToEncryptedFile_chunks_witness :
  exists f meta ps fs,
    snd (convertToEncryptedFile (SC := Fixture.xorGcm)
           (JS := Fixture.tableJSON) (HH := Fixture.tagHashing)
           2 1700000000001 EncodeExamples.notesFile
           EncodeExamples.key EncodeExamples.iv) = Returned f
    /\ file_content f = List.concat (unframes (meta :: fs))
    /\ Forall2 (frameOf (SC := Fixture.xorGcm) EncodeExamples.key
                  EncodeExamples.iv) ps fs
    /\ List.concat ps = Buffer_from "hello".
Proof.
  eexists.
  destruct (convertToEncryptedFile_chunks (SC := Fixture.xorGcm)
              (JS := Fixture.tableJSON) (HH := Fixture.tagHashing)
              2 1700000000001 EncodeExamples.notesFile
              EncodeExamples.key EncodeExamples.iv _ eq_refl)
    as (meta & ps & fs & Hc & _ & Hfr & Hcat & _).
  exists meta, ps, fs.
  split; [reflexivity|]. split; [exact Hc|]. split; [exact Hfr|exact Hcat].
Defined.

(** The 5-byte file with its 78 bytes of metadata text: two frames, 131
    bytes. *)
Lemma convertToEncryptedFile_size_witness :
  exists f,
    snd (convertToEncryptedFile (SC := Fixture.xorGcm)
           (JS := Fixture.tableJSON) (HH := Fixture.tagHashing)
           2 1700000000001 EncodeExamples.notesFile
           EncodeExamples.key EncodeExamples.iv) = Returned f
    /\ file_size f = 78 + 5 + 24 * 2.
Proof.
  eexists. split; [reflexivity|].
  apply (convertToEncryptedFile_size (SC := Fixture.xorGcm)
           (JS := Fixture.tableJSON) (HH := Fixture.tagHashing)
           (G := FixtureFacts.xorGcm_laws)
           2 1700000000001 EncodeExamples.notesFile
           EncodeExamples.key EncodeExamples.iv).
  - discriminate.
  - vm_compute. reflexivity.
  - reflexivity.
Defined.

(** ** The reader on framed segments *)

Section ReaderFacts.
Context `{SC : SubtleCrypto} `{JS : JSON} `{HH : Hashing}.

Lemma byteLength_app (a b : Buffer) :
  byteLength (a ++ b) = byteLength a + byteLength b.
Proof. unfold byteLength. rewrite length_app. lia. Qed.

(** The slice that spans a part of a buffer is that part. *)
Lemma Buffer_slice_mid (pre x post : Buffer) :
  Buffer_slice (pre ++ x ++ post) (Num (byteLength pre))
    (Num (byteLength pre + byteLength x)) = x.
Proof.
  unfold Buffer_slice. cbn [adjustOffset].
  rewrite !byteLength_app.
  pose proof (byteLength_nonneg pre). pose proof (byteLength_nonneg x).
  pose proof (byteLength_nonneg post).
  destruct (Z.ltb_spec (byteLength pre) 0); [lia|].
  destruct (Z.ltb_spec (byteLength pre + byteLength x) 0); [lia|].
  assert (Hs : (if byteLength pre
                   <? byteLength pre + (byteLength x + byteLength post)
                then byteLength pre
                else byteLength pre + (byteLength x + byteLength post))
               = byteLength pre)
    by (destruct (Z.ltb_spec (byteLength pre)
                    (byteLength pre + (byteLength x + byteLength post))); lia).
  assert (He : (if byteLength pre + byteLength x
                   <? byteLength pre + (byteLength x + byteLength post)
                then byteLength pre + byteLength x
                else byteLength pre + (byteLength x + byteLength post))
               = byteLength pre + byteLength x)
    by (destruct (Z.ltb_spec (byteLength pre + byteLength x)
                    (byteLength pre + (byteLength x + byteLength post))); lia).
  rewrite Hs, He.
  assert (Hn : Z.to_nat (if byteLength pre <? byteLength pre + byteLength x
                         then byteLength pre + byteLength x - byteLength pre
                         else 0) = List.length x)
    by (destruct (Z.ltb_spec (byteLength pre) (byteLength pre + byteLength x));
        unfold byteLength in *; lia).
  rewrite Hn. unfold byteLength. rewrite Nat2Z.id.
  rewrite drop_app_length. apply take_app_length.
Qed.

(** One frame in an envelope, as the loop reads it: a header that reads
    [n], and the [n] bytes after it. *)
Lemma frame_read (pre h x post : Buffer) (n : Z) :
  headerReads h n ->
  byteLength x = n ->
  js_lt (Num (byteLength pre)) (byteLength (pre ++ h ++ x ++ post)) = true
  /\ headerAt (pre ++ h ++ x ++ post) (Num (byteLength pre)) = Num n
  /\ segmentAt (pre ++ h ++ x ++ post) (Num (byteLength pre)) (Num n) = x.
Proof.
  intros (L8 & _ & Hnum) Hx.
  assert (H8 : byteLength h = 8) by (unfold byteLength; rewrite L8; reflexivity).
  split; [|split].
  - cbn [js_lt]. rewrite !byteLength_app.
    pose proof (byteLength_nonneg x). pose proof (byteLength_nonneg post).
    apply Z.ltb_lt. lia.
  - unfold headerAt. cbn [js_add]. rewrite <- H8.
    rewrite Buffer_slice_mid. exact Hnum.
  - unfold segmentAt. cbn [js_add]. rewrite <- H8, <- Hx.
    rewrite <- byteLength_app.
    rewrite (app_assoc pre h (x ++ post)).
    apply Buffer_slice_mid.
Qed.

Lemma exactHeader_reads (seg : Buffer) :
  byteLength seg < 10 ^ 8 -> headerReads (exactHeader seg) (byteLength seg).
Proof.
  intros Hlt. unfold headerReads, exactHeader.
  destruct (padStart_header (byteLength seg) (byteLength_nonneg seg))
    as (D & N & L).
  rewrite Buffer_from_length, Buffer_toString_from
    by exact (digits_ascii _ D).
  split; [exact (L Hlt)|]. split; [exact D|apply N; lia].
Qed.

(** One round of the loop on a frame. *)
Lemma decodeFrom_frame (pre seg post : Buffer) key iv d ps fuel :
  accepted key iv seg ->
  decodeFrom (S fuel) (pre ++ readerFrame seg ++ post) key iv
    {| walk_i := Num (byteLength pre);
       walk_detailsBuf := d;
       walk_bufParts := ps |}
  = decodeFrom fuel (pre ++ readerFrame seg ++ post) key iv
      {| walk_i := Num (byteLength (pre ++ readerFrame seg));
         walk_detailsBuf := if byteLength pre =? 0 then seg else d;
         walk_bufParts := if byteLength pre =? 0 then ps else ps ++ [seg] |}.
Proof.
  intros (Hlt & plain & Hd).
  unfold readerFrame. rewrite <- (app_assoc (exactHeader seg) seg post).
  destruct (frame_read pre (exactHeader seg) seg post (byteLength seg)
              (exactHeader_reads seg Hlt) eq_refl) as (Hi & Hh & Hs).
  set (source := pre ++ exactHeader seg ++ seg ++ post) in *.
  rewrite <- Hs in Hd.
  pose proof (walk_frame source key iv (Num (byteLength pre)) d ps
                (Num (byteLength seg)) plain Hi Hh Hd) as W.
  rewrite (decodeFrom_step _ _ _ _ _ fuel W).
  rewrite Hs. cbn [js_add js_is_zero].
  destruct (exactHeader_reads seg Hlt) as (L8 & _ & _).
  replace (byteLength (pre ++ exactHeader seg ++ seg))
    with (byteLength pre + 8 + byteLength seg); [reflexivity|].
  rewrite !byteLength_app. unfold byteLength at 4. rewrite L8. lia.
Qed.

(** The rounds of the loop on a run of frames that is not at the start of
    the envelope. *)
Lemma decodeFrom_frames key iv : forall segs pre d ps fuel,
  pre <> [] ->
  Forall (accepted key iv) segs ->
  decodeFrom (List.length segs + fuel)
    (pre ++ List.concat (List.map readerFrame segs)) key iv
    {| walk_i := Num (byteLength pre);
       walk_detailsBuf := d;
       walk_bufParts := ps |}
  = decodeFrom fuel (pre ++ List.concat (List.map readerFrame segs)) key iv
      {| walk_i :=
           Num (byteLength (pre ++ List.concat (List.map readerFrame segs)));
         walk_detailsBuf := d;
         walk_bufParts := ps ++ segs |}.
Proof.
  induction segs as [|seg segs IH]; intros pre d ps fuel Hpre Hall.
  - cbn [List.map List.concat List.length Nat.add]. rewrite !app_nil_r.
    reflexivity.
  - inversion Hall as [|? ? Hseg Hrest]; subst.
    cbn [List.map List.concat List.length Nat.add].
    rewrite (decodeFrom_frame pre seg _ key iv d ps _ Hseg).
    assert (Hz : (byteLength pre =? 0) = false).
    { apply Z.eqb_neq. destruct pre; [contradiction|].
      unfold byteLength. cbn [List.length]. lia. }
    rewrite Hz.
    rewrite (app_assoc pre (readerFrame seg)).
    rewrite (IH (pre ++ readerFrame seg) d (ps ++ [seg]) fuel).
    + rewrite <- (app_assoc ps [seg] segs). reflexivity.
    + destruct pre; [contradiction|discriminate].
    + exact Hrest.
Qed.

(** The loop is left when the position is the end of the envelope. *)
Lemma decodeFrom_end source key iv d ps fuel :
  decodeFrom (S fuel) source key iv
    {| walk_i := Num (byteLength source);
       walk_detailsBuf := d;
       walk_bufParts := ps |}
  = Returned (d, ps).
Proof.
  unfold decodeFrom.
  cbn [decodeSegments walk_i walk_detailsBuf walk_bufParts js_lt].
  rewrite Z.ltb_irrefl. reflexivity.
Qed.

(** X19. The envelope that the reader takes: on the frames of any
    segments, each frame the segment's byte length as eight zero-padded
    decimal digits and then the segment, with every segment accepted by the
    cipher, [convertFromEncryptedFile] ends after one round a segment. Its
    metadata is parsed from the first segment and its bytes are the other
    segments, in order, as they stand in the envelope; when [JSON.parse]
    throws on the first segment, or on the empty text when there is no
    segment, that is what is thrown. *)
Theorem convertFromEncryptedFile_frames (segs : list Buffer)
    (key : CryptoKey) (iv : Buffer) (fuel : nat) :
  Forall (accepted key iv) segs ->
  (List.length segs < fuel)%nat ->
  snd (convertFromEncryptedFile fuel
         (List.concat (List.map readerFrame segs)) key iv)
  = match JSON_parse (Buffer_toString (hd [] segs)) with
    | inl err => Thrown (JSONThrew err)
    | inr details =>
        Returned {| file_name := details_name details;
                    file_lastModified := details_lastModified details;
                    file_type := details_type details;
                    file_content := List.concat (tl segs) |}
    end.
Proof.
  intros Hall Hfuel. rewrite convertFromEncryptedFile_outcome.
  change (match JSON_parse (Buffer_toString (hd [] segs)) with
          | inl err => Thrown (JSONThrew err)
          | inr details =>
              Returned {| file_name := details_name details;
                          file_lastModified := details_lastModified details;
                          file_type := details_type details;
                          file_content := List.concat (tl segs) |}
          end) with (fileOfWalk (hd [] segs, tl segs)).
  assert (W : decodeFrom fuel (List.concat (List.map readerFrame segs)) key iv
                initial = Returned (hd [] segs, tl segs)); [|rewrite W; reflexivity].
  destruct fuel as [|fuel]; [lia|].
  destruct segs as [|seg segs].
  - exact (decodeFrom_end [] key iv [] [] fuel).
  - inversion Hall as [|? ? Hseg Hrest]; subst.
    cbn [List.map List.concat hd tl List.length] in *.
    pose proof (decodeFrom_frame [] seg
                  (List.concat (List.map readerFrame segs)) key iv [] [] fuel
                  Hseg) as F.
    cbn [app byteLength] in F. unfold initial.
    change (byteLength []) with 0 in F. cbn [Z.eqb] in F.
    rewrite F. clear F.
    replace fuel with (List.length segs + S (fuel - S (List.length segs)))%nat
      by lia.
    assert (Hne : readerFrame seg <> []).
    { destruct Hseg as [Hlt _].
      destruct (exactHeader_reads seg Hlt) as (L8 & _ & _).
      unfold readerFrame. destruct (exactHeader seg); [discriminate|].
      discriminate. }
    rewrite (decodeFrom_frames key iv segs (readerFrame seg) seg [] _ Hne Hrest).
    rewrite decodeFrom_end. reflexivity.
Qed.

(** X20. The reader does not take the writer's envelope as it is written.
    With AES-GCM as the cipher the metadata ciphertext is 16 bytes longer
    than the metadata text, while the header before it reads 8 more than
    the text: the first segment that [convertFromEncryptedFile] hands to
    the cipher is the metadata ciphertext without its last 8 bytes, and
    when the cipher rejects that, the rejection is what is thrown. *)
Theorem convertFromEncryptedFile_of_written {G : AesGcm SC} (fuel : nat)
    (now : Z) (workingFile : File) (key : CryptoKey) (iv : Buffer) (f : File)
    (detailsBuf : Buffer) :
  detailsBuf = Buffer_from (JSON_stringify (detailsOf workingFile)) ->
  detailsBuf <> [] ->
  byteLength detailsBuf + 8 < 10 ^ 8 ->
  snd (convertToEncryptedFile fuel now workingFile key iv) = Returned f ->
  exists c,
    subtle_encrypt iv key detailsBuf = inr c
    /\ byteLength c = byteLength detailsBuf + 16
    /\ headerAt (file_content f) (Num 0)
       = Num (byteLength detailsBuf + 8)
    /\ segmentAt (file_content f) (Num 0) (Num (byteLength detailsBuf + 8))
       = firstn (List.length detailsBuf + 8) c
    /\ (forall err fuel',
           subtle_decrypt iv key (firstn (List.length detailsBuf + 8) c)
           = inl err ->
           snd (convertFromEncryptedFile (S fuel') (file_content f) key iv)
           = Thrown (SubtleRejected err)).
Proof.
  intros -> Hne Hlt E.
  destruct (convertToEncryptedFile_returned fuel now workingFile key iv f E)
    as (c & ps & fs & Hm & Hc & _).
  set (detailsBuf := Buffer_from (JSON_stringify (detailsOf workingFile))) in *.
  rewrite aesCrypt_nonempty_encrypt in Hm by exact Hne.
  destruct (subtle_encrypt iv key detailsBuf) as [err|c'] eqn:Enc;
    cbn in Hm; [discriminate|]. injection Hm as ->.
  pose proof (encrypt_length _ _ _ _ Enc) as Lc.
  exists c. split; [reflexivity|].
  split; [unfold byteLength; lia|].
  set (n := (List.length detailsBuf + 8)%nat).
  assert (Hsplit : file_content f
                   = [] ++ lengthHeader detailsBuf ++ firstn n c
                     ++ (skipn n c ++ List.concat (unframes fs))).
  { rewrite Hc. cbn [unframes List.concat app].
    rewrite (app_assoc (firstn n c)), List.firstn_skipn. reflexivity. }
  assert (Hx : byteLength (firstn n c) = byteLength detailsBuf + 8).
  { unfold byteLength. rewrite List.length_firstn. unfold n. lia. }
  destruct (frame_read [] (lengthHeader detailsBuf) (firstn n c)
              (skipn n c ++ List.concat (unframes fs))
              (byteLength detailsBuf + 8)
              (lengthHeader_reads detailsBuf Hlt) Hx) as (Hi & Hhd & Hseg).
  rewrite <- Hsplit in Hi, Hhd, Hseg. change (byteLength []) with 0 in *.
  split; [exact Hhd|]. split; [exact Hseg|].
  intros err fuel' Hrej. rewrite convertFromEncryptedFile_outcome.
  rewrite (decodeFrom_rejected (file_content f) key iv initial
             (Num (byteLength detailsBuf + 8)) err fuel' Hi Hhd).
  - reflexivity.
  - cbn [initial walk_i]. rewrite Hseg. intros Hnil.
    rewrite Hnil in Hx. unfold byteLength in Hx. cbn [List.length] in Hx. lia.
  - cbn [initial walk_i]. rewrite Hseg. exact Hrej.
Qed.

End ReaderFacts.

(** The envelope of two frames: the metadata that is parsed, and the
    content, which is the second segment as it stands. *)
Lemma convertFromEncryptedFile_frames_witness :
  snd (convertFromEncryptedFile (SC := Fixture.xorGcm)
         (JS := Fixture.tableJSON) 3 DecodeExamples.envelope
         DecodeExamples.key DecodeExamples.iv)
  = Returned (DecodeExamples.decoded DecodeExamples.bodySegment).
Proof.
  refine (convertFromEncryptedFile_frames (SC := Fixture.xorGcm)
            (JS := Fixture.tableJSON)
            [Buffer_from DecodeExamples.metaSegment;
             Buffer_from DecodeExamples.bodySegment]
            DecodeExamples.key DecodeExamples.iv 3 _ _).
  - repeat constructor; try (vm_compute; reflexivity);
      eexists; vm_compute; reflexivity.
  - simpl. lia.
Defined.

(** The envelope written for the 5-byte file is rejected by the reader
    under the stand-in cipher: the 86 bytes it takes as the first segment
    end 8 bytes short of the tag. *)
Lemma convertFromEncryptedFile_of_written_witness :
  exists f,
    snd (convertToEncryptedFile (SC := Fixture.xorGcm)
           (JS := Fixture.tableJSON) (HH := Fixture.tagHashing)
           2 1700000000001 EncodeExamples.notesFile
           EncodeExamples.key EncodeExamples.iv) = Returned f
    /\ headerAt (file_content f) (Num 0) = Num 86
    /\ snd (convertFromEncryptedFile (SC := Fixture.xorGcm)
              (JS := Fixture.tableJSON) 1 (file_content f)
              EncodeExamples.key EncodeExamples.iv)
       = Thrown (SubtleRejected "OperationError").
Proof.
  eexists. split; [reflexivity|].
  destruct (convertFromEncryptedFile_of_written (SC := Fixture.xorGcm)
              (JS := Fixture.tableJSON) (HH := Fixture.tagHashing)
              (G := FixtureFacts.xorGcm_laws)
              2 1700000000001 EncodeExamples.notesFile
              EncodeExamples.key EncodeExamples.iv _ _
              eq_refl ltac:(discriminate) ltac:(vm_compute; reflexivity)
              eq_refl)
    as (c & Hc & _ & Hh & _ & Hrej).
  split; [exact Hh|].
  apply Hrej. vm_compute in Hc. injection Hc as <-. vm_compute. reflexivity.
Defined.

(** ** The change records of [addChildDirs] *)

Section FolderRecordsFacts.
Context `{FT : Filetree}.

Lemma promiseAll_returned {A B C} (f : A -> Outcome B) (g : C -> A) :
  forall xs ys,
    promiseAll f (List.map g xs) = Returned ys ->
    Forall2 (fun x y => f (g x) = Returned y) xs ys.
Proof.
  induction xs as [|x xs IH]; intros ys E; cbn [promiseAll List.map] in E.
  - injection E as <-. constructor.
  - destruct (f (g x)) as [y|e|] eqn:Fx; cbn [obind] in E; try discriminate.
    destruct (promiseAll f (List.map g xs)) as [ys'|e|]; cbn [obind] in E;
      try discriminate.
    injection E as <-. constructor; [exact Fx|]. apply IH. reflexivity.
Qed.

(** X21. When [addChildDirs] returns and some asked name was new, the
    change records it returns are one for each asked name that the folder
    did not have, in the order asked and as often as asked, and then the
    folder's own. The record of a name is that of a folder without
    children, in this folder's path and of this folder's owner, whose name
    is the asked name with [stripper] applied twice; the folder's child
    list holds the name as it was asked. When no asked name was new, no
    record is returned. *)
Theorem addChildDirs_encoded (names : list string)
    (walletRef : IWalletHandler) (this this' : FolderHandler)
    (r : AddChildDirsResult) :
  addChildDirs names walletRef this = (this', Returned r) ->
  (addChildDirs_more names this = [] -> encoded r = [])
  /\ (addChildDirs_more names this <> [] ->
      exists children own,
        encoded r = children ++ [own]
        /\ getForFiletree walletRef this' = Returned own
        /\ Forall2
             (fun name record =>
                getForFiletree walletRef
                  {| whoAmI := stripper (stripper name);
                     whereAmI := getMyPath this;
                     whoOwnsMe := getWhoOwnsMe this;
                     dirChildren := [];
                     fileChildren := ∅ |}
                = Returned record)
             (addChildDirs_more names this) children).
Proof.
  intros E. split.
  - intros M. destruct (addChildDirs_returned _ _ _ _ _ E)
      as [_ [(_ & _ & R)|(N & _)]]; [exact R|contradiction].
  - intros N. revert E. unfold addChildDirs, addChildDirs_handlers.
    destruct (addChildDirs_more names this) as [|m more] eqn:M;
      [contradiction|].
    destruct (promiseAll _ _) as [enc|e|] eqn:P; try discriminate.
    change (0 <? List.length (m :: more))%nat with true. cbv iota.
    destruct (getForFiletree walletRef (set_dirChildren _ this))
      as [own|e|] eqn:Own; cbn [obind]; try discriminate.
    intros E. injection E as <- <-. cbn [encoded].
    exists enc, own. split; [reflexivity|]. split; [exact Own|].
    apply promiseAll_returned in P. exact P.
Qed.

End FolderRecordsFacts.

(** [addChildDirs(["img", "img"])] on the folder [docs] with the child
    ["reports"]: two records of the child ["img"], then the folder's. *)
Lemma addChildDirs_encoded_witness :
  exists this' r,
    addChildDirs (FT := Fixture.recordingFiletree) ["img"; "img"]
      Fixture.plainWallet FolderExamples.docs_with_reports
    = (this', Returned r)
    /\ dirChildren this' = ["reports"; "img"]
    /\ exists child own,
         encoded r = [child; child; own]
         /\ Fixture.saved_rawTarget child = "img"
         /\ Fixture.saved_rawPath child = "/home/alice/docs"
         /\ Fixture.saved_contents own = this'.
Proof.
  eexists. eexists. split; [reflexivity|]. split; [reflexivity|].
  destruct (proj2 (addChildDirs_encoded (FT := Fixture.recordingFiletree)
                     ["img"; "img"] Fixture.plainWallet
                     FolderExamples.docs_with_reports _ _ eq_refl)
              ltac:(discriminate))
    as (children & own & Henc & Hown & Hall).
  vm_compute in Hown. injection Hown as <-.
  eexists. eexists. split; [reflexivity|]. repeat split.
Defined.

(** ** The folder's objects in a store *)

Section SharedFacts.
Context `{FT : Filetree}.

Lemma extends_refl (st : Shared.Store) : Shared.extends st st.
Proof. repeat split; reflexivity. Qed.

Lemma extends_trans (a b c : Shared.Store) :
  Shared.extends a b -> Shared.extends b c -> Shared.extends a c.
Proof.
  intros (F1 & A1 & M1) (F2 & A2 & M2).
  repeat split; etrans; eassumption.
Qed.

Lemma fresh_lookup {A} (m : gmap Shared.Ref A) : m !! fresh (dom m) = None.
Proof. apply not_elem_of_dom, is_fresh. Qed.

Lemma newArray_spec names (st : Shared.Store) :
  Shared.extends st (snd (Shared.newArray names st))
  /\ Shared.arrays (snd (Shared.newArray names st))
       !! fst (Shared.newArray names st) = Some names
  /\ Shared.arrays st !! fst (Shared.newArray names st) = None
  /\ Shared.frameObjects (snd (Shared.newArray names st))
     = Shared.frameObjects st
  /\ Shared.maps (snd (Shared.newArray names st)) = Shared.maps st.
Proof.
  unfold Shared.newArray, Shared.extends. cbn.
  split.
  { split; [reflexivity|]. split; [|reflexivity].
    apply insert_subseteq, fresh_lookup. }
  split; [apply lookup_insert_eq|]. split; [apply fresh_lookup|].
  split; reflexivity.
Qed.

Lemma newMap_spec files (st : Shared.Store) :
  Shared.extends st (snd (Shared.newMap files st))
  /\ Shared.maps (snd (Shared.newMap files st))
       !! fst (Shared.newMap files st) = Some files
  /\ Shared.maps st !! fst (Shared.newMap files st) = None
  /\ Shared.frameObjects (snd (Shared.newMap files st))
     = Shared.frameObjects st
  /\ Shared.arrays (snd (Shared.newMap files st)) = Shared.arrays st.
Proof.
  unfold Shared.newMap, Shared.extends. cbn.
  split.
  { split; [reflexivity|]. split; [reflexivity|].
    apply insert_subseteq, fresh_lookup. }
  split; [apply lookup_insert_eq|]. split; [apply fresh_lookup|].
  split; reflexivity.
Qed.

Lemma newFrame_spec fr (st : Shared.Store) :
  Shared.extends st (snd (Shared.newFrame fr st))
  /\ Shared.frameObjects (snd (Shared.newFrame fr st))
       !! fst (Shared.newFrame fr st) = Some fr.
Proof.
  unfold Shared.newFrame, Shared.extends. cbn.
  split; [|apply lookup_insert_eq].
  split; [|split; reflexivity].
  apply insert_subseteq, fresh_lookup.
Qed.

Lemma readFrame_Some (st : Shared.Store) this frame :
  Shared.readFrame st this = Some frame
  <-> exists fr dirs files,
        Shared.frameObjects st !! this = Some fr
        /\ Shared.arrays st !! Shared.obj_dirChildren fr = Some dirs
        /\ Shared.maps st !! Shared.obj_fileChildren fr = Some files
        /\ frame = Shared.frameOfObjects fr dirs files.
Proof.
  unfold Shared.readFrame. split.
  - destruct (Shared.frameObjects st !! this) as [fr|] eqn:Hfr;
      [|discriminate].
    cbn. destruct (Shared.arrays st !! Shared.obj_dirChildren fr)
      as [dirs|] eqn:Hd; [|discriminate].
    cbn. destruct (Shared.maps st !! Shared.obj_fileChildren fr)
      as [files|] eqn:Hf; [|discriminate].
    cbn. intros E. injection E as <-. exists fr, dirs, files.
    split; [reflexivity|]. split; [exact Hd|]. split; [exact Hf|reflexivity].
  - intros (fr & dirs & files & -> & Hd & Hf & ->). cbn.
    rewrite Hd. cbn. rewrite Hf. reflexivity.
Qed.

Lemma readFrame_extends (st st' : Shared.Store) this frame :
  Shared.extends st st' ->
  Shared.readFrame st this = Some frame ->
  Shared.readFrame st' this = Some frame.
Proof.
  intros (F & A & M). rewrite !readFrame_Some.
  intros (fr & dirs & files & Hfr & Hd & Hf & ->).
  exists fr, dirs, files.
  split; [exact (lookup_weaken _ _ _ _ Hfr F)|].
  split; [exact (lookup_weaken _ _ _ _ Hd A)|].
  split; [exact (lookup_weaken _ _ _ _ Hf M)|reflexivity].
Qed.

Lemma trackNewFolder_spec dirInfo (st : Shared.Store) :
  Shared.extends st (snd (Shared.trackNewFolder dirInfo st))
  /\ Shared.readFrame (snd (Shared.trackNewFolder dirInfo st))
       (fst (Shared.trackNewFolder dirInfo st))
     = Some (trackNewFolder dirInfo).
Proof.
  unfold Shared.trackNewFolder.
  destruct (Shared.newArray [] st) as [a st1] eqn:Ea.
  destruct (Shared.newMap ∅ st1) as [m st2] eqn:Em.
  pose proof (newArray_spec [] st) as (X1 & L1 & _). rewrite Ea in X1, L1.
  pose proof (newMap_spec ∅ st1) as (X2 & L2 & _ & _ & A2).
  rewrite Em in X2, L2, A2. cbn [fst snd] in *.
  set (fr := {| Shared.obj_whoAmI := stripper (myName dirInfo);
                Shared.obj_whereAmI := myParent dirInfo;
                Shared.obj_whoOwnsMe := myOwner dirInfo;
                Shared.obj_dirChildren := a;
                Shared.obj_fileChildren := m |}).
  pose proof (newFrame_spec fr st2) as (X3 & L3).
  split; [exact (extends_trans _ _ _ X1 (extends_trans _ _ _ X2 X3))|].
  apply readFrame_Some. exists fr, [], ∅.
  split; [exact L3|]. destruct X3 as (_ & A3 & M3).
  assert (La : Shared.arrays st2 !! a = Some [])
    by (rewrite A2; exact L1).
  split; [exact (lookup_weaken _ _ _ _ La A3)|].
  split; [exact (lookup_weaken _ _ _ _ L2 M3)|reflexivity].
Qed.

Lemma makeChildDirInfo_spec (st : Shared.Store) this frame name :
  Shared.readFrame st this = Some frame ->
  Shared.makeChildDirInfo st this name = Some (makeChildDirInfo frame name).
Proof.
  rewrite readFrame_Some. intros (fr & dirs & files & Hfr & _ & _ & ->).
  unfold Shared.makeChildDirInfo. rewrite Hfr. reflexivity.
Qed.

Lemma newChildren_spec this frame : forall names (st : Shared.Store),
  Shared.readFrame st this = Some frame ->
  exists handlers st',
    Shared.newChildren this names st = Some (handlers, st')
    /\ Shared.extends st st'
    /\ Forall2 (fun handler name =>
                  Shared.readFrame st' handler
                  = Some (trackNewFolder (makeChildDirInfo frame name)))
         handlers names.
Proof.
  induction names as [|name names IH]; intros st R.
  - exists [], st. split; [reflexivity|]. split; [apply extends_refl|].
    constructor.
  - cbn [Shared.newChildren].
    rewrite (makeChildDirInfo_spec st this frame name R).
    cbn [mbind option_bind].
    pose proof (trackNewFolder_spec (makeChildDirInfo frame name) st)
      as (X1 & R1).
    destruct (Shared.trackNewFolder (makeChildDirInfo frame name) st)
      as [handler st1]. cbn [fst snd] in X1, R1. cbv iota beta.
    destruct (IH st1 (readFrame_extends _ _ _ _ X1 R))
      as (handlers & st' & E & X2 & All).
    rewrite E. cbn [mbind option_bind]. exists (handler :: handlers), st'.
    split; [reflexivity|]. split; [exact (extends_trans _ _ _ X1 X2)|].
    constructor; [exact (readFrame_extends _ _ _ _ X2 R1)|exact All].
Qed.

Lemma mapM_getForFiletree walletRef (st : Shared.Store) :
  forall handlers (frames : list FolderHandler),
    Forall2 (fun handler frame => Shared.readFrame st handler = Some frame)
      handlers frames ->
    mapM (Shared.getForFiletree walletRef st) handlers
    = Some (List.map (getForFiletree walletRef) frames).
Proof.
  intros handlers frames All. apply mapM_Some.
  induction All as [|handler frame handlers frames R _ IH];
    constructor; [|exact IH].
  unfold Shared.getForFiletree. rewrite R. reflexivity.
Qed.

Lemma promiseAll_map {A B} (f : A -> Outcome B) : forall xs,
  promiseAll (fun outcome => outcome) (List.map f xs) = promiseAll f xs.
Proof.
  induction xs as [|x xs IH]; [reflexivity|].
  cbn [List.map promiseAll]. rewrite IH. reflexivity.
Qed.

Lemma Forall2_map_r {A B C} (P : A -> C -> Prop) (g : B -> C) :
  forall xs ys,
    Forall2 (fun x y => P x (g y)) xs ys -> Forall2 P xs (List.map g ys).
Proof. induction 1; constructor; assumption. Qed.

(** What the assignment of a new array does to the value shown. *)
Lemma assign_dirChildren_reads (st : Shared.Store) this fr dirs files names :
  Shared.frameObjects st !! this = Some fr ->
  Shared.arrays st !! Shared.obj_dirChildren fr = Some dirs ->
  Shared.maps st !! Shared.obj_fileChildren fr = Some files ->
  Shared.readFrame
    (Shared.assign_dirChildren this (fst (Shared.newArray names st))
       (snd (Shared.newArray names st))) this
  = Some (set_dirChildren names (Shared.frameOfObjects fr dirs files)).
Proof.
  intros Hfr Hd Hf. unfold Shared.readFrame, Shared.assign_dirChildren.
  cbn. rewrite lookup_alter_eq, Hfr. cbn.
  rewrite lookup_insert_eq. cbn. rewrite Hf. reflexivity.
Qed.

Lemma assign_fileChildren_reads (st : Shared.Store) this fr dirs files new :
  Shared.frameObjects st !! this = Some fr ->
  Shared.arrays st !! Shared.obj_dirChildren fr = Some dirs ->
  Shared.maps st !! Shared.obj_fileChildren fr = Some files ->
  Shared.readFrame
    (Shared.assign_fileChildren this (fst (Shared.newMap new st))
       (snd (Shared.newMap new st))) this
  = Some (set_fileChildren new (Shared.frameOfObjects fr dirs files)).
Proof.
  intros Hfr Hd Hf. unfold Shared.readFrame, Shared.assign_fileChildren.
  cbn. rewrite lookup_alter_eq, Hfr. cbn. rewrite Hd. cbn.
  rewrite lookup_insert_eq. reflexivity.
Qed.

Lemma deleteIn_reads (st : Shared.Store) this fr dirs files names :
  Shared.frameObjects st !! this = Some fr ->
  Shared.arrays st !! Shared.obj_dirChildren fr = Some dirs ->
  Shared.maps st !! Shared.obj_fileChildren fr = Some files ->
  Shared.readFrame (Shared.deleteIn (Shared.obj_fileChildren fr) names st)
    this
  = Some (set_fileChildren (deleteAll names files)
            (Shared.frameOfObjects fr dirs files)).
Proof.
  intros Hfr Hd Hf. unfold Shared.readFrame, Shared.deleteIn.
  cbn. rewrite Hfr. cbn. rewrite Hd. cbn.
  rewrite lookup_alter_eq, Hf. reflexivity.
Qed.

Lemma getChildDirs_Some (st : Shared.Store) this fr :
  Shared.frameObjects st !! this = Some fr ->
  Shared.getChildDirs st this = Some (Shared.obj_dirChildren fr).
Proof. intros H. unfold Shared.getChildDirs. rewrite H. reflexivity. Qed.

Lemma getChildFiles_Some (st : Shared.Store) this fr :
  Shared.frameObjects st !! this = Some fr ->
  Shared.getChildFiles st this = Some (Shared.obj_fileChildren fr).
Proof. intros H. unfold Shared.getChildFiles. rewrite H. reflexivity. Qed.

(** The assignment of a new array to [dirChildren], as three methods do
    it. *)
Lemma assign_new_array (st : Shared.Store) this frame names :
  Shared.readFrame st this = Some frame ->
  exists dirsRef,
    Shared.getChildDirs st this = Some dirsRef
    /\ Shared.arrays st !! dirsRef = Some (dirChildren frame)
    /\ forall r st1,
         Shared.newArray names st = (r, st1) ->
         Shared.readFrame (Shared.assign_dirChildren this r st1) this
         = Some (set_dirChildren names frame)
         /\ Shared.getChildDirs (Shared.assign_dirChildren this r st1) this
            = Some r
         /\ r <> dirsRef
         /\ Shared.arrays (Shared.assign_dirChildren this r st1)
            = <[r := names]> (Shared.arrays st)
         /\ Shared.arrays st !! r = None
         /\ Shared.maps (Shared.assign_dirChildren this r st1)
            = Shared.maps st
         /\ Shared.getChildFiles (Shared.assign_dirChildren this r st1) this
            = Shared.getChildFiles st this
         /\ (forall other,
                other <> this ->
                Shared.frameObjects (Shared.assign_dirChildren this r st1)
                  !! other
                = Shared.frameObjects st !! other).
Proof.
  rewrite readFrame_Some. intros (fr & dirs & files & Hfr & Hd & Hf & ->).
  exists (Shared.obj_dirChildren fr).
  split; [exact (getChildDirs_Some _ _ _ Hfr)|]. split; [exact Hd|].
  intros r st1 E.
  pose proof (assign_dirChildren_reads st this fr dirs files names Hfr Hd Hf)
    as R.
  pose proof (newArray_spec names st) as (_ & _ & Hnone & _).
  rewrite E in R, Hnone. cbn [fst snd] in R, Hnone.
  split; [exact R|].
  unfold Shared.newArray in E. injection E as <- <-.
  unfold Shared.getChildDirs, Shared.getChildFiles, Shared.assign_dirChildren.
  cbn [Shared.frameObjects Shared.arrays Shared.maps].
  rewrite lookup_alter_eq, Hfr.
  split; [reflexivity|]. split; [congruence|]. split; [reflexivity|].
  split; [exact Hnone|]. split; [reflexivity|]. split; [reflexivity|].
  intros other Ho. apply lookup_alter_ne. congruence.
Qed.

(** The assignment of a new object to [fileChildren]. *)
Lemma assign_new_map (st : Shared.Store) this frame new :
  Shared.readFrame st this = Some frame ->
  exists filesRef,
    Shared.getChildFiles st this = Some filesRef
    /\ Shared.maps st !! filesRef = Some (fileChildren frame)
    /\ forall r st1,
         Shared.newMap new st = (r, st1) ->
         Shared.readFrame (Shared.assign_fileChildren this r st1) this
         = Some (set_fileChildren new frame)
         /\ Shared.getChildFiles (Shared.assign_fileChildren this r st1) this
            = Some r
         /\ r <> filesRef
         /\ Shared.maps (Shared.assign_fileChildren this r st1)
            = <[r := new]> (Shared.maps st)
         /\ Shared.maps st !! r = None
         /\ Shared.arrays (Shared.assign_fileChildren this r st1)
            = Shared.arrays st
         /\ Shared.getChildDirs (Shared.assign_fileChildren this r st1) this
            = Shared.getChildDirs st this
         /\ (forall other,
                other <> this ->
                Shared.frameObjects (Shared.assign_fileChildren this r st1)
                  !! other
                = Shared.frameObjects st !! other).
Proof.
  rewrite readFrame_Some. intros (fr & dirs & files & Hfr & Hd & Hf & ->).
  exists (Shared.obj_fileChildren fr).
  split; [exact (getChildFiles_Some _ _ _ Hfr)|]. split; [exact Hf|].
  intros r st1 E.
  pose proof (assign_fileChildren_reads st this fr dirs files new Hfr Hd Hf)
    as R.
  pose proof (newMap_spec new st) as (_ & _ & Hnone & _).
  rewrite E in R, Hnone. cbn [fst snd] in R, Hnone.
  split; [exact R|].
  unfold Shared.newMap in E. injection E as <- <-.
  unfold Shared.getChildDirs, Shared.getChildFiles, Shared.assign_fileChildren.
  cbn [Shared.frameObjects Shared.arrays Shared.maps].
  rewrite lookup_alter_eq, Hfr.
  split; [reflexivity|]. split; [congruence|]. split; [reflexivity|].
  split; [exact Hnone|]. split; [reflexivity|]. split; [reflexivity|].
  intros other Ho. apply lookup_alter_ne. congruence.
Qed.

(** The deletions in the object that [fileChildren] holds. *)
Lemma delete_in_place (st : Shared.Store) this frame names :
  Shared.readFrame st this = Some frame ->
  exists filesRef,
    Shared.getChildFiles st this = Some filesRef
    /\ Shared.maps st !! filesRef = Some (fileChildren frame)
    /\ Shared.readFrame (Shared.deleteIn filesRef names st) this
       = Some (set_fileChildren (deleteAll names (fileChildren frame)) frame)
    /\ Shared.maps (Shared.deleteIn filesRef names st) !! filesRef
       = Some (deleteAll names (fileChildren frame))
    /\ (forall r, r <> filesRef ->
                  Shared.maps (Shared.deleteIn filesRef names st) !! r
                  = Shared.maps st !! r).
Proof.
  rewrite readFrame_Some. intros (fr & dirs & files & Hfr & Hd & Hf & ->).
  exists (Shared.obj_fileChildren fr).
  split; [exact (getChildFiles_Some _ _ _ Hfr)|]. split; [exact Hf|].
  split; [exact (deleteIn_reads st this fr dirs files names Hfr Hd Hf)|].
  unfold Shared.deleteIn. cbn [Shared.maps]. split.
  - rewrite lookup_alter_eq, Hf. reflexivity.
  - intros r Hr. apply lookup_alter_ne. congruence.
Qed.

Lemma Shared_addChildFileReferences_spec newFiles walletRef
    (st : Shared.Store) this frame :
  Shared.readFrame st this = Some frame ->
  exists filesRef r st',
    Shared.getChildFiles st this = Some filesRef
    /\ Shared.maps st !! filesRef = Some (fileChildren frame)
    /\ Shared.addChildFileReferences newFiles walletRef st this
       = Some (st', snd (addChildFileReferences newFiles walletRef frame))
    /\ Shared.readFrame st' this
       = Some (fst (addChildFileReferences newFiles walletRef frame))
    /\ Shared.getChildFiles st' this = Some r
    /\ r <> filesRef
    /\ Shared.maps st'
       = <[r := newFiles ∪ fileChildren frame]> (Shared.maps st)
    /\ Shared.maps st !! r = None
    /\ Shared.arrays st' = Shared.arrays st
    /\ Shared.getChildDirs st' this = Shared.getChildDirs st this.
Proof.
  intros R.
  destruct (assign_new_map st this frame (newFiles ∪ fileChildren frame) R)
    as (filesRef & G & L & New).
  destruct (Shared.newMap (newFiles ∪ fileChildren frame) st)
    as [r st1] eqn:E.
  destruct (New r st1 eq_refl) as (R' & G' & Ne & M' & Nn & A' & D' & _).
  exists filesRef, r, (Shared.assign_fileChildren this r st1).
  split; [exact G|]. split; [exact L|]. split.
  - unfold Shared.addChildFileReferences. rewrite G. cbn [mbind option_bind].
    rewrite L. cbn [mbind option_bind]. rewrite E.
    unfold Shared.getForFiletree. rewrite R'. reflexivity.
  - split; [exact R'|]. split; [exact G'|]. split; [exact Ne|].
    split; [exact M'|]. split; [exact Nn|]. split; [exact A'|exact D'].
Qed.

Lemma Shared_removeChildDirReferences_spec toRemove walletRef
    (st : Shared.Store) this frame :
  Shared.readFrame st this = Some frame ->
  exists dirsRef r st',
    Shared.getChildDirs st this = Some dirsRef
    /\ Shared.arrays st !! dirsRef = Some (dirChildren frame)
    /\ Shared.removeChildDirReferences toRemove walletRef st this
       = Some (st', snd (removeChildDirReferences toRemove walletRef frame))
    /\ Shared.readFrame st' this
       = Some (fst (removeChildDirReferences toRemove walletRef frame))
    /\ Shared.getChildDirs st' this = Some r
    /\ r <> dirsRef
    /\ Shared.arrays st'
       = <[r := dirChildren
                  (fst (removeChildDirReferences toRemove walletRef frame))]>
           (Shared.arrays st)
    /\ Shared.arrays st !! r = None
    /\ Shared.maps st' = Shared.maps st
    /\ Shared.getChildFiles st' this = Shared.getChildFiles st this.
Proof.
  intros R.
  set (names := List.filter (fun saved => negb (includes saved toRemove))
                  (dirChildren frame)).
  destruct (assign_new_array st this frame names R)
    as (dirsRef & G & L & New).
  destruct (Shared.newArray names st) as [r st1] eqn:E.
  destruct (New r st1 eq_refl) as (R' & G' & Ne & A' & Nn & M' & F' & _).
  exists dirsRef, r, (Shared.assign_dirChildren this r st1).
  split; [exact G|]. split; [exact L|]. split.
  - unfold Shared.removeChildDirReferences. rewrite G.
    cbn [mbind option_bind]. rewrite L. cbn [mbind option_bind].
    fold names. rewrite E.
    unfold Shared.getForFiletree. rewrite R'. reflexivity.
  - split; [exact R'|]. split; [exact G'|]. split; [exact Ne|].
    split; [exact A'|]. split; [exact Nn|]. split; [exact M'|exact F'].
Qed.

Lemma Shared_removeChildFileReferences_spec toRemove walletRef
    (st : Shared.Store) this frame :
  Shared.readFrame st this = Some frame ->
  exists filesRef st',
    Shared.getChildFiles st this = Some filesRef
    /\ Shared.maps st !! filesRef = Some (fileChildren frame)
    /\ Shared.removeChildFileReferences toRemove walletRef st this
       = Some (st', snd (removeChildFileReferences toRemove walletRef frame))
    /\ Shared.readFrame st' this
       = Some (fst (removeChildFileReferences toRemove walletRef frame))
    /\ Shared.getChildFiles st' this = Some filesRef
    /\ Shared.maps st' !! filesRef
       = Some (deleteAll toRemove (fileChildren frame))
    /\ Shared.arrays st' = Shared.arrays st
    /\ Shared.getChildDirs st' this = Shared.getChildDirs st this.
Proof.
  intros R.
  destruct (delete_in_place st this frame toRemove R)
    as (filesRef & G & L & R' & L' & _).
  exists filesRef, (Shared.deleteIn filesRef toRemove st).
  split; [exact G|]. split; [exact L|]. split.
  - unfold Shared.removeChildFileReferences. rewrite G.
    cbn [mbind option_bind].
    unfold Shared.getForFiletree. rewrite R'. reflexivity.
  - split; [exact R'|]. split; [exact G|]. split; [exact L'|].
    split; reflexivity.
Qed.

Lemma Shared_removeChildDirAndFileReferences_spec dirs files walletRef
    (st : Shared.Store) this frame :
  Shared.readFrame st this = Some frame ->
  exists dirsRef filesRef r st',
    Shared.getChildDirs st this = Some dirsRef
    /\ Shared.getChildFiles st this = Some filesRef
    /\ Shared.removeChildDirAndFileReferences dirs files walletRef st this
       = Some (st',
               snd (removeChildDirAndFileReferences dirs files walletRef
                      frame))
    /\ Shared.readFrame st' this
       = Some (fst (removeChildDirAndFileReferences dirs files walletRef
                      frame))
    /\ Shared.getChildFiles st' this = Some filesRef
    /\ Shared.maps st' !! filesRef
       = Some (deleteAll files (fileChildren frame))
    /\ Shared.getChildDirs st' this = Some r
    /\ r <> dirsRef
    /\ Shared.arrays st'
       = <[r := List.filter (fun saved => negb (includes saved dirs))
                  (dirChildren frame)]> (Shared.arrays st)
    /\ Shared.arrays st !! r = None.
Proof.
  intros R.
  set (names := List.filter (fun saved => negb (includes saved dirs))
                  (dirChildren frame)).
  destruct (assign_new_array st this frame names R)
    as (dirsRef & G & L & New).
  destruct (Shared.newArray names st) as [r st1] eqn:E.
  destruct (New r st1 eq_refl) as (R1 & G1 & Ne & A1 & Nn & M1 & F1 & _).
  destruct (delete_in_place _ this _ files R1)
    as (filesRef & G2 & L2 & R2 & L3 & _).
  exists dirsRef, filesRef, r,
    (Shared.deleteIn filesRef files (Shared.assign_dirChildren this r st1)).
  split; [exact G|]. split; [rewrite <- F1; exact G2|]. split.
  - unfold Shared.removeChildDirAndFileReferences. rewrite G.
    cbn [mbind option_bind]. rewrite L. cbn [mbind option_bind].
    fold names. rewrite E. rewrite G2. cbn [mbind option_bind].
    unfold Shared.getForFiletree. rewrite R2. reflexivity.
  - split; [exact R2|]. split; [exact G2|]. split; [exact L3|].
    split; [exact G1|]. split; [exact Ne|]. split; [exact A1|exact Nn].
Qed.

Lemma Shared_addChildDirs_spec childNames walletRef
    (st : Shared.Store) this frame :
  Shared.readFrame st this = Some frame ->
  exists st',
    Shared.addChildDirs childNames walletRef st this
    = Some (st', snd (addChildDirs childNames walletRef frame))
    /\ Shared.readFrame st' this
       = Some (fst (addChildDirs childNames walletRef frame))
    /\ Shared.arrays st ⊆ Shared.arrays st'
    /\ Shared.maps st ⊆ Shared.maps st'.
Proof.
  intros R.
  pose proof R as R0. apply readFrame_Some in R0.
  destruct R0 as (fr & dirs & files & Hfr & Hd & Hf & Eq).
  assert (Edirs : dirChildren frame = dirs) by (rewrite Eq; reflexivity).
  set (more := addChildDirs_more childNames frame).
  destruct (newChildren_spec this frame more st R)
    as (handlers & st1 & EN & X & All).
  pose proof (readFrame_extends _ _ _ _ X R) as R1.
  destruct X as (_ & XA & XM).
  assert (Out : mapM (Shared.getForFiletree walletRef st1) handlers
                = Some (List.map (getForFiletree walletRef)
                          (addChildDirs_handlers childNames frame))).
  { apply mapM_getForFiletree. unfold addChildDirs_handlers.
    apply Forall2_map_r. exact All. }
  unfold Shared.addChildDirs.
  rewrite (getChildDirs_Some _ _ _ Hfr). cbn [mbind option_bind].
  rewrite Hd. cbn [mbind option_bind]. rewrite <- Edirs.
  fold (addChildDirs_more childNames frame). fold more.
  rewrite EN. cbn [mbind option_bind]. rewrite Out. cbn [mbind option_bind].
  rewrite promiseAll_map.
  unfold addChildDirs. fold more.
  destruct (promiseAll (getForFiletree walletRef)
              (addChildDirs_handlers childNames frame)) as [enc|e|];
    try (exists st1; split; [reflexivity|]; split; [exact R1|];
         split; [exact XA|exact XM]).
  destruct (0 <? List.length more)%nat;
    [|exists st1; split; [reflexivity|]; split; [exact R1|];
      split; [exact XA|exact XM]].
  destruct (assign_new_array st1 this frame
              (setSpread (dirChildren frame ++ more)) R1)
    as (dirsRef1 & G1 & L1 & New).
  rewrite G1. cbn [mbind option_bind]. rewrite L1. cbn [mbind option_bind].
  destruct (Shared.newArray (setSpread (dirChildren frame ++ more)) st1)
    as [r st2] eqn:E.
  destruct (New r st2 eq_refl) as (R3 & _ & _ & A3 & Nn & M3 & _).
  unfold Shared.getForFiletree. rewrite R3.
  cbn [fmap option_fmap option_map mbind option_bind].
  exists (Shared.assign_dirChildren this r st2).
  split; [reflexivity|]. split; [exact R3|]. split.
  - rewrite A3. etrans; [exact XA|]. apply insert_subseteq. exact Nn.
  - rewrite M3. exact XM.
Qed.

(** X22. The store and the value: a handler that [trackFolder] made from
    a [folderDetails] object works on that object. Each of the five
    methods ends as it does on the value the object showed, and afterwards
    the object shows the value that the method leaves there, to the caller
    who gave the object as to the handler. *)
Theorem Shared_methods_agree (walletRef : IWalletHandler)
    (st : Shared.Store) (dirInfo : Shared.Ref) (frame : FolderHandler) :
  Shared.readFrame st dirInfo = Some frame ->
  (forall childNames,
      exists st',
        Shared.addChildDirs childNames walletRef st
          (Shared.trackFolder dirInfo)
        = Some (st', snd (addChildDirs childNames walletRef frame))
        /\ Shared.readFrame st' dirInfo
           = Some (fst (addChildDirs childNames walletRef frame)))
  /\ (forall newFiles,
         exists st',
           Shared.addChildFileReferences newFiles walletRef st
             (Shared.trackFolder dirInfo)
           = Some (st', snd (addChildFileReferences newFiles walletRef frame))
           /\ Shared.readFrame st' dirInfo
              = Some (fst (addChildFileReferences newFiles walletRef frame)))
  /\ (forall toRemove,
         exists st',
           Shared.removeChildDirReferences toRemove walletRef st
             (Shared.trackFolder dirInfo)
           = Some (st',
                   snd (removeChildDirReferences toRemove walletRef frame))
           /\ Shared.readFrame st' dirInfo
              = Some (fst (removeChildDirReferences toRemove walletRef
                             frame)))
  /\ (forall toRemove,
         exists st',
           Shared.removeChildFileReferences toRemove walletRef st
             (Shared.trackFolder dirInfo)
           = Some (st',
                   snd (removeChildFileReferences toRemove walletRef frame))
           /\ Shared.readFrame st' dirInfo
              = Some (fst (removeChildFileReferences toRemove walletRef
                             frame)))
  /\ (forall dirs files,
         exists st',
           Shared.removeChildDirAndFileReferences dirs files walletRef st
             (Shared.trackFolder dirInfo)
           = Some (st',
                   snd (removeChildDirAndFileReferences dirs files walletRef
                          frame))
           /\ Shared.readFrame st' dirInfo
              = Some (fst (removeChildDirAndFileReferences dirs files
                             walletRef frame))).
Proof.
  intros R. unfold Shared.trackFolder.
  split; [|split; [|split; [|split]]].
  - intros childNames.
    destruct (Shared_addChildDirs_spec childNames walletRef st dirInfo frame R)
      as (st' & E & R' & _).
    exists st'. split; [exact E|exact R'].
  - intros newFiles.
    destruct (Shared_addChildFileReferences_spec newFiles walletRef st dirInfo
                frame R) as (_ & _ & st' & _ & _ & E & R' & _).
    exists st'. split; [exact E|exact R'].
  - intros toRemove.
    destruct (Shared_removeChildDirReferences_spec toRemove walletRef st
                dirInfo frame R) as (_ & _ & st' & _ & _ & E & R' & _).
    exists st'. split; [exact E|exact R'].
  - intros toRemove.
    destruct (Shared_removeChildFileReferences_spec toRemove walletRef st
                dirInfo frame R) as (_ & st' & _ & _ & E & R' & _).
    exists st'. split; [exact E|exact R'].
  - intros dirs files.
    destruct (Shared_removeChildDirAndFileReferences_spec dirs files walletRef
                st dirInfo frame R) as (_ & _ & _ & st' & _ & _ & E & R' & _).
    exists st'. split; [exact E|exact R'].
Qed.

(** X23. The object that [getChildFiles] returns is the folder's own. A
    removal of file names changes that object where it is: who got it
    before the call finds the names gone from it. [addChildFileReferences]
    gives the folder another object: the one got before the call is as it
    was, without the added files, and is the folder's no more. *)
Theorem Shared_getChildFiles_aliasing (walletRef : IWalletHandler)
    (st : Shared.Store) (this : Shared.Ref) (frame : FolderHandler)
    (filesRef : Shared.Ref) :
  Shared.readFrame st this = Some frame ->
  Shared.getChildFiles st this = Some filesRef ->
  Shared.maps st !! filesRef = Some (fileChildren frame)
  /\ (forall toRemove,
         exists st' out,
           Shared.removeChildFileReferences toRemove walletRef st this
           = Some (st', out)
           /\ Shared.getChildFiles st' this = Some filesRef
           /\ Shared.maps st' !! filesRef
              = Some (deleteAll toRemove (fileChildren frame)))
  /\ (forall dirs files,
         exists st' out,
           Shared.removeChildDirAndFileReferences dirs files walletRef st this
           = Some (st', out)
           /\ Shared.getChildFiles st' this = Some filesRef
           /\ Shared.maps st' !! filesRef
              = Some (deleteAll files (fileChildren frame)))
  /\ (forall newFiles,
         exists st' out r,
           Shared.addChildFileReferences newFiles walletRef st this
           = Some (st', out)
           /\ Shared.getChildFiles st' this = Some r
           /\ r <> filesRef
           /\ Shared.maps st' !! r = Some (newFiles ∪ fileChildren frame)
           /\ Shared.maps st' !! filesRef = Some (fileChildren frame)).
Proof.
  intros R G. split; [|split; [|split]].
  - destruct (delete_in_place st this frame [] R) as (f & G' & L & _).
    rewrite G in G'. injection G' as ->. exact L.
  - intros toRemove.
    destruct (Shared_removeChildFileReferences_spec toRemove walletRef st
                this frame R) as (f & st' & G' & _ & E & _ & G2 & L2 & _).
    rewrite G in G'. injection G' as <-.
    exists st'. eexists. split; [exact E|]. split; [exact G2|exact L2].
  - intros dirs files.
    destruct (Shared_removeChildDirAndFileReferences_spec dirs files walletRef
                st this frame R)
      as (d & f & r & st' & _ & G' & E & _ & G2 & L2 & _).
    rewrite G in G'. injection G' as <-.
    exists st'. eexists. split; [exact E|]. split; [exact G2|exact L2].
  - intros newFiles.
    destruct (Shared_addChildFileReferences_spec newFiles walletRef st this
                frame R)
      as (f & r & st' & G' & L & E & _ & G2 & Ne & M' & Nn & _).
    rewrite G in G'. injection G' as <-.
    exists st'. eexists. exists r. split; [exact E|]. split; [exact G2|].
    split; [exact Ne|]. rewrite M'.
    split; [apply lookup_insert_eq|].
    rewrite lookup_insert_ne by exact Ne. exact L.
Qed.

(** X24. No method changes an array where it is. The array that
    [getChildDirs] returned before a call has the names it had, whatever
    the call did, and so has every other array; a removal of child
    directories gives the folder another array, so that the one got before
    the call still holds the removed names and is the folder's no more. *)
Theorem Shared_getChildDirs_aliasing (walletRef : IWalletHandler)
    (st : Shared.Store) (this : Shared.Ref) (frame : FolderHandler)
    (dirsRef : Shared.Ref) :
  Shared.readFrame st this = Some frame ->
  Shared.getChildDirs st this = Some dirsRef ->
  Shared.arrays st !! dirsRef = Some (dirChildren frame)
  /\ (forall childNames,
         exists st' out,
           Shared.addChildDirs childNames walletRef st this = Some (st', out)
           /\ Shared.arrays st ⊆ Shared.arrays st')
  /\ (forall toRemove,
         exists st' out r,
           Shared.removeChildDirReferences toRemove walletRef st this
           = Some (st', out)
           /\ Shared.getChildDirs st' this = Some r
           /\ r <> dirsRef
           /\ Shared.arrays st' !! r
              = Some (List.filter
                        (fun saved => negb (includes saved toRemove))
                        (dirChildren frame))
           /\ Shared.arrays st ⊆ Shared.arrays st')
  /\ (forall dirs files,
         exists st' out r,
           Shared.removeChildDirAndFileReferences dirs files walletRef st this
           = Some (st', out)
           /\ Shared.getChildDirs st' this = Some r
           /\ r <> dirsRef
           /\ Shared.arrays st' !! r
              = Some (List.filter (fun saved => negb (includes saved dirs))
                        (dirChildren frame))
           /\ Shared.arrays st ⊆ Shared.arrays st')
  /\ (forall newFiles,
         exists st' out,
           Shared.addChildFileReferences newFiles walletRef st this
           = Some (st', out)
           /\ Shared.arrays st' = Shared.arrays st)
  /\ (forall toRemove,
         exists st' out,
           Shared.removeChildFileReferences toRemove walletRef st this
           = Some (st', out)
           /\ Shared.arrays st' = Shared.arrays st).
Proof.
  intros R G. split; [|split; [|split; [|split; [|split]]]].
  - destruct (assign_new_array st this frame [] R) as (d & G' & L & _).
    rewrite G in G'. injection G' as ->. exact L.
  - intros childNames.
    destruct (Shared_addChildDirs_spec childNames walletRef st this frame R)
      as (st' & E & _ & A & _).
    exists st'. eexists. split; [exact E|exact A].
  - intros toRemove.
    destruct (Shared_removeChildDirReferences_spec toRemove walletRef st this
                frame R)
      as (d & r & st' & G' & _ & E & _ & G2 & Ne & A' & Nn & _).
    rewrite G in G'. injection G' as <-.
    exists st'. eexists. exists r. split; [exact E|]. split; [exact G2|].
    split; [exact Ne|]. rewrite A'.
    split; [apply lookup_insert_eq|]. apply insert_subseteq. exact Nn.
  - intros dirs files.
    destruct (Shared_removeChildDirAndFileReferences_spec dirs files walletRef
                st this frame R)
      as (d & f & r & st' & G' & _ & E & _ & _ & _ & G2 & Ne & A' & Nn).
    rewrite G in G'. injection G' as <-.
    exists st'. eexists. exists r. split; [exact E|]. split; [exact G2|].
    split; [exact Ne|]. rewrite A'.
    split; [apply lookup_insert_eq|]. apply insert_subseteq. exact Nn.
  - intros newFiles.
    destruct (Shared_addChildFileReferences_spec newFiles walletRef st this
                frame R) as (f & r & st' & _ & _ & E & _ & _ & _ & _ & _ & A & _).
    exists st'. eexists. split; [exact E|exact A].
  - intros toRemove.
    destruct (Shared_removeChildFileReferences_spec toRemove walletRef st
                this frame R) as (f & st' & _ & _ & E & _ & _ & _ & A & _).
    exists st'. eexists. split; [exact E|exact A].
Qed.

End SharedFacts.

(** The folder [docs] in the store: removing the child ["reports"]
    through the handler shows in the object the caller gave. *)
Lemma Shared_methods_agree_witness :
  exists st',
    Shared.removeChildDirReferences (FT := Fixture.recordingFiletree)
      ["reports"] Fixture.plainWallet SharedExamples.store
      (Shared.trackFolder 1%positive)
    = Some (st',
            snd (removeChildDirReferences (FT := Fixture.recordingFiletree)
                   ["reports"] Fixture.plainWallet SharedExamples.docsValue))
    /\ Shared.readFrame st' 1%positive
       = Some (fst (removeChildDirReferences
                      (FT := Fixture.recordingFiletree) ["reports"]
                      Fixture.plainWallet SharedExamples.docsValue)).
Proof.
  exact (proj1 (proj2 (proj2
           (Shared_methods_agree (FT := Fixture.recordingFiletree)
              Fixture.plainWallet SharedExamples.store 1%positive
              SharedExamples.docsValue eq_refl))) ["reports"]).
Defined.

(** The file object of [docs], got before the file ["a.txt"] is removed,
    is empty afterwards. *)
Lemma Shared_getChildFiles_aliasing_witness :
  exists st' out,
    Shared.removeChildFileReferences (FT := Fixture.recordingFiletree)
      ["a.txt"] Fixture.plainWallet SharedExamples.store 1%positive
    = Some (st', out)
    /\ Shared.getChildFiles st' 1%positive = Some 1%positive
    /\ Shared.maps st' !! 1%positive
       = Some (deleteAll (FT := Fixture.recordingFiletree) ["a.txt"]
                 {[ "a.txt" := tt ]}).
Proof.
  exact (proj1 (proj2
           (Shared_getChildFiles_aliasing (FT := Fixture.recordingFiletree)
              Fixture.plainWallet SharedExamples.store 1%positive
              SharedExamples.docsValue 1%positive eq_refl eq_refl))
           ["a.txt"]).
Defined.

(** The array of [docs], got before the child ["reports"] is removed,
    still holds it afterwards; the folder has the empty array at
    reference 2. *)
Lemma Shared_getChildDirs_aliasing_witness :
  exists st' out r,
    Shared.removeChildDirReferences (FT := Fixture.recordingFiletree)
      ["reports"] Fixture.plainWallet SharedExamples.store 1%positive
    = Some (st', out)
    /\ Shared.getChildDirs st' 1%positive = Some r
    /\ r <> 1%positive
    /\ Shared.arrays st' !! r = Some []
    /\ Shared.arrays SharedExamples.store ⊆ Shared.arrays st'.
Proof.
  exact (proj1 (proj2 (proj2
           (Shared_getChildDirs_aliasing (FT := Fixture.recordingFiletree)
              Fixture.plainWallet SharedExamples.store 1%positive
              SharedExamples.docsValue 1%positive eq_refl eq_refl)))
           ["reports"]).
Defined.
